(** * KBRJ Solutions front-end script: validation, submission and engagement tracking

    A shallow embedding of [script.js] (class [KBRJSolutions]) and the
    properties of its form pipeline and of its visibility and scroll
    observers.

    Conventions of the embedding.
    - A JavaScript string is a [string]; its characters are the code units
      below 256, so the white space of [trim] and of the regular expression
      class [\s] is the part of the ECMAScript set in that range.
    - The document is the ordered tree of elements below [body], kept as its
      pre-order listing with the depth of every element; document order is
      list order.  An element is referred to by its [uid]; [body] itself is
      the root and matches no selector of the script.
    - Methods that touch the page or the application object are state
      transformers over [App] (monad [M]); closures are data: the callbacks
      given to timers are [task]s, those given to intersection observers
      are [callback]s.
    - An [async] method is cut at its [await]: the part before it runs when
      the method is called, the part after it when the event loop runs the
      timer the promise waits for ([fire]).
    - A member read on an element, on the document or on the window has
      its built-in meaning.  [form.reset] alone is looked up as the browser
      does it, among the controls of the form first ([shadowed]); the
      statements about whole submissions say of the page that no element
      stands in the place of another member ([ordinary]).
    - [textContent] is the text an element holds itself; the elements the
      script assigns it to are taken to hold text only.
    - [console.log] output is not part of the state. *)

From Stdlib Require Import List String Ascii Bool Arith ZArith Lia Sorted.
Import ListNotations.

Open Scope string_scope.
Open Scope list_scope.
Open Scope nat_scope.

(* ================================================================== *)
(** ** JavaScript strings *)

Module JsString.

Definition code (c : ascii) : nat := nat_of_ascii c.

(** WhiteSpace and LineTerminator code units below 256: TAB, LF, VT, FF,
    CR, SP, NBSP. *)
Definition isWhiteSpace (c : ascii) : bool :=
  let n := code c in
  ((9 <=? n) && (n <=? 13)) || (n =? 32) || (n =? 160).

Fixpoint trimStart (s : string) : string :=
  match s with
  | EmptyString => EmptyString
  | String c r => if isWhiteSpace c then trimStart r else s
  end.

Fixpoint trimEnd (s : string) : string :=
  match s with
  | EmptyString => EmptyString
  | String c r =>
      match trimEnd r with
      | EmptyString => if isWhiteSpace c then EmptyString else String c EmptyString
      | r' => String c r'
      end
  end.

(** [String.prototype.trim] *)
Definition trim (s : string) : string := trimEnd (trimStart s).

(** ToBoolean on a string: only the empty string is falsy. *)
Definition truthy (s : string) : bool :=
  match s with EmptyString => false | _ => true end.

(** [s.substring(0, n)] *)
Definition prefix (n : nat) (s : string) : string := String.substring 0 n s.

(** ASCII white space, the separator of class tokens. *)
Definition isAsciiSpace (c : ascii) : bool :=
  let n := code c in
  (n =? 9) || (n =? 10) || (n =? 12) || (n =? 13) || (n =? 32).

(** Split on ASCII white space, dropping empty pieces. *)
Fixpoint splitTokens (cur : string) (s : string) : list string :=
  match s with
  | EmptyString => if truthy cur then [cur] else []
  | String c r =>
      if isAsciiSpace c
      then (if truthy cur then [cur] else []) ++ splitTokens EmptyString r
      else splitTokens (cur ++ String c EmptyString)%string r
  end.

Definition mem (x : string) (l : list string) : bool :=
  existsb (String.eqb x) l.

(** ASCII lower case, as used to compare enumerated attribute values. *)
Definition lowerChar (c : ascii) : ascii :=
  let n := code c in
  if (65 <=? n) && (n <=? 90) then ascii_of_nat (n + 32) else c.

Fixpoint lower (s : string) : string :=
  match s with
  | EmptyString => EmptyString
  | String c r => String (lowerChar c) (lower r)
  end.

Fixpoint dedup (l : list string) : list string :=
  match l with
  | [] => []
  | x :: r => let r' := dedup r in if mem x r' then r' else x :: r'
  end.

(** Keeps the first occurrence of every token, as an ordered set does. *)
Definition orderedSet (l : list string) : list string := rev (dedup (rev l)).

Definition tokens (s : string) : list string :=
  orderedSet (splitTokens EmptyString s).

End JsString.

(* ================================================================== *)
(** ** Regular expressions

    The three patterns of [SECURITY.patterns] are anchored at both ends and
    use only classes, sequence, option and bounded repetition, so
    [RegExp.prototype.test] decides membership of the whole string in the
    language of the pattern.  Membership is computed with derivatives. *)

Module RegExp.

Inductive regex : Type :=
| Void
| Eps
| Class (p : ascii -> bool)
| Seq (r1 r2 : regex)
| Alt (r1 r2 : regex)
| Star (r : regex).

Definition Plus (r : regex) : regex := Seq r (Star r).
Definition Opt (r : regex) : regex := Alt Eps r.

(** [r{lo,lo+extra}] *)
Fixpoint Rep (r : regex) (lo extra : nat) : regex :=
  match lo with
  | S lo' => Seq r (Rep r lo' extra)
  | O =>
      (fix upTo (k : nat) : regex :=
         match k with
         | O => Eps
         | S k' => Alt Eps (Seq r (upTo k'))
         end) extra
  end.

Fixpoint nullable (r : regex) : bool :=
  match r with
  | Void => false
  | Eps => true
  | Class _ => false
  | Seq r1 r2 => nullable r1 && nullable r2
  | Alt r1 r2 => nullable r1 || nullable r2
  | Star _ => true
  end.

Fixpoint deriv (c : ascii) (r : regex) : regex :=
  match r with
  | Void => Void
  | Eps => Void
  | Class p => if p c then Eps else Void
  | Seq r1 r2 =>
      if nullable r1
      then Alt (Seq (deriv c r1) r2) (deriv c r2)
      else Seq (deriv c r1) r2
  | Alt r1 r2 => Alt (deriv c r1) (deriv c r2)
  | Star r1 => Seq (deriv c r1) (Star r1)
  end.

Fixpoint test (r : regex) (s : string) : bool :=
  match s with
  | EmptyString => nullable r
  | String c s' => test (deriv c r) s'
  end.

(** The language of a pattern, for reference. *)
Inductive Matches : regex -> string -> Prop :=
| MEps : Matches Eps EmptyString
| MClass p c : p c = true -> Matches (Class p) (String c EmptyString)
| MSeq r1 r2 s1 s2 : Matches r1 s1 -> Matches r2 s2 -> Matches (Seq r1 r2) (s1 ++ s2)%string
| MAltL r1 r2 s : Matches r1 s -> Matches (Alt r1 r2) s
| MAltR r1 r2 s : Matches r2 s -> Matches (Alt r1 r2) s
| MStar0 r : Matches (Star r) EmptyString
| MStarS r s1 s2 : Matches r s1 -> Matches (Star r) s2 -> Matches (Star r) (s1 ++ s2)%string.

Definition inRange (lo hi : nat) (c : ascii) : bool :=
  let n := JsString.code c in (lo <=? n) && (n <=? hi).

Definition isChar (x : ascii) (c : ascii) : bool := Ascii.eqb x c.

Definition digit : ascii -> bool := inRange 48 57.

End RegExp.

(** [SECURITY.patterns] *)
Module SECURITY.
Import RegExp.

(** [[^\s@]] *)
Definition notSpaceNorAt (c : ascii) : bool :=
  negb (JsString.isWhiteSpace c || isChar "@" c).

(** [/^[^\s@]+@[^\s@]+\.[^\s@]+$/] *)
Definition email : regex :=
  Seq (Plus (Class notSpaceNorAt))
    (Seq (Class (isChar "@"))
       (Seq (Plus (Class notSpaceNorAt))
          (Seq (Class (isChar ".")) (Plus (Class notSpaceNorAt))))).

(** [/^[\+]?[1-9][\d]{0,15}$/] *)
Definition phone : regex :=
  Seq (Opt (Class (isChar "+")))
    (Seq (Class (inRange 49 57)) (Rep (Class digit) 0 15)).

(** [[a-zA-Z\s'-]] *)
Definition nameChar (c : ascii) : bool :=
  inRange 97 122 c || inRange 65 90 c || JsString.isWhiteSpace c
  || isChar "'" c || isChar "-" c.

(** [/^[a-zA-Z\s'-]{2,50}$/] *)
Definition name : regex := Rep (Class nameChar) 2 48.

Definition replaceChar (c : ascii) : string :=
  if Ascii.eqb c "&" then "&amp;"
  else if Ascii.eqb c "<" then "&lt;"
  else if Ascii.eqb c ">" then "&gt;"
  else if Nat.eqb (JsString.code c) 160 then "&nbsp;"
  else String c EmptyString.

(** [sanitizeInput]: the text is stored in a scratch element and read back
    as markup, which escapes the characters that are special in text. *)
Fixpoint sanitizeInput (input : string) : string :=
  match input with
  | EmptyString => EmptyString
  | String c r => (replaceChar c ++ sanitizeInput r)%string
  end.

End SECURITY.

(* ================================================================== *)
(** ** Numbers

    The only arithmetic of the script that matters here is the scroll
    percentage: a quotient of pixel counts, scaled and rounded.  Pixel counts
    are integers; the quotient can be infinite or undefined when the page has
    no scrollable height. *)

Module JsNum.

Inductive jsnum : Type :=
| Num (z : Z)
| PosInf
| NegInf
| NaN.

(** [Math.round((y / d) * 100)] for integers [y] and [d]: the nearest
    integer, ties towards positive infinity.  The quotient is taken exactly;
    the double-precision product of the script can fall on the other side
    of a half only when the exact percentage is within rounding error of
    one. *)
Definition roundPercent (y d : Z) : jsnum :=
  if (d =? 0)%Z then
    (if (0 <? y)%Z then PosInf else if (y <? 0)%Z then NegInf else NaN)
  else Num ((200 * y + d) / (2 * d))%Z.

(** [a > b] *)
Definition gt (a b : jsnum) : bool :=
  match a, b with
  | NaN, _ | _, NaN => false
  | Num x, Num y => (y <? x)%Z
  | PosInf, PosInf => false
  | PosInf, _ => true
  | _, PosInf => false
  | NegInf, _ => false
  | Num _, NegInf => true
  end.

(** [a % m === 0] for a non-zero integer [m] *)
Definition divisibleBy (m : Z) (a : jsnum) : bool :=
  match a with
  | Num x => (Z.rem x m =? 0)%Z
  | _ => false
  end.

End JsNum.

(* ================================================================== *)
(** ** The document *)

Module Dom.

Record element : Type := mkElement {
  uid : nat;                           (* identity of the object *)
  depth : nat;                         (* nesting below [body] *)
  localName : string;                  (* tag name, lower case *)
  classList : list string;             (* class tokens, an ordered set *)
  attributes : list (string * string); (* the other content attributes *)
  textContent : string;
  value : string;                      (* current value of a form control *)
  defaultValue : string;               (* value a form reset restores *)
  disabled : bool
}.

Definition setDepth (n : nat) (e : element) : element :=
  mkElement (uid e) n (localName e) (classList e) (attributes e)
    (textContent e) (value e) (defaultValue e) (disabled e).

Definition setClassList (l : list string) (e : element) : element :=
  mkElement (uid e) (depth e) (localName e) l (attributes e)
    (textContent e) (value e) (defaultValue e) (disabled e).

Definition setAttributes (l : list (string * string)) (e : element) : element :=
  mkElement (uid e) (depth e) (localName e) (classList e) l
    (textContent e) (value e) (defaultValue e) (disabled e).

(** [e.textContent = t] for an element that holds text only: elements below
    [e], if there are any, are left where they are. *)
Definition setTextContent (t : string) (e : element) : element :=
  mkElement (uid e) (depth e) (localName e) (classList e) (attributes e)
    t (value e) (defaultValue e) (disabled e).

Definition setCurrentValue (v : string) (e : element) : element :=
  mkElement (uid e) (depth e) (localName e) (classList e) (attributes e)
    (textContent e) v (defaultValue e) (disabled e).

Definition setDefaultValue (v : string) (e : element) : element :=
  mkElement (uid e) (depth e) (localName e) (classList e) (attributes e)
    (textContent e) (value e) v (disabled e).

Definition setDisabled (b : bool) (e : element) : element :=
  mkElement (uid e) (depth e) (localName e) (classList e) (attributes e)
    (textContent e) (value e) (defaultValue e) b.

(** *** Attributes *)

Fixpoint assoc (k : string) (l : list (string * string)) : option string :=
  match l with
  | [] => None
  | (k', v) :: r => if String.eqb k k' then Some v else assoc k r
  end.

Definition getAttribute (k : string) (e : element) : option string :=
  assoc k (attributes e).

Definition hasAttribute (k : string) (e : element) : bool :=
  match getAttribute k e with Some _ => true | None => false end.

Definition removeAttribute (k : string) (e : element) : element :=
  setAttributes (filter (fun kv => negb (String.eqb k (fst kv))) (attributes e)) e.

Fixpoint assocSet (k v : string) (l : list (string * string)) : list (string * string) :=
  match l with
  | [] => [(k, v)]
  | (k', v') :: r => if String.eqb k k' then (k, v) :: r else (k', v') :: assocSet k v r
  end.

Definition setAttribute (k v : string) (e : element) : element :=
  setAttributes (assocSet k v (attributes e)) e.

(** A reflecting property reads its attribute, the empty string when the
    attribute is missing. *)
Definition reflect (k : string) (e : element) : string :=
  match getAttribute k e with Some v => v | None => EmptyString end.

(** [element.id] *)
Definition idOf (e : element) : string := reflect "id" e.

(** [field.name] *)
Definition nameOf (e : element) : string := reflect "name" e.

Definition inputTypes : list string :=
  ["hidden"; "text"; "search"; "tel"; "url"; "email"; "password"; "date";
   "month"; "week"; "time"; "datetime-local"; "number"; "range"; "color";
   "checkbox"; "radio"; "file"; "submit"; "image"; "reset"; "button"].

(** [field.type]: the state of the [type] attribute for an [input] (text
    when it is missing or unknown), the fixed word for a [textarea]. *)
Definition typeOf (e : element) : string :=
  if String.eqb (localName e) "textarea" then "textarea"
  else match getAttribute "type" e with
       | Some t =>
           if JsString.mem (JsString.lower t) inputTypes
           then JsString.lower t else "text"
       | None => "text"
       end.

(** [element.value = v]: a hidden input keeps its value in the [value]
    attribute, which is also what a reset restores. *)
Definition assignValue (v : string) (e : element) : element :=
  if String.eqb (typeOf e) "hidden"
  then setDefaultValue v (setCurrentValue v e)
  else setCurrentValue v e.

(** *** Class tokens *)

(** [classList.contains] *)
Definition contains (c : string) (e : element) : bool :=
  JsString.mem c (classList e).

Fixpoint addTokens (new : list string) (l : list string) : list string :=
  match new with
  | [] => l
  | c :: r => addTokens r (if JsString.mem c l then l else l ++ [c])
  end.

(** [classList.add(...)] *)
Definition classAdd (new : list string) (e : element) : element :=
  setClassList (addTokens new (classList e)) e.

(** [classList.remove(c)] *)
Definition classRemove (c : string) (e : element) : element :=
  setClassList (filter (fun x => negb (String.eqb c x)) (classList e)) e.

(** [element.className] *)
Definition className (e : element) : string := String.concat " " (classList e).

(** [element.className = s] *)
Definition assignClassName (s : string) (e : element) : element :=
  setClassList (JsString.tokens s) e.

(** *** Selectors *)

Inductive selector : Type :=
| ByTag (t : string)               (* [t] *)
| ByClass (c : string)             (* [.c] *)
| ById (i : string)                (* [#i] *)
| ByTagAttr (t a v : string)       (* [t[a="v"]] *)
| Either (s1 s2 : selector).       (* [s1, s2] *)

Fixpoint matchesSelector (s : selector) (e : element) : bool :=
  match s with
  | ByTag t => String.eqb (localName e) t
  | ByClass c => contains c e
  | ById i => match getAttribute "id" e with Some v => String.eqb v i | None => false end
  | ByTagAttr t a v =>
      String.eqb (localName e) t &&
      match getAttribute a e with
      | Some w =>
          (* the values of [type] compare without regard to case *)
          if String.eqb a "type"
          then String.eqb (JsString.lower w) (JsString.lower v)
          else String.eqb w v
      | None => false
      end
  | Either s1 s2 => matchesSelector s1 e || matchesSelector s2 e
  end.

(** *** The tree *)

Definition document : Type := list element.

(** A place in the page: [body] itself or an element below it. *)
Inductive node : Type :=
| Body
| El (u : nat).

Definition hasUid (u : nat) (e : element) : bool := uid e =? u.

Definition lookup (u : nat) (d : document) : option element := find (hasUid u) d.

(** Applies [f] to the element [u] in place. *)
Definition update (u : nat) (f : element -> element) (d : document) : document :=
  map (fun e => if hasUid u e then f e else e) d.

(** The leading elements deeper than [k]: the subtree of an element of depth
    [k] when given what follows it. *)
Fixpoint below (k : nat) (rest : document) : document :=
  match rest with
  | [] => []
  | x :: r => if k <? depth x then x :: below k r else []
  end.

(** What follows that subtree. *)
Fixpoint beyond (k : nat) (rest : document) : document :=
  match rest with
  | [] => []
  | x :: r => if k <? depth x then beyond k r else rest
  end.

Fixpoint descendantsOf (u : nat) (d : document) : document :=
  match d with
  | [] => []
  | e :: r => if hasUid u e then below (depth e) r else descendantsOf u r
  end.

Definition descendants (n : node) (d : document) : document :=
  match n with
  | Body => d
  | El u => descendantsOf u d
  end.

(** [n.querySelectorAll(s)], in document order *)
Definition querySelectorAll (s : selector) (n : node) (d : document) : list element :=
  filter (matchesSelector s) (descendants n d).

(** [n.querySelector(s)] *)
Definition querySelector (s : selector) (n : node) (d : document) : option element :=
  hd_error (querySelectorAll s n d).

(** [u.remove()]: the element leaves the page with everything below it. *)
Fixpoint removeNode (u : nat) (d : document) : document :=
  match d with
  | [] => []
  | e :: r => if hasUid u e then beyond (depth e) r else e :: removeNode u r
  end.

Fixpoint insertUnder (u : nat) (new : element) (d : document) : document :=
  match d with
  | [] => []
  | e :: r =>
      if hasUid u e
      then e :: below (depth e) r ++ setDepth (S (depth e)) new :: beyond (depth e) r
      else e :: insertUnder u new r
  end.

(** [parent.appendChild(new)] for a [new] element not yet in the page: it
    becomes the last child. *)
Definition appendChild (parent : node) (new : element) (d : document) : document :=
  match parent with
  | Body => d ++ [setDepth 0 new]
  | El u => insertUnder u new d
  end.

Fixpoint dropWhile {A : Type} (p : A -> bool) (l : list A) : list A :=
  match l with
  | [] => []
  | x :: r => if p x then dropWhile p r else l
  end.

(** Walks the listing with the chain of open ancestors, nearest first. *)
Fixpoint ancestorsFrom (open : list element) (u : nat) (d : document) : list element :=
  match d with
  | [] => []
  | e :: r =>
      let open' := dropWhile (fun a => depth e <=? depth a) open in
      if hasUid u e then open' else ancestorsFrom (e :: open') u r
  end.

Definition ancestors (u : nat) (d : document) : list element := ancestorsFrom [] u d.

(** [u.parentNode] *)
Definition parentNode (u : nat) (d : document) : node :=
  match ancestors u d with
  | a :: _ => El (uid a)
  | [] => Body
  end.

(** [u.closest(s)]: the element itself or its nearest ancestor matching. *)
Definition closest (s : selector) (u : nat) (d : document) : option element :=
  match lookup u d with
  | Some e => find (matchesSelector s) (e :: ancestors u d)
  | None => None
  end.

End Dom.

(* ================================================================== *)
(** ** Application state *)

(** [CONFIG] *)
Module CONFIG.
Definition ANIMATION_DELAY : Z := 200.
Definition FORM_TIMEOUT : Z := 2000.
Definition MESSAGE_TIMEOUT : Z := 5000.
End CONFIG.

Import JsNum.

(** Values carried by event payloads and submission data.  An instant stands
    for the ISO text of that time. *)
Inductive jsvalue : Type :=
| VStr (s : string)
| VNum (n : jsnum)
| VInstant (t : Z).

Definition payload : Type := list (string * jsvalue).

(** An entry of [eventHistory]. *)
Record EngagementEvent : Type := mkEvent {
  event : string;
  data : payload;
  timestamp : Z
}.

(** Callbacks waiting for a timer or for the next frame.  The last one is
    the wake-up of a pending submission: the timer inside [submitForm], on
    which the rest of [submitForm] and of [handleFormSubmission] wait. *)
Inductive task : Type :=
| AddShow (messageDiv : nat)      (* showMessage: animate in *)
| HideMessage (messageDiv : nat)  (* showMessage: auto-hide *)
| Detach (messageDiv : nat)       (* hideMessage: removal after the fade *)
| RevealCard (card : nat)         (* triggerBusinessAnimations *)
| SettleSubmission (form : nat) (formType : string) (data : payload).

Record timer : Type := mkTimer {
  delay : Z;
  action : task
}.

(** Callbacks handed to [IntersectionObserver]. *)
Inductive callback : Type :=
| SectionView                            (* initScrollAnimations *)
| ServiceInterest (card : nat)           (* trackServiceInterest *)
| BusinessGoal (sectionId : string).     (* trackBusinessGoals *)

(** An [IntersectionObserver]: its callback and its observation targets. *)
Record observer : Type := mkObserver {
  onEntries : callback;
  targets : list nat
}.

(** An [IntersectionObserverEntry], as far as the callbacks read it. *)
Record entry : Type := mkEntry {
  isIntersecting : bool;
  target : nat
}.

Record App : Type := mkApp {
  page : Dom.document;                       (* the elements below [body] *)
  nextUid : nat;                             (* identity of the next created element *)
  now : Z;                                   (* [Date.now()] *)
  eventHistory : list EngagementEvent;       (* [this.eventHistory]; empty while undefined *)
  gtag : option (list (string * payload));   (* calls received by [window.gtag], when present *)
  timers : list timer;                       (* callbacks waiting to run *)
  maxScroll : jsnum;                         (* the variable captured by the scroll listener *)
  observers : list observer                  (* observers by order of creation *)
}.

Definition setPage (d : Dom.document) (st : App) : App :=
  mkApp d (nextUid st) (now st) (eventHistory st) (gtag st) (timers st)
    (maxScroll st) (observers st).

Definition setNextUid (n : nat) (st : App) : App :=
  mkApp (page st) n (now st) (eventHistory st) (gtag st) (timers st)
    (maxScroll st) (observers st).

Definition setNow (t : Z) (st : App) : App :=
  mkApp (page st) (nextUid st) t (eventHistory st) (gtag st) (timers st)
    (maxScroll st) (observers st).

Definition setEventHistory (h : list EngagementEvent) (st : App) : App :=
  mkApp (page st) (nextUid st) (now st) h (gtag st) (timers st)
    (maxScroll st) (observers st).

Definition setGtag (g : option (list (string * payload))) (st : App) : App :=
  mkApp (page st) (nextUid st) (now st) (eventHistory st) g (timers st)
    (maxScroll st) (observers st).

Definition setTimers (t : list timer) (st : App) : App :=
  mkApp (page st) (nextUid st) (now st) (eventHistory st) (gtag st) t
    (maxScroll st) (observers st).

Definition setMaxScroll (m : jsnum) (st : App) : App :=
  mkApp (page st) (nextUid st) (now st) (eventHistory st) (gtag st) (timers st)
    m (observers st).

Definition setObservers (o : list observer) (st : App) : App :=
  mkApp (page st) (nextUid st) (now st) (eventHistory st) (gtag st) (timers st)
    (maxScroll st) o.

(** *** State transformers *)

Definition M (A : Type) : Type := App -> A * App.

Definition ret {A : Type} (a : A) : M A := fun st => (a, st).

Definition bind {A B : Type} (m : M A) (k : A -> M B) : M B :=
  fun st => let (a, st') := m st in k a st'.

Declare Scope js_scope.
Delimit Scope js_scope with js.
Notation "x <- m ;; k" := (bind m (fun x => k))
  (at level 61, m at next level, right associativity) : js_scope.
Notation "m ;; k" := (bind m (fun _ => k))
  (at level 61, right associativity) : js_scope.
Open Scope js_scope.

Definition exec {A : Type} (m : M A) (st : App) : App := snd (m st).
Definition eval {A : Type} (m : M A) (st : App) : A := fst (m st).

Definition gets {A : Type} (f : App -> A) : M A := fun st => (f st, st).
Definition modify (f : App -> App) : M unit := fun st => (tt, f st).

(** [list.forEach(f)] *)
Fixpoint forEach {A : Type} (l : list A) (f : A -> M unit) : M unit :=
  match l with
  | [] => ret tt
  | x :: r => f x ;; forEach r f
  end.

(** [list.forEach((x, index) => f)] *)
Fixpoint forEachIndexed {A : Type} (i : nat) (l : list A) (f : A -> nat -> M unit) : M unit :=
  match l with
  | [] => ret tt
  | x :: r => f x i ;; forEachIndexed (S i) r f
  end.

Definition when (b : bool) (m : M unit) : M unit := if b then m else ret tt.

Definition modifyPage (f : Dom.document -> Dom.document) : M unit :=
  modify (fun st => setPage (f (page st)) st).

(** The element a reference denotes.  One that has left the page reads as
    a blank element. *)
Definition blank (u : nat) (tag : string) : Dom.element :=
  Dom.mkElement u 0 tag [] [] EmptyString EmptyString EmptyString false.

Definition deref (u : nat) : M Dom.element :=
  gets (fun st => match Dom.lookup u (page st) with
                  | Some e => e
                  | None => blank u EmptyString
                  end).

(** [document.createElement(tag)] *)
Definition createElement (tag : string) : M Dom.element :=
  u <- gets nextUid ;;
  modify (setNextUid (S u)) ;;
  ret (blank u tag).

(** [setTimeout(action, delay)] and [requestAnimationFrame(action)] *)
Definition setTimeout (a : task) (ms : Z) : M unit :=
  modify (fun st => setTimers (timers st ++ [mkTimer ms a]) st).

Definition requestAnimationFrame (a : task) : M unit := setTimeout a 0.

(* ================================================================== *)
(** ** Event recorder *)

(** [trackEvent(eventName, data)] *)
Definition trackEvent (eventName : string) (data : payload) : M unit :=
  modify (fun st =>
            match gtag st with
            | Some calls => setGtag (Some (calls ++ [(eventName, data)])) st
            | None => st
            end) ;;
  modify (fun st =>
            setEventHistory
              (eventHistory st ++ [mkEvent eventName data (now st)]) st).

(* ================================================================== *)
(** ** Presentation *)

Import Dom.

(** [clearFieldError(field)] *)
Definition clearFieldError (field : nat) : M unit :=
  d <- gets page ;;
  match querySelector (ByClass "field-error") (parentNode field d) d with
  | Some errorDiv => modifyPage (removeNode (uid errorDiv))
  | None => ret tt
  end ;;
  modifyPage (update field (fun f =>
    removeAttribute "aria-describedby"
      (removeAttribute "aria-invalid" (classRemove "error" f)))).

(** [showFieldError(field, message)] *)
Definition showFieldError (field : nat) (message : string) : M unit :=
  div <- createElement "div" ;;
  let errorDiv :=
    setAttribute "aria-live" "polite"
      (setAttribute "role" "alert"
         (setTextContent (SECURITY.sanitizeInput message)
            (assignClassName "field-error" div))) in
  d <- gets page ;;
  modifyPage (appendChild (parentNode field d) errorDiv) ;;
  modifyPage (update field (fun f =>
    setAttribute "aria-describedby"
      (if JsString.truthy (idOf errorDiv) then idOf errorDiv else "error")
      (setAttribute "aria-invalid" "true" (classAdd ["error"] f)))).

(** [removeExistingMessages()] *)
Definition removeExistingMessages : M unit :=
  d <- gets page ;;
  let existingMessages := querySelectorAll (ByClass "message") Body d in
  forEach existingMessages (fun msg => modifyPage (removeNode (uid msg))).

(** [getMessageContainer(type)] *)
Definition getMessageContainer (type : string) : M node :=
  d <- gets page ;;
  if String.eqb type "success" || String.eqb type "error"
  then match querySelector (ById "contact") Body d with
       | Some contact => ret (El (uid contact))
       | None => ret Body
       end
  else ret Body.

(** [hideMessage(messageDiv)] *)
Definition hideMessage (messageDiv : nat) : M unit :=
  modifyPage (update messageDiv (classRemove "show")) ;;
  setTimeout (Detach messageDiv) 300.

(** The [messageDiv] of [showMessage], built from a fresh [div]. *)
Definition messageElement (message type : string) (div : element) : element :=
  setAttribute "aria-live" "polite"
    (setAttribute "role" "alert"
       (setTextContent (SECURITY.sanitizeInput message)
          (assignClassName ("message " ++ type ++ "-message")%string div))).

(** [showMessage(message, type, duration)] *)
Definition showMessage (message type : string) (duration : Z) : M unit :=
  removeExistingMessages ;;
  div <- createElement "div" ;;
  let messageDiv := messageElement message type div in
  container <- getMessageContainer type ;;
  modifyPage (appendChild container messageDiv) ;;
  requestAnimationFrame (AddShow (uid messageDiv)) ;;
  when (0 <? duration)%Z (setTimeout (HideMessage (uid messageDiv)) duration) ;;
  trackEvent "message_display"
    [("type", VStr type); ("message", VStr (JsString.prefix 50 message))].

(** [messages[formType] || messages.default] in [showFormSuccess] *)
Definition successMessage (formType : string) : string :=
  if String.eqb formType "early-access"
  then "Thank you! You're now on our early access list. We'll notify you as soon as we launch."
  else if String.eqb formType "contact"
  then "Thank you! We'll get back to you within 24 hours."
  else "Form submitted successfully!".

(** [showFormSuccess(form, formType)] *)
Definition showFormSuccess (form : nat) (formType : string) : M unit :=
  let message := successMessage formType in
  showMessage message "success" CONFIG.MESSAGE_TIMEOUT.

(** [showFormError(form, message)] *)
Definition showFormError (form : nat) (message : string) : M unit :=
  showMessage message "error" CONFIG.MESSAGE_TIMEOUT.

(** [showFormLoading(form)] *)
Definition showFormLoading (form : nat) : M unit :=
  d <- gets page ;;
  match querySelector (ByTagAttr "button" "type" "submit") (El form) d with
  | Some submitButton =>
      modifyPage (update (uid submitButton)
                    (fun b => setDisabled true (setTextContent "Sending..." b)))
  | None => ret tt
  end.

(** [hideFormLoading(form)] *)
Definition hideFormLoading (form : nat) : M unit :=
  d <- gets page ;;
  match querySelector (ByTagAttr "button" "type" "submit") (El form) d with
  | Some submitButton =>
      modifyPage (update (uid submitButton)
                    (fun b => setDisabled false (setTextContent "Send Message" b)))
  | None => ret tt
  end.

(* ================================================================== *)
(** ** Validation *)

(** [validateField(field)] *)
Definition validateField (field : nat) : M bool :=
  f <- deref field ;;
  let value := JsString.trim (value f) in
  let fieldType := typeOf f in
  let fieldName := nameOf f in
  clearFieldError field ;;
  if hasAttribute "required" f && negb (JsString.truthy value) then
    showFieldError field "This field is required" ;;
    ret false
  else if JsString.truthy value then
    if String.eqb fieldType "email" then
      if negb (RegExp.test SECURITY.email value) then
        showFieldError field "Please enter a valid email address" ;;
        ret false
      else ret true
    else if String.eqb fieldType "tel" then
      if negb (RegExp.test SECURITY.phone value) then
        showFieldError field "Please enter a valid phone number" ;;
        ret false
      else ret true
    else if String.eqb fieldType "text" then
      if String.eqb fieldName "name" && negb (RegExp.test SECURITY.name value) then
        showFieldError field "Please enter a valid name (2-50 characters)" ;;
        ret false
      else ret true
    else ret true
  else ret true.

(** The loop of [validateForm]; [isValid] is the variable it updates. *)
Fixpoint validateInputs (inputs : list element) (isValid : bool) : M bool :=
  match inputs with
  | [] => ret isValid
  | input :: rest =>
      ok <- validateField (uid input) ;;
      validateInputs rest (if negb ok then false else isValid)
  end.

Definition fieldSelector : selector := Either (ByTag "input") (ByTag "textarea").

(** [validateForm(form)] *)
Definition validateForm (form : nat) : M bool :=
  d <- gets page ;;
  let inputs := querySelectorAll fieldSelector (El form) d in
  validateInputs inputs true.

(* ================================================================== *)
(** ** Submission *)

(** [getFormType(form)] *)
Definition getFormType (form : nat) : M string :=
  f <- deref form ;;
  d <- gets page ;;
  if contains "email-form" f then ret "early-access"
  else match closest (ById "contact") form d with
       | Some _ => ret "contact"
       | None => ret "default"
       end.

(** Controls whose name and value a [FormData] of the form lists.  An
    element has no checkedness here: check boxes and radio buttons count as
    unchecked and are not listed. *)
Definition listed (e : element) : bool :=
  JsString.truthy (nameOf e) && negb (disabled e) &&
  negb (JsString.mem (typeOf e)
          ["submit"; "button"; "reset"; "image"; "file"; "checkbox"; "radio"]).

(** [new FormData(form)] *)
Definition FormData (form : nat) : M (list (string * string)) :=
  d <- gets page ;;
  ret (map (fun e => (nameOf e, value e))
         (filter listed (querySelectorAll fieldSelector (El form) d))).

(** An own entry of a plain object is set, in place when the object has
    the key. *)
Fixpoint store (key : string) (v : jsvalue) (data : payload) : payload :=
  match data with
  | [] => [(key, v)]
  | (k, w) :: r => if String.eqb key k then (k, v) :: r else (k, w) :: store key v r
  end.

(** [data[key] = v] on a plain object, for a value that is not an object:
    the key [__proto__] reaches the setter of the prototype, which ignores
    such a value, so that nothing is stored. *)
Definition put (key : string) (v : jsvalue) (data : payload) : payload :=
  if String.eqb key "__proto__" then data else store key v data.

(** [prepareSubmissionData(formData, formType)] *)
Definition prepareSubmissionData (formData : list (string * string)) (formType : string)
  : M payload :=
  let data := fold_left (fun data kv => put (fst kv) (VStr (snd kv)) data) formData [] in
  let data := put "formType" (VStr formType) data in
  t <- gets now ;;
  ret (put "timestamp" (VInstant t) data).

(** How a promise settles. *)
Inductive settled : Type :=
| Resolved (success : bool) (message : string)
| Rejected (reason : string).

(** [submitForm(data, formType)] runs in two halves.  Up to its [await] it
    starts a timer of [CONFIG.FORM_TIMEOUT]; when the timer fires the second
    half settles the promise. *)
Definition submitFormStart (form : nat) (data : payload) (formType : string) : M unit :=
  setTimeout (SettleSubmission form formType data) CONFIG.FORM_TIMEOUT.

Definition submitForm (data : payload) (formType : string) : settled :=
  Resolved true "Form submitted successfully".

(** The built-in [reset] method of a form: every control goes back to its
    default value. *)
Definition resetControl (c : element) : element := setCurrentValue (defaultValue c) c.

Definition reset (form : nat) : M unit :=
  d <- gets page ;;
  forEach (querySelectorAll fieldSelector (El form) d)
    (fun control => modifyPage (update (uid control) resetControl)).

(** How a call completes: normally, or by throwing an error. *)
Inductive completion : Type :=
| Normal
| Throw (message : string).

(** The elements a form offers as named properties: the controls it owns,
    image buttons apart, and its images.  A control is owned by the form it
    lies in. *)
Definition namedByForm (e : element) : bool :=
  JsString.mem (localName e)
    ["button"; "fieldset"; "object"; "output"; "select"; "textarea"; "img"] ||
  (String.eqb (localName e) "input" && negb (String.eqb (typeOf e) "image")).

(** [form[property]] is an element of the form and not the built-in
    property: a form looks a name up among its named properties first. *)
Definition shadowed (property : string) (form : nat) (d : document) : bool :=
  existsb (fun e => namedByForm e &&
                    (String.eqb (idOf e) property || String.eqb (nameOf e) property))
    (descendantsOf form d).

(** [form.reset()]: the built-in method runs unless a control named [reset]
    stands in its place; calling that control throws a [TypeError], whose
    message is worded as V8 and SpiderMonkey word it. *)
Definition formReset (form : nat) : M completion :=
  d <- gets page ;;
  if shadowed "reset" form d
  then ret (Throw "form.reset is not a function")
  else reset form ;; ret Normal.

(** [handleFormSubmission(form)] up to its [await].  The result is the call
    made to the transport, if any. *)
Definition handleFormSubmissionStart (form : nat) : M (option (string * payload)) :=
  formData <- FormData form ;;
  formType <- getFormType form ;;
  valid <- validateForm form ;;
  if negb valid then
    (* return; the finally block runs *)
    hideFormLoading form ;;
    ret None
  else
    showFormLoading form ;;
    submissionData <- prepareSubmissionData formData formType ;;
    submitFormStart form submissionData formType ;;
    ret (Some (formType, submissionData)).

(** The rest of the [try] block of [handleFormSubmission] once the awaited
    promise has settled: it completes normally, or throws what the promise
    was rejected with or what [form.reset()] throws. *)
Definition afterAwait (form : nat) (formType : string) (outcome : settled) : M completion :=
  match outcome with
  | Resolved _ _ =>
      showFormSuccess form formType ;;
      trackEvent "form_submission_success" [("form_type", VStr formType)] ;;
      formReset form
  | Rejected message => ret (Throw message)
  end.

(** [handleFormSubmission(form)] from the settlement of the awaited promise
    on: the rest of the [try] block, the [catch] block when that throws,
    then [finally]. *)
Definition handleFormSubmissionSettle (form : nat) (formType : string) (outcome : settled)
  : M unit :=
  tried <- afterAwait form formType outcome ;;
  match tried with
  | Normal => ret tt
  | Throw message =>
      showFormError form message ;;
      trackEvent "form_submission_error"
        [("form_type", VStr formType); ("error", VStr message)]
  end ;;
  hideFormLoading form.

(** [addCSRFProtection(form)]; [csrfToken] is what [generateCSRFToken]
    returned. *)
Definition addCSRFProtection (csrfToken : string) (form : nat) : M unit :=
  input <- createElement "input" ;;
  let tokenInput :=
    assignValue csrfToken
      (setAttribute "name" "_csrf" (setAttribute "type" "hidden" input)) in
  modifyPage (appendChild (El form) tokenInput).

(* ================================================================== *)
(** ** Intersection observers *)

(** [new IntersectionObserver(cb)]; the result is the observer's rank in
    [observers]. *)
Definition newIntersectionObserver (cb : callback) : M nat :=
  o <- gets (fun st => List.length (observers st)) ;;
  modify (fun st => setObservers (observers st ++ [mkObserver cb []]) st) ;;
  ret o.

Fixpoint atRank {A : Type} (n : nat) (f : A -> A) (l : list A) : list A :=
  match l, n with
  | [], _ => []
  | x :: r, O => f x :: r
  | x :: r, S n' => x :: atRank n' f r
  end.

Definition observed (t : nat) (ob : observer) : bool := existsb (Nat.eqb t) (targets ob).

(** [observer.observe(t)] *)
Definition observe (o t : nat) : M unit :=
  modify (fun st => setObservers
    (atRank o (fun ob => if observed t ob then ob
                         else mkObserver (onEntries ob) (targets ob ++ [t]))
       (observers st)) st).

(** [observer.unobserve(t)] *)
Definition unobserve (o t : nat) : M unit :=
  modify (fun st => setObservers
    (atRank o (fun ob => mkObserver (onEntries ob)
                           (filter (fun x => negb (Nat.eqb t x)) (targets ob)))
       (observers st)) st).

(** [getServiceType(card)] *)
Definition getServiceType (card : nat) : M string :=
  c <- deref card ;;
  if contains "pet-insurance" c then ret "pet-insurance"
  else if contains "healthcare" c then ret "healthcare"
  else if contains "business-automation" c then ret "business-automation"
  else ret "unknown".

(** [triggerBusinessAnimations(section)] *)
Definition triggerBusinessAnimations (section : nat) : M unit :=
  s <- deref section ;;
  if contains "services" s then
    d <- gets page ;;
    let serviceCards := querySelectorAll (ByClass "service-card") (El section) d in
    forEachIndexed 0 serviceCards
      (fun card index => setTimeout (RevealCard (uid card)) (Z.of_nat index * 200))
  else ret tt.

(** The three callbacks; [self] is the observer running the callback. *)
Definition runCallback (self : nat) (cb : callback) (entries : list entry) : M unit :=
  match cb with
  | SectionView =>
      forEach entries (fun entry =>
        if isIntersecting entry then
          modifyPage (update (target entry) (classAdd ["visible"; "loaded"])) ;;
          t <- deref (target entry) ;;
          let sectionId := if JsString.truthy (idOf t) then idOf t else className t in
          trackEvent "section_view" [("section", VStr sectionId)] ;;
          triggerBusinessAnimations (target entry)
        else ret tt)
  | ServiceInterest card =>
      forEach entries (fun entry =>
        if isIntersecting entry then
          serviceType <- getServiceType card ;;
          trackEvent "service_interest"
            [("service", VStr serviceType); ("action", VStr "view")] ;;
          unobserve self (target entry)
        else ret tt)
  | BusinessGoal sectionId =>
      forEach entries (fun entry =>
        if isIntersecting entry then
          trackEvent "business_goal" [("goal", VStr ("view_" ++ sectionId)%string)] ;;
          unobserve self (target entry)
        else ret tt)
  end.

(** [initScrollAnimations()], the observer part *)
Definition initScrollAnimations : M nat :=
  d <- gets page ;;
  let sections := querySelectorAll (ByTag "section") Body d in
  sectionObserver <- newIntersectionObserver SectionView ;;
  forEach sections (fun section =>
    modifyPage (update (uid section) (classAdd ["loading"])) ;;
    observe sectionObserver (uid section)) ;;
  ret sectionObserver.

(** [trackServiceInterest()] *)
Definition trackServiceInterest : M unit :=
  d <- gets page ;;
  let serviceCards := querySelectorAll (ByClass "service-card") Body d in
  forEach serviceCards (fun card =>
    observer <- newIntersectionObserver (ServiceInterest (uid card)) ;;
    observe observer (uid card)).

(** [trackBusinessGoals()] *)
Definition trackBusinessGoals : M unit :=
  let businessSections := ["services"; "about"; "contact"] in
  forEach businessSections (fun sectionId =>
    d <- gets page ;;
    match querySelector (ById sectionId) Body d with
    | Some section =>
        observer <- newIntersectionObserver (BusinessGoal sectionId) ;;
        observe observer (uid section)
    | None => ret tt
    end).

(* ================================================================== *)
(** ** Scroll depth *)

(** [trackScrollDepth()]: the captured variable starts at zero. *)
Definition trackScrollDepth : M unit := modify (setMaxScroll (Num 0)).

(** The scroll listener of [trackScrollDepth], given [window.scrollY],
    [document.documentElement.scrollHeight] and [window.innerHeight]. *)
Definition onScroll (scrollY scrollHeight innerHeight : Z) : M unit :=
  let scrollPercent := roundPercent scrollY (scrollHeight - innerHeight) in
  m <- gets maxScroll ;;
  if gt scrollPercent m then
    modify (setMaxScroll scrollPercent) ;;
    if divisibleBy 25 scrollPercent then
      trackEvent "scroll_depth" [("depth", VNum scrollPercent)]
    else ret tt
  else ret tt.

(* ================================================================== *)
(** ** The browser *)

(** What a waiting callback does when it runs. *)
Definition runTask (t : task) : M unit :=
  match t with
  | AddShow messageDiv => modifyPage (update messageDiv (classAdd ["show"]))
  | HideMessage messageDiv => hideMessage messageDiv
  | Detach messageDiv => modifyPage (removeNode messageDiv)
  | RevealCard card =>
      modifyPage (update card (fun c =>
        setAttribute "style.transform" "translateY(0)"
          (setAttribute "style.opacity" "1" c)))
  | SettleSubmission form formType data =>
      handleFormSubmissionSettle form formType (submitForm data formType)
  end.

Fixpoint dropRank {A : Type} (n : nat) (l : list A) : list A :=
  match l, n with
  | [], _ => []
  | _ :: r, O => r
  | x :: r, S n' => x :: dropRank n' r
  end.

(** The event loop runs the waiting callback of rank [i]. *)
Definition fire (i : nat) : M unit :=
  ts <- gets timers ;;
  match nth_error ts i with
  | Some t => modify (setTimers (dropRank i ts)) ;; runTask (action t)
  | None => ret tt
  end.

(** The observer [o] is notified of [entries]; entries about elements it
    does not observe are not delivered. *)
Definition notify (o : nat) (entries : list entry) : M unit :=
  obs <- gets observers ;;
  match nth_error obs o with
  | Some ob =>
      match filter (fun e => observed (target e) ob) entries with
      | [] => ret tt
      | delivered => runCallback o (onEntries ob) delivered
      end
  | None => ret tt
  end.

(** The element [t] crosses the visibility threshold of observer [o],
    inwards when [inwards] is true: one notification with one entry. *)
Definition crossing (o t : nat) (inwards : bool) : M unit :=
  notify o [mkEntry inwards t].

(** What the pipeline and the observers react to. *)
Inductive happening : Type :=
| Submits (form : nat)                             (* a form is submitted *)
| Fires (i : nat)                                  (* a waiting callback runs *)
| Crosses (o t : nat) (inwards : bool)             (* an element crosses a threshold *)
| Scrolls (scrollY scrollHeight innerHeight : Z)   (* the window scrolls *)
| Blurs (field : nat)                              (* a field loses the focus *)
| Types (field : nat) (text : string)              (* an edit leaves [text] in a field *)
| Passes (ms : Z).                                 (* time goes by *)

(** The listeners bound by [initFormHandling], [initRealTimeValidation],
    [trackScrollDepth] and the observers. *)
Definition react (h : happening) : M unit :=
  match h with
  | Submits form => _ <- handleFormSubmissionStart form ;; ret tt
  | Fires i => fire i
  | Crosses o t inwards => crossing o t inwards
  | Scrolls scrollY scrollHeight innerHeight => onScroll scrollY scrollHeight innerHeight
  | Blurs field => _ <- validateField field ;; ret tt
  | Types field text =>
      modifyPage (update field (setCurrentValue text)) ;;
      clearFieldError field
  | Passes ms => modify (fun st => setNow (now st + ms)%Z st)
  end.

(** A visit: the page reacts to each happening in turn. *)
Definition visit (hs : list happening) : M unit := forEach hs react.

(** A whole submission: the wake-up of the transport is the next callback
    to run. *)
Definition handleFormSubmission (form : nat) : M unit :=
  call <- handleFormSubmissionStart form ;;
  match call with
  | None => ret tt
  | Some _ =>
      n <- gets (fun st => List.length (timers st)) ;;
      fire (n - 1)
  end.

(* ================================================================== *)
(** ** Runs and observations *)

(** A page view in which the scroll listener sees the positions [ys] in
    turn. *)
Definition scrollThrough (ys : list Z) (scrollHeight innerHeight : Z) : M unit :=
  forEach ys (fun y => onScroll y scrollHeight innerHeight).

Fixpoint get (key : string) (data : payload) : option jsvalue :=
  match data with
  | [] => None
  | (k, v) :: r => if String.eqb key k then Some v else get key r
  end.

Definition named (name : string) (e : EngagementEvent) : bool := String.eqb (event e) name.

(** The depths of the [scroll_depth] events of a history, oldest first. *)
Definition recordedDepths (h : list EngagementEvent) : list jsnum :=
  flat_map (fun e => match get "depth" (data e) with
                     | Some (VNum n) => [n]
                     | _ => []
                     end)
    (filter (named "scroll_depth") h).

(** The events a run has added to the history. *)
Definition added (before after : App) : list EngagementEvent :=
  skipn (List.length (eventHistory before)) (eventHistory after).

(** The key under which a section is reported. *)
Definition sectionKey (e : element) : string :=
  if JsString.truthy (idOf e) then idOf e else className e.

(** The observer [o] sees the listed crossings, one notification each. *)
Definition crossings (o : nat) (l : list (nat * bool)) : M unit :=
  forEach l (fun c => crossing o (fst c) (snd c)).

(** The one-shot callbacks and the event each of them records. *)
Definition oneShot (cb : callback) : bool :=
  match cb with
  | SectionView => false
  | ServiceInterest _ | BusinessGoal _ => true
  end.

Definition oneShotEvent (cb : callback) (st : App) : EngagementEvent :=
  match cb with
  | ServiceInterest card =>
      mkEvent "service_interest"
        [("service", VStr (eval (getServiceType card) st)); ("action", VStr "view")]
        (now st)
  | BusinessGoal sectionId =>
      mkEvent "business_goal" [("goal", VStr ("view_" ++ sectionId)%string)] (now st)
  | SectionView => mkEvent "section_view" [] (now st)
  end.

(** The element [t] crosses inwards somewhere in the list. *)
Definition crossesInwards (t : nat) (l : list (nat * bool)) : bool :=
  existsb (fun c => (fst c =? t) && snd c) l.

(** The outcome of [validateField] on every input, as the loop of
    [validateForm] obtains them. *)
Fixpoint validationOutcomes (inputs : list element) : M (list (nat * bool)) :=
  match inputs with
  | [] => ret []
  | input :: rest =>
      ok <- validateField (uid input) ;;
      outcomes <- validationOutcomes rest ;;
      ret ((uid input, ok) :: outcomes)
  end.

Definition fieldsOf (form : nat) (d : document) : list element :=
  querySelectorAll fieldSelector (El form) d.

Definition outcomesOf (form : nat) (st : App) : list (nat * bool) :=
  eval (validationOutcomes (fieldsOf form (page st))) st.

(** The decision taken by [validateField], apart from its effects: the
    message it shows, if any. *)
Definition verdict (f : element) : option string :=
  let value := JsString.trim (value f) in
  if hasAttribute "required" f && negb (JsString.truthy value) then
    Some "This field is required"
  else if JsString.truthy value then
    if String.eqb (typeOf f) "email" then
      if negb (RegExp.test SECURITY.email value)
      then Some "Please enter a valid email address" else None
    else if String.eqb (typeOf f) "tel" then
      if negb (RegExp.test SECURITY.phone value)
      then Some "Please enter a valid phone number" else None
    else if String.eqb (typeOf f) "text" then
      if String.eqb (nameOf f) "name" && negb (RegExp.test SECURITY.name value)
      then Some "Please enter a valid name (2-50 characters)" else None
    else None
  else None.

(** The kinds of field that have a pattern, in the words of the
    specification: e-mail, phone and name, each with its pattern and its
    failure message. *)
Definition declaredKind (f : element) : option (RegExp.regex * string) :=
  if String.eqb (typeOf f) "email" then
    Some (SECURITY.email, "Please enter a valid email address")
  else if String.eqb (typeOf f) "tel" then
    Some (SECURITY.phone, "Please enter a valid phone number")
  else if String.eqb (typeOf f) "text" && String.eqb (nameOf f) "name" then
    Some (SECURITY.name, "Please enter a valid name (2-50 characters)")
  else None.

(** At least one field of the form fails validation. *)
Definition someFieldFails (form : nat) (st : App) : Prop :=
  exists field, In (field, false) (outcomesOf form st).

(** Every field of the form passes validation. *)
Definition allFieldsPass (form : nat) (st : App) : Prop :=
  forall field ok, In (field, ok) (outcomesOf form st) -> ok = true.

(** An event by which the pipeline reports a failed submission: the error
    event itself or the display of an error message. *)
Definition reportsFailure (e : EngagementEvent) : bool :=
  named "form_submission_error" e ||
  (named "message_display" e &&
   match get "type" (data e) with
   | Some (VStr "error") => true
   | _ => false
   end).

(** The wake-ups of the transport among the waiting callbacks. *)
Definition isSend (t : timer) : bool :=
  match action t with SettleSubmission _ _ _ => true | _ => false end.

Definition pendingSends (st : App) : list timer := filter isSend (timers st).

(** The message elements of the page. *)
Definition messages (d : document) : list element :=
  querySelectorAll (ByClass "message") Body d.

(** The error displays of the page. *)
Definition fieldErrors (d : document) : list element :=
  querySelectorAll (ByClass "field-error") Body d.

(** Element identities are distinct and older than the next one created. *)
Definition distinctUids (d : document) : Prop := NoDup (map uid d).

Definition wellFormed (st : App) : Prop :=
  distinctUids (page st) /\ Forall (fun u => u < nextUid st) (map uid (page st)).

(** What the pipeline is said to do in situations where it does otherwise. *)

(** Crossing again changes nothing and records nothing. *)
Definition laterCrossingIsNoOp (o t : nat) (st : App) : Prop :=
  let first := exec (crossing o t true) st in
  eventHistory (exec (crossing o t true) first) = eventHistory first.

(** After a submission every field of the form is empty. *)
Definition fieldsEmptyAfterSubmission (form : nat) (st : App) : Prop :=
  Forall (fun f => value f = EmptyString)
    (fieldsOf form (page (exec (handleFormSubmission form) st))).

(** No submission ever reports a failure. *)
Definition errorBranchUnreachable : Prop :=
  forall form st,
    Forall (fun e => reportsFailure e = false)
      (added st (exec (handleFormSubmission form) st)).

(** The entries of a notification that report the element [t] as
    intersecting. *)
Definition reported (t : nat) (entries : list entry) : list entry :=
  filter (fun e => isIntersecting e && (target e =? t)) entries.

(** *** The pages the statements about whole submissions speak of

    [ordinary] gathers what these statements take for granted of a page;
    on such a page the definitions above do what the browser does. *)

(** The members a submission reads on the form, on the parent of a field,
    on an element it removes, on the document and on the window, [reset]
    apart.  A form looks a name up among its controls before its own
    members, a document among its named elements, and the window falls back
    on the element with that id; the definitions above give each of these
    members its built-in meaning. *)
Definition membersRead : list string :=
  ["classList"; "closest"; "querySelectorAll"; "querySelector"; "appendChild";
   "remove"; "createElement"; "body"; "gtag"].

(** No element of the page has one of these names, as its name or as its
    id. *)
Definition builtIns (d : document) : bool :=
  forallb (fun e => negb (JsString.mem (idOf e) membersRead ||
                          JsString.mem (nameOf e) membersRead)) d.

(** The submit button of the form holds text only, so that assigning its
    [textContent] removes no element from the page. *)
Definition plainSubmitButton (form : nat) (d : document) : bool :=
  match querySelector (ByTagAttr "button" "type" "submit") (El form) d with
  | Some submitButton =>
      match descendantsOf (uid submitButton) d with
      | [] => true
      | _ :: _ => false
      end
  | None => true
  end.

(** The form is on the page, and is no message nor part of one:
    [removeExistingMessages] leaves it on the page. *)
Definition formStays (form : nat) (d : document) : bool :=
  match lookup form d, closest (ByClass "message") form d with
  | Some _, None => true
  | _, _ => false
  end.

(** A control belongs to the form it lies in: no element of the page names
    a form owner of its own, and no form lies in the form. *)
Definition ownedByNesting (form : nat) (d : document) : bool :=
  forallb (fun e => negb (hasAttribute "form" e)) d &&
  forallb (fun e => negb (String.eqb (localName e) "form")) (descendantsOf form d).

(** The fields of the form are controls whose value a reset sets to the
    default value: none is a check box, a radio button, or a file, range or
    colour control. *)
Definition resettable (form : nat) (d : document) : bool :=
  forallb (fun e => negb (JsString.mem (typeOf e)
                            ["checkbox"; "radio"; "file"; "range"; "color"]))
    (querySelectorAll fieldSelector (El form) d).

Definition ordinary (form : nat) (d : document) : bool :=
  builtIns d && plainSubmitButton form d && formStays form d &&
  ownedByNesting form d && resettable form d.

(** An event without its time stamp. *)
Definition described (e : EngagementEvent) : string * payload := (event e, data e).

(** The page on which the submission of a form that validates comes to
    [form.reset()]. *)
Definition pageAtReset (form : nat) (st : App) : document :=
  page (exec (showFormSuccess form (eval (getFormType form) st))
          (exec (showFormLoading form) (exec (validateForm form) st))).

(** Every field of [d'] is on [d] with the value it has: no field of [d']
    has been given another value. *)
Definition valuesFrom (d d' : document) : Prop :=
  forall f, In f d' -> matchesSelector fieldSelector f = true ->
    exists f0,
      In f0 d /\ uid f0 = uid f /\ value f0 = value f /\ localName f0 = localName f.

(** *** The value a control holds *)

Definition isNewline (c : ascii) : bool :=
  let n := JsString.code c in (n =? 10) || (n =? 13).

Fixpoint stripNewlines (s : string) : string :=
  match s with
  | EmptyString => EmptyString
  | String c r => if isNewline c then stripNewlines r else String c (stripNewlines r)
  end.

Fixpoint stripStart (s : string) : string :=
  match s with
  | EmptyString => EmptyString
  | String c r => if JsString.isAsciiSpace c then stripStart r else s
  end.

Fixpoint stripEnd (s : string) : string :=
  match s with
  | EmptyString => EmptyString
  | String c r =>
      match stripEnd r with
      | EmptyString => if JsString.isAsciiSpace c then EmptyString else String c EmptyString
      | r' => String c r'
      end
  end.

(** The value sanitization algorithm of an [input], by the state of its
    [type]: the text-like states drop line breaks, the e-mail state (of a
    control for one address) and the URL state also drop ASCII white space
    at both ends.  The states that accept well-formed values only (dates,
    numbers, colours) are not described here, and a [textarea] keeps its
    text. *)
Definition valueSanitization (type : string) (v : string) : string :=
  if JsString.mem type ["email"; "url"]
  then stripEnd (stripStart (stripNewlines v))
  else if JsString.mem type ["text"; "search"; "tel"; "password"]
  then stripNewlines v
  else v.

(** *** A sample page *)

Module Sample.

Definition elt (u k : nat) (tag : string) (cls : list string)
  (attrs : list (string * string)) (text v : string) : element :=
  mkElement u k tag cls attrs text v EmptyString false.

(** A hero section with the e-mail capture form, a services section with
    two cards, and the contact section with its form. *)
Definition page0 : document :=
  [ elt 1 0 "section" ["hero"] [("id", "hero")] "" "";
    elt 2 1 "form" ["email-form"] [] "" "";
    elt 3 2 "input" ["email-input"]
      [("type", "email"); ("required", ""); ("name", "email")] "" "";
    elt 4 2 "button" ["email-submit"] [("type", "submit")] "Get Early Access" "";
    elt 5 0 "section" ["services"] [("id", "services")] "" "";
    elt 6 1 "div" ["service-card"; "healthcare"] [] "" "";
    elt 7 1 "div" ["service-card"; "healthcare"] [] "" "";
    elt 8 0 "section" ["contact"] [("id", "contact")] "" "";
    elt 9 1 "form" ["contact-form"] [] "" "";
    elt 10 2 "input" [] [("type", "text"); ("required", ""); ("name", "name")] "" "";
    elt 11 2 "input" [] [("type", "email"); ("required", ""); ("name", "email")] "" "";
    elt 12 2 "textarea" [] [("name", "message")] "" "";
    elt 13 2 "button" [] [("type", "submit")] "Send Message" "";
    elt 14 0 "section" ["footer-note"] [] "" "" ].

Definition app0 : App := mkApp page0 100 0%Z [] None [] (Num 0) [].

(** The visitor types [text] into a field, which keeps what its state
    admits of it. *)
Definition typeInto (field : nat) (text : string) (st : App) : App :=
  setPage (update field
             (fun f => setCurrentValue (valueSanitization (typeOf f) text) f)
             (page st)) st.

(** The visitor has typed an address into the e-mail capture form. *)
Definition appEmail : App := typeInto 3 "a@b.co" app0.

(** The same after [initFormHandling] has protected the form. *)
Definition appEmailProtected : App := exec (addCSRFProtection "k3x9" 2) appEmail.

(** The observers are in place. *)
Definition appObserved : App :=
  exec (_ <- initScrollAnimations ;; trackServiceInterest ;; trackBusinessGoals) app0.

(** A form with a reset button named [reset], its address filled in. *)
Definition pageNamedReset : document :=
  [ elt 1 0 "form" ["contact-form"] [] "" "";
    elt 2 1 "input" [] [("type", "email"); ("name", "email")] "" "a@b.co";
    elt 3 1 "input" [] [("type", "reset"); ("name", "reset")] "" "";
    elt 4 1 "button" [] [("type", "submit")] "Send Message" "" ].

Definition appNamedReset : App := mkApp pageNamedReset 100 0%Z [] None [] (Num 0) [].

End Sample.

(** A change of elements that keeps their place in the tree and their tag. *)
Definition keepsShape (g : element -> element) : Prop :=
  forall e, uid (g e) = uid e /\ depth (g e) = depth e /\ localName (g e) = localName e.

(** [resetControl] on the elements whose identity is listed. *)
Definition resetAmong (us : list nat) (e : element) : element :=
  if existsb (Nat.eqb (uid e)) us then resetControl e else e.

(** The page after removing the listed elements in turn. *)
Definition removeAll (us : list nat) (d : document) : document :=
  fold_left (fun d u => removeNode u d) us d.

(** The largest depth the tracker can have reached: what [maxScroll]
    dominates. *)
Definition reaches (z : Z) (m : jsnum) : Prop :=
  match m with
  | Num x => (z <= x)%Z
  | PosInf => True
  | _ => False
  end.

(** The recorded depths are those of a tracker whose running maximum is
    [m]: positive multiples of 25, strictly increasing, none above [m]. *)
Definition orderlyDepths (m : jsnum) (depths : list jsnum) : Prop :=
  exists zs,
    depths = map Num zs /\
    StronglySorted Z.lt zs /\
    Forall (fun z => (0 < z)%Z /\ Z.rem z 25 = 0%Z /\ reaches z m) zs.

(** The text of the element [u], when it is on the page. *)
Definition textOf (u : nat) (st : App) : option string :=
  option_map textContent (lookup u (page st)).

(** The character [c] occurs in [s]. *)
Fixpoint occurs (c : ascii) (s : string) : Prop :=
  match s with
  | EmptyString => False
  | String x r => x = c \/ occurs c r
  end.

(** A change of an element that keeps its identity and whether it is a
    message. *)
Definition keepsKind (f : element -> element) : Prop :=
  forall e, uid (f e) = uid e /\
            contains "message" (f e) = contains "message" e.

(** The page is well formed and shows at most one message. *)
Definition orderly (st : App) : Prop :=
  wellFormed st /\ List.length (messages (page st)) <= 1.

(** A computation that keeps the page well formed and adds no message. *)
Definition tidy {A : Type} (m : M A) : Prop :=
  forall st, wellFormed st ->
    wellFormed (snd (m st)) /\
    List.length (messages (page (snd (m st)))) <= List.length (messages (page st)).

(** A computation that keeps the page orderly. *)
Definition keepsOrder {A : Type} (m : M A) : Prop :=
  forall st, orderly st -> orderly (snd (m st)).

(** *** Frames *)

(** Everything but the page and the identity counter is as before. *)
Definition steady (st st' : App) : Prop :=
  now st' = now st /\ eventHistory st' = eventHistory st /\ gtag st' = gtag st /\
  timers st' = timers st /\ maxScroll st' = maxScroll st /\
  observers st' = observers st.

(** A computation that touches the page only. *)
Definition pageOnly {A : Type} (m : M A) : Prop := forall st, steady st (snd (m st)).

(** A computation that records no event and leaves the clock alone. *)
Definition quiet {A : Type} (m : M A) : Prop :=
  forall st, eventHistory (snd (m st)) = eventHistory st /\ now (snd (m st)) = now st.

(** A computation that leaves the page and the identity counter alone. *)
Definition keepsPage {A : Type} (m : M A) : Prop :=
  forall st, page (snd (m st)) = page st /\ nextUid (snd (m st)) = nextUid st.

(** A computation that only reads. *)
Definition readOnly {A : Type} (m : M A) : Prop := forall st, snd (m st) = st.

(* ================================================================== *)
(** ** More of the script *)

(** *** Strings by their characters *)

Fixpoint allChars (p : ascii -> bool) (s : string) : bool :=
  match s with
  | EmptyString => true
  | String c r => p c && allChars p r
  end.

Fixpoint countChar (c : ascii) (s : string) : nat :=
  match s with
  | EmptyString => 0
  | String x r => (if Ascii.eqb x c then 1 else 0) + countChar c r
  end.

(** The characters [sanitizeInput] copies as they are. *)
Definition plainChar (c : ascii) : bool :=
  negb (Ascii.eqb c "&" || Ascii.eqb c "<" || Ascii.eqb c ">" ||
        (JsString.code c =? 160)).

Definition notWhiteSpace (c : ascii) : bool := negb (JsString.isWhiteSpace c).

(** *** The older script

    The file ends with an earlier version of the site script, made of free
    functions. *)

(** [isValidEmail(email)]: the same pattern as [SECURITY.patterns.email],
    written out again. *)
Definition isValidEmail (email : string) : bool :=
  RegExp.test
    (RegExp.Seq (RegExp.Plus (RegExp.Class SECURITY.notSpaceNorAt))
       (RegExp.Seq (RegExp.Class (RegExp.isChar "@"))
          (RegExp.Seq (RegExp.Plus (RegExp.Class SECURITY.notSpaceNorAt))
             (RegExp.Seq (RegExp.Class (RegExp.isChar "."))
                (RegExp.Plus (RegExp.Class SECURITY.notSpaceNorAt))))))
    email.

(** *** Service cards *)

(** [initServiceCards()]; [enhanceServiceCard] only binds listeners. *)
Definition initServiceCards : M unit :=
  d <- gets page ;;
  let serviceCards := querySelectorAll (ByClass "service-card") Body d in
  forEach serviceCards (fun card =>
    serviceType <- getServiceType (uid card) ;;
    trackEvent "service_view" [("service", VStr serviceType)]).

(** *** The conversion funnel *)

(** [trackConversionFunnel()]: the forms it binds a [submit] listener to,
    each with the stage its listener reports. *)
Definition trackConversionFunnel : M (list (nat * string)) :=
  d <- gets page ;;
  let early :=
    match querySelector (ByClass "email-form") Body d with
    | Some earlyAccessForm => [(uid earlyAccessForm, "early_access_signup")]
    | None => []
    end in
  let contact :=
    match querySelector (ByClass "contact-form") Body d with
    | Some contactForm => [(uid contactForm, "contact_form_submission")]
    | None => []
    end in
  ret (early ++ contact).

(** The funnel listeners bound to [form]. *)
Definition funnelListeners (funnel : list (nat * string)) (form : nat) : M unit :=
  forEach (filter (fun l => fst l =? form) funnel) (fun l =>
    trackEvent "conversion_funnel" [("stage", VStr (snd l))]).

(** A [submit] event on [form]: its listeners run in the order they were
    bound, that of [initFormHandling] first (up to its [await]), then those
    of [trackConversionFunnel]. *)
Definition onSubmit (funnel : list (nat * string)) (form : nat) : M unit :=
  _ <- handleFormSubmissionStart form ;;
  funnelListeners funnel form.

(** *** Leaving the page *)

(** [Math.round(ms / 1000)] for a whole number of milliseconds. *)
Definition roundSeconds (ms : Z) : Z := ((ms + 500) / 1000)%Z.

(** [trackTimeOnPage()]: the start time its listener captures. *)
Definition trackTimeOnPage : M Z := gets now.

(** A [beforeunload] event: the listener bound when the script is loaded,
    then the one bound by [trackTimeOnPage]. *)
Definition onBeforeUnload (startTime : Z) : M unit :=
  trackEvent "page_exit" [] ;;
  t <- gets now ;;
  let timeOnPage := roundSeconds (t - startTime) in
  trackEvent "time_on_page" [("seconds", VNum (Num timeOnPage))].

(** The time that goes by during a visit. *)
Definition elapsed (hs : list happening) : Z :=
  fold_right (fun h acc => match h with Passes ms => (ms + acc)%Z | _ => acc end) 0%Z hs.

(** The call [window.gtag] receives for an event. *)
Definition gtagCall (e : EngagementEvent) : string * payload := (event e, data e).

(** *** Accessibility *)

(** The [skipLink] of [addSkipToContentLink], built from a fresh [a]. *)
Definition skipLinkElement (a : element) : element :=
  setTextContent "Skip to main content"
    (assignClassName "skip-link" (setAttribute "href" "#main" a)).

(** [addSkipToContentLink()]: the link becomes the first child of [body]. *)
Definition addSkipToContentLink : M unit :=
  a <- createElement "a" ;;
  let skipLink := skipLinkElement a in
  modifyPage (fun d => setDepth 0 skipLink :: d).

(** The body of the loop of [initKeyboardNavigation]. *)
Definition focusable (card : element) : element :=
  setAttribute "role" "button" (setAttribute "tabindex" "0" card).

(** [initKeyboardNavigation()]; the key listener clicks the card on Enter
    and on the space bar. *)
Definition initKeyboardNavigation : M unit :=
  d <- gets page ;;
  let serviceCards := querySelectorAll (ByClass "service-card") Body d in
  forEach serviceCards (fun card => modifyPage (update (uid card) focusable)).

(** The body of the loop of [enhanceARIA]. *)
Definition labelButton (button : element) : element :=
  match getAttribute "aria-label" button with
  | Some l =>
      if JsString.truthy l then button
      else setAttribute "aria-label" (JsString.trim (textContent button)) button
  | None => setAttribute "aria-label" (JsString.trim (textContent button)) button
  end.

(** What [enhanceARIA] does to the [main] element. *)
Definition landmark (main : element) : element :=
  setAttribute "id" "main" (setAttribute "role" "main" main).

(** [enhanceARIA()] *)
Definition enhanceARIA : M unit :=
  d <- gets page ;;
  let buttons := querySelectorAll (ByTag "button") Body d in
  forEach buttons (fun button => modifyPage (update (uid button) labelButton)) ;;
  d <- gets page ;;
  match querySelector (ByTag "main") Body d with
  | Some main => modifyPage (update (uid main) landmark)
  | None => ret tt
  end.

(** [initAccessibility()]; [initFocusManagement] only binds a listener. *)
Definition initAccessibility : M unit :=
  addSkipToContentLink ;;
  initKeyboardNavigation ;;
  enhanceARIA.

(** [f] on the elements whose identity is listed. *)
Definition among (us : list nat) (f : element -> element) (e : element) : element :=
  if existsb (Nat.eqb (uid e)) us then f e else e.

(** The label of a button once [enhanceARIA] has run: the one it had, or
    else its text. *)
Definition ariaLabel (button : element) : string :=
  match getAttribute "aria-label" button with
  | Some l => if JsString.truthy l then l else JsString.trim (textContent button)
  | None => JsString.trim (textContent button)
  end.

(** A change of an element that touches its attributes only, and none of
    the listed ones. *)
Definition attributesBut (keys : list string) (g : element -> element) : Prop :=
  forall e,
    (exists l, g e = setAttributes l e) /\
    (forall k, In k keys -> getAttribute k (g e) = getAttribute k e).

(** The page once [initAccessibility] has run on the page [d], [link]
    being the fresh element of the skip link. *)
Definition accessiblePage (link : element) (d : document) : document :=
  let d0 := setDepth 0 (skipLinkElement link) :: d in
  let cards := querySelectorAll (ByClass "service-card") Body d0 in
  let d1 := map (among (map uid cards) focusable) d0 in
  let buttons := querySelectorAll (ByTag "button") Body d1 in
  let d2 := map (among (map uid buttons) labelButton) d1 in
  match querySelector (ByTag "main") Body d2 with
  | Some main => update (uid main) landmark d2
  | None => d2
  end.

(** *** Cleaning up *)

(** [observer.disconnect()] *)
Definition disconnect (o : nat) : M unit :=
  modify (fun st => setObservers
    (atRank o (fun ob => mkObserver (onEntries ob) []) (observers st)) st).

(** [destroy()], as far as the observers go; [stored] is [this.observers],
    which holds the section observer once [initScrollAnimations] has run.
    The listeners it removes are [handleScroll] and [handleResize]. *)
Definition destroy (stored : list nat) : M unit := forEach stored disconnect.

(** [initAnalytics] and [initCore] as far as they set observers up. *)
Definition setUpObservers : M nat :=
  sectionObserver <- initScrollAnimations ;;
  trackServiceInterest ;;
  trackBusinessGoals ;;
  ret sectionObserver.

(** *** Debounced functions *)

Module Debounce.
Section Debounce.

(** The arguments of a call and the delay given to [debounce]. *)
Variable A : Type.
Variable wait : Z.

(** A timer set by the debounced function. *)
Record pending : Type := mkPending {
  handle : nat;
  after : Z;
  args : A
}.

Record state : Type := mkState {
  nextHandle : nat;         (* the handle the next [setTimeout] returns *)
  waiting : list pending;   (* timers set, neither run nor cleared *)
  timeout : option nat;     (* the captured variable, [None] while undefined *)
  calls : list A            (* the calls of [func] so far *)
}.

(** [debounce(func, wait)]: nothing is waiting. *)
Definition debounce (firstHandle : nat) : state := mkState firstHandle [] None [].

(** [clearTimeout(h)] *)
Definition clearTimeout (h : option nat) (l : list pending) : list pending :=
  match h with
  | Some n => filter (fun t => negb (handle t =? n)) l
  | None => l
  end.

(** [executedFunction(...args)] *)
Definition executedFunction (a : A) (s : state) : state :=
  let live := clearTimeout (timeout s) (waiting s) in
  mkState (S (nextHandle s))
    (live ++ [mkPending (nextHandle s) wait a])
    (Some (nextHandle s))
    (calls s).

(** The timer [h] runs [later]. *)
Definition later (h : nat) (s : state) : state :=
  match find (fun t => handle t =? h) (waiting s) with
  | Some t =>
      let rest := filter (fun t => negb (handle t =? h)) (waiting s) in
      mkState (nextHandle s) (clearTimeout (timeout s) rest) (timeout s)
        (calls s ++ [args t])
  | None => s
  end.

Inductive step : Type :=
| Call (a : A)
| Run (h : nat).

Definition react (e : step) (s : state) : state :=
  match e with
  | Call a => executedFunction a s
  | Run h => later h s
  end.

Definition run (trace : list step) (s : state) : state :=
  fold_left (fun s e => react e s) trace s.

(** The arguments of the most recent call. *)
Definition lastCall (trace : list step) : option A :=
  fold_left (fun acc e => match e with Call a => Some a | Run _ => acc end) trace None.

(** At most one timer is waiting, the one [timeout] names, with the
    arguments [last]. *)
Definition single (s : state) (last : option A) : Prop :=
  waiting s = [] \/
  exists h a, waiting s = [mkPending h wait a] /\ timeout s = Some h /\ last = Some a.

(** What has run or is waiting comes from a call of the trace. *)
Definition called (trace : list step) (s : state) : Prop :=
  Forall (fun a => In (Call a) trace) (calls s) /\
  Forall (fun p => In (Call (args p)) trace) (waiting s).

End Debounce.
End Debounce.

(** *** The event log *)

(** From [st] to [st'] the clock has not moved, the log has only grown, by
    events stamped with that time, and the analytics hook, when there is
    one, has received the new events in order. *)
Definition recorded (st st' : App) : Prop :=
  now st' = now st /\
  exists evs,
    eventHistory st' = eventHistory st ++ evs /\
    gtag st' = option_map (fun calls => calls ++ map gtagCall evs) (gtag st) /\
    Forall (fun e => timestamp e = now st) evs.

Definition recorder {A : Type} (m : M A) : Prop := forall st, recorded st (snd (m st)).

(** Time does not go backwards during the visit. *)
Definition clockAdvances (hs : list happening) : Prop :=
  forall ms, In (Passes ms) hs -> (0 <= ms)%Z.

(** The last value listed for [key]. *)
Definition lastValue (key : string) (formData : list (string * string)) : option string :=
  assoc key (rev formData).

(** *** Marks of a field *)

(** What [clearFieldError] does to the field. *)
Definition unmarkField (f : element) : element :=
  removeAttribute "aria-describedby"
    (removeAttribute "aria-invalid" (classRemove "error" f)).

(** What [showFieldError] does to the field; the error display has no
    [id], so the field is described by [error]. *)
Definition markField (f : element) : element :=
  setAttribute "aria-describedby" "error"
    (setAttribute "aria-invalid" "true" (classAdd ["error"] f)).

(** The [errorDiv] of [showFieldError], built from a fresh [div]. *)
Definition errorElement (message : string) (div : element) : element :=
  setAttribute "aria-live" "polite"
    (setAttribute "role" "alert"
       (setTextContent (SECURITY.sanitizeInput message)
          (assignClassName "field-error" div))).

Arguments Debounce.mkPending {A}.
Arguments Debounce.handle {A}.
Arguments Debounce.after {A}.
Arguments Debounce.args {A}.
Arguments Debounce.mkState {A}.
Arguments Debounce.nextHandle {A}.
Arguments Debounce.waiting {A}.
Arguments Debounce.timeout {A}.
Arguments Debounce.calls {A}.
Arguments Debounce.debounce {A}.
Arguments Debounce.clearTimeout {A}.
Arguments Debounce.executedFunction {A}.
Arguments Debounce.later {A}.
Arguments Debounce.Call {A}.
Arguments Debounce.Run {A}.
Arguments Debounce.react {A}.
Arguments Debounce.run {A}.
Arguments Debounce.lastCall {A}.
Arguments Debounce.single {A}.
Arguments Debounce.called {A}.

(* ================================================================== *)
(** * Properties *)

(** ** State transformers *)

Lemma run_bind {A B : Type} (m : M A) (k : A -> M B) (st : App) :
  bind m k st = k (fst (m st)) (snd (m st)).
Proof. unfold bind. destruct (m st); reflexivity. Qed.

Lemma exec_bind {A B : Type} (m : M A) (k : A -> M B) (st : App) :
  exec (bind m k) st = exec (k (eval m st)) (exec m st).
Proof. unfold exec, eval. rewrite run_bind. reflexivity. Qed.

Lemma eval_bind {A B : Type} (m : M A) (k : A -> M B) (st : App) :
  eval (bind m k) st = eval (k (eval m st)) (exec m st).
Proof. unfold exec, eval. rewrite run_bind. reflexivity. Qed.

Lemma steady_refl (st : App) : steady st st.
Proof. repeat split. Qed.

Lemma steady_trans (a b c : App) : steady a b -> steady b c -> steady a c.
Proof.
  unfold steady. intros (?&?&?&?&?&?) (?&?&?&?&?&?).
  repeat split; congruence.
Qed.

Lemma pageOnly_ret {A : Type} (a : A) : pageOnly (ret a).
Proof. intro st. apply steady_refl. Qed.

Lemma pageOnly_bind {A B : Type} (m : M A) (k : A -> M B) :
  pageOnly m -> (forall a, pageOnly (k a)) -> pageOnly (bind m k).
Proof.
  intros Hm Hk st. rewrite run_bind.
  eapply steady_trans; [apply Hm | apply Hk].
Qed.

Lemma pageOnly_gets {A : Type} (f : App -> A) : pageOnly (gets f).
Proof. intro st. apply steady_refl. Qed.

Lemma pageOnly_modifyPage (f : document -> document) : pageOnly (modifyPage f).
Proof. intro st. repeat split. Qed.

Lemma pageOnly_deref (u : nat) : pageOnly (deref u).
Proof. apply pageOnly_gets. Qed.

Lemma pageOnly_createElement (tag : string) : pageOnly (createElement tag).
Proof. intro st. repeat split. Qed.

Lemma pageOnly_forEach {A : Type} (l : list A) (f : A -> M unit) :
  (forall x, pageOnly (f x)) -> pageOnly (forEach l f).
Proof.
  intro H. induction l as [|x r IH]; simpl.
  - apply pageOnly_ret.
  - apply pageOnly_bind; auto.
Qed.

Create HintDb frame.

#[export] Hint Resolve pageOnly_ret pageOnly_gets pageOnly_modifyPage pageOnly_deref
  pageOnly_createElement : frame.

(** Splits a computation along its sequencing and its branches. *)
Ltac frame :=
  repeat first
    [ progress auto with frame
    | apply pageOnly_bind; [ | intro ]
    | apply pageOnly_forEach; intro
    | match goal with
      | |- pageOnly (if ?b then _ else _) => destruct b
      | |- pageOnly (match ?x with _ => _ end) => destruct x
      end ].

Lemma pageOnly_clearFieldError (field : nat) : pageOnly (clearFieldError field).
Proof. unfold clearFieldError. frame. Qed.

Lemma pageOnly_showFieldError (field : nat) (message : string) :
  pageOnly (showFieldError field message).
Proof. unfold showFieldError. frame. Qed.

#[export] Hint Resolve pageOnly_clearFieldError pageOnly_showFieldError : frame.

Lemma pageOnly_validateField (field : nat) : pageOnly (validateField field).
Proof. unfold validateField. frame. Qed.

#[export] Hint Resolve pageOnly_validateField : frame.

Lemma pageOnly_validateInputs (inputs : list element) (isValid : bool) :
  pageOnly (validateInputs inputs isValid).
Proof.
  revert isValid. induction inputs as [|i r IH]; intro b; simpl; frame.
Qed.

#[export] Hint Resolve pageOnly_validateInputs : frame.

Lemma pageOnly_validateForm (form : nat) : pageOnly (validateForm form).
Proof. unfold validateForm. frame. Qed.

Lemma pageOnly_showFormLoading (form : nat) : pageOnly (showFormLoading form).
Proof. unfold showFormLoading. frame. Qed.

Lemma pageOnly_hideFormLoading (form : nat) : pageOnly (hideFormLoading form).
Proof. unfold hideFormLoading. frame. Qed.

Lemma pageOnly_reset (form : nat) : pageOnly (reset form).
Proof. unfold reset. frame. Qed.

Lemma pageOnly_removeExistingMessages : pageOnly removeExistingMessages.
Proof. unfold removeExistingMessages. frame. Qed.

Lemma pageOnly_getMessageContainer (type : string) : pageOnly (getMessageContainer type).
Proof. unfold getMessageContainer. frame. Qed.

#[export] Hint Resolve pageOnly_validateForm pageOnly_showFormLoading
  pageOnly_hideFormLoading pageOnly_reset pageOnly_removeExistingMessages
  pageOnly_getMessageContainer : frame.

Lemma readOnly_FormData (form : nat) : readOnly (FormData form).
Proof. intro st. reflexivity. Qed.

Lemma readOnly_getFormType (form : nat) : readOnly (getFormType form).
Proof.
  intro st. unfold getFormType. rewrite !run_bind. simpl.
  destruct (contains _ _); [reflexivity|].
  destruct (closest _ _ _); reflexivity.
Qed.

(** ** The pattern matcher *)

Import RegExp.

Lemma append_is_empty (a b : string) :
  (a ++ b)%string = EmptyString -> a = EmptyString /\ b = EmptyString.
Proof. destruct a; simpl; [auto | discriminate]. Qed.

Lemma Matches_Void (s : string) : ~ Matches Void s.
Proof. inversion 1. Qed.

Lemma Matches_Eps (s : string) : Matches Eps s -> s = EmptyString.
Proof. now inversion 1. Qed.

Lemma Matches_Class (p : ascii -> bool) (s : string) :
  Matches (Class p) s -> exists c, s = String c EmptyString /\ p c = true.
Proof. inversion 1; subst; eauto. Qed.

Lemma Matches_Seq (r1 r2 : regex) (s : string) :
  Matches (Seq r1 r2) s ->
  exists s1 s2, s = (s1 ++ s2)%string /\ Matches r1 s1 /\ Matches r2 s2.
Proof. inversion 1; subst; eauto. Qed.

Lemma Matches_Alt (r1 r2 : regex) (s : string) :
  Matches (Alt r1 r2) s -> Matches r1 s \/ Matches r2 s.
Proof. inversion 1; subst; auto. Qed.

Lemma nullable_Matches (r : regex) : nullable r = true <-> Matches r EmptyString.
Proof.
  induction r as [| |p|r1 IH1 r2 IH2|r1 IH1 r2 IH2|r IH]; simpl.
  - split; [discriminate | intro H; destruct (Matches_Void _ H)].
  - split; [constructor | reflexivity].
  - split; [discriminate|]. intro H. apply Matches_Class in H.
    destruct H as (c & E & _). discriminate.
  - rewrite andb_true_iff, IH1, IH2. split.
    + intros [H1 H2]. apply (MSeq _ _ _ _ H1 H2).
    + intro H. apply Matches_Seq in H. destruct H as (s1 & s2 & E & H1 & H2).
      symmetry in E. apply append_is_empty in E. destruct E as [-> ->]. now split.
  - rewrite orb_true_iff, IH1, IH2. split.
    + intros [H|H]; [now apply MAltL | now apply MAltR].
    + apply Matches_Alt.
  - split; [constructor | reflexivity].
Qed.

(** A non-empty word of [Star r] starts with a non-empty word of [r]. *)
Lemma Matches_Star_cons (r : regex) (c : ascii) (s : string) :
  Matches (Star r) (String c s) ->
  exists s1 s2, s = (s1 ++ s2)%string /\ Matches r (String c s1) /\ Matches (Star r) s2.
Proof.
  intro H. remember (Star r) as R eqn:ER. remember (String c s) as w eqn:Ew.
  revert r c s ER Ew.
  induction H as [| | | | | |r' s1 s2 H1 _ H2 IH2]; intros r0 c0 s0 ER Ew;
    try discriminate.
  injection ER as ->. destruct s1 as [|c1 s1].
  - simpl in Ew. apply (IH2 r0 c0 s0 eq_refl Ew).
  - simpl in Ew. injection Ew as Ec Es. subst c1 s0. exists s1, s2. auto.
Qed.

Lemma deriv_Matches (c : ascii) (r : regex) (s : string) :
  Matches (deriv c r) s <-> Matches r (String c s).
Proof.
  revert s. induction r as [| |p|r1 IH1 r2 IH2|r1 IH1 r2 IH2|r IH]; intro s; simpl.
  - split; intro H; destruct (Matches_Void _ H).
  - split; intro H; [destruct (Matches_Void _ H)|].
    apply Matches_Eps in H. discriminate.
  - destruct (p c) eqn:E; split; intro H.
    + apply Matches_Eps in H. subst s. now constructor.
    + apply Matches_Class in H. destruct H as (x & Ex & _).
      injection Ex as Ec Es. subst x s. constructor.
    + destruct (Matches_Void _ H).
    + apply Matches_Class in H. destruct H as (x & Ex & Hx).
      injection Ex as Ec Es. subst x. congruence.
  - assert (Hseq : Matches (Seq (deriv c r1) r2) s ->
                   Matches (Seq r1 r2) (String c s)).
    { intro H. apply Matches_Seq in H. destruct H as (s1 & s2 & -> & H1 & H2).
      apply IH1 in H1. apply (MSeq _ _ _ _ H1 H2). }
    assert (Hinv : Matches (Seq r1 r2) (String c s) ->
                   Matches (Seq (deriv c r1) r2) s \/
                   (Matches r1 EmptyString /\ Matches (deriv c r2) s)).
    { intro H. apply Matches_Seq in H. destruct H as (s1 & s2 & E & H1 & H2).
      destruct s1 as [|c1 s1]; simpl in E.
      - right. subst s2. split; [exact H1 | now apply IH2].
      - injection E as <- ->. left. apply MSeq; [now apply IH1 | exact H2]. }
    destruct (nullable r1) eqn:N; split.
    + intro H. apply Matches_Alt in H. destruct H as [H|H]; [now apply Hseq|].
      apply nullable_Matches in N. apply IH2 in H.
      apply (MSeq _ _ EmptyString _ N H).
    + intro H. destruct (Hinv H) as [H'|[_ H']]; [now apply MAltL | now apply MAltR].
    + exact Hseq.
    + intro H. destruct (Hinv H) as [H'|[H' _]]; [exact H'|].
      apply nullable_Matches in H'. congruence.
  - split; intro H; apply Matches_Alt in H; destruct H as [H|H].
    + apply MAltL. now apply IH1.
    + apply MAltR. now apply IH2.
    + apply MAltL. now apply IH1.
    + apply MAltR. now apply IH2.
  - split; intro H.
    + apply Matches_Seq in H. destruct H as (s1 & s2 & -> & H1 & H2).
      apply IH in H1. apply (MStarS _ _ _ H1 H2).
    + apply Matches_Star_cons in H.
      destruct H as (s1 & s2 & -> & H1 & H2).
      apply MSeq; [now apply IH | exact H2].
Qed.

(** [test] decides the language of the pattern. *)
Lemma test_Matches (r : regex) (s : string) : test r s = true <-> Matches r s.
Proof.
  revert r. induction s as [|c s IH]; intro r; simpl.
  - apply nullable_Matches.
  - rewrite IH. apply deriv_Matches.
Qed.

Lemma occurs_append (c : ascii) (a b : string) :
  occurs c (a ++ b)%string <-> occurs c a \/ occurs c b.
Proof. induction a as [|x a IH]; simpl; [tauto | rewrite IH; tauto]. Qed.

(** An address without an at-sign is never accepted. *)
Lemma email_needs_at_sign (s : string) :
  test SECURITY.email s = true -> occurs "@" s.
Proof.
  rewrite test_Matches. unfold SECURITY.email. intro H.
  apply Matches_Seq in H. destruct H as (s1 & s2 & -> & _ & H).
  apply Matches_Seq in H. destruct H as (s3 & s4 & -> & H & _).
  apply Matches_Class in H. destruct H as (c & -> & Hc).
  apply occurs_append. right. apply occurs_append. left.
  unfold isChar in Hc. apply Ascii.eqb_eq in Hc. subst c. now left.
Qed.

Example email_accepts : test SECURITY.email "a@b.co" = true.
Proof. reflexivity. Qed.

Example email_rejects : test SECURITY.email "abc" = false.
Proof. reflexivity. Qed.

Example phone_accepts : test SECURITY.phone "+14155550100" = true.
Proof. reflexivity. Qed.

Example phone_rejects_leading_zero : test SECURITY.phone "0123" = false.
Proof. reflexivity. Qed.

Example phone_rejects_seventeen_digits : test SECURITY.phone "12345678901234567" = false.
Proof. reflexivity. Qed.

Example name_accepts : test SECURITY.name "Mary-Ann O'Neil" = true.
Proof. reflexivity. Qed.

Example name_rejects_single_letter : test SECURITY.name "X" = false.
Proof. reflexivity. Qed.

Example trim_both_ends : JsString.trim "  a b  " = "a b".
Proof. reflexivity. Qed.

Example tokens_are_a_set : JsString.tokens "a  b a c" = ["a"; "b"; "c"].
Proof. reflexivity. Qed.

(** ** Validation of one field *)

Lemma truthy_empty (s : string) : JsString.truthy s = false <-> s = EmptyString.
Proof. destruct s; simpl; split; congruence. Qed.

Lemma validateField_run (field : nat) (st : App) :
  validateField field st =
  let cleared := exec (clearFieldError field) st in
  match verdict (eval (deref field) st) with
  | Some message => (false, exec (showFieldError field message) cleared)
  | None => (true, cleared)
  end.
Proof.
  unfold validateField, verdict. rewrite run_bind.
  change (snd (deref field st)) with st.
  change (fst (deref field st)) with (eval (deref field) st).
  rewrite run_bind. cbv zeta.
  change (snd (clearFieldError field st)) with (exec (clearFieldError field) st).
  set (f := eval (deref field) st).
  set (cleared := exec (clearFieldError field) st).
  repeat match goal with
         | |- context [if ?b then _ else _] => destruct b
         end; try rewrite run_bind; reflexivity.
Qed.



(** ** Validation of a whole form *)

Lemma validateInputs_outcomes (inputs : list element) (isValid : bool) (st : App) :
  validateInputs inputs isValid st =
  (isValid && forallb snd (eval (validationOutcomes inputs) st),
   exec (validationOutcomes inputs) st).
Proof.
  revert isValid st. induction inputs as [|i r IH]; intros b st.
  - simpl. unfold ret, eval, exec. simpl. now rewrite andb_true_r.
  - simpl. rewrite run_bind, IH.
    unfold eval, exec. rewrite !run_bind. simpl.
    destruct (fst (validateField (uid i) st)), b; reflexivity.
Qed.

Lemma validateForm_outcomes (form : nat) (st : App) :
  eval (validateForm form) st = forallb snd (outcomesOf form st).
Proof.
  unfold validateForm, outcomesOf, fieldsOf, eval.
  rewrite run_bind. simpl. now rewrite validateInputs_outcomes.
Qed.

Lemma validateForm_false (form : nat) (st : App) :
  someFieldFails form st <-> eval (validateForm form) st = false.
Proof.
  rewrite validateForm_outcomes. unfold someFieldFails. split.
  - intros [f Hf]. destruct (forallb snd (outcomesOf form st)) eqn:E; [|reflexivity].
    rewrite forallb_forall in E. symmetry. apply (E _ Hf).
  - intro E. induction (outcomesOf form st) as [|[f ok] r IH]; [discriminate|].
    simpl in E. destruct ok.
    + destruct (IH E) as [g Hg]. exists g. now right.
    + exists f. now left.
Qed.

Lemma validateForm_true (form : nat) (st : App) :
  allFieldsPass form st <-> eval (validateForm form) st = true.
Proof.
  rewrite validateForm_outcomes, forallb_forall. unfold allFieldsPass. split.
  - intros H [f ok] Hin. simpl. eauto.
  - intros H f ok Hin. apply (H _ Hin).
Qed.

(** C7 at the contact form of the sample page, whose three fields share
    their parent, submitted with the name and the address empty: both fail,
    [validateForm] returns false having validated all three, both keep their
    [error] class, but no error display is left on the page, each one
    having been removed when the next field was validated.  Likewise at the
    protected e-mail capture form with its address empty: the hidden
    [_csrf] field is validated last and takes the only error display away. *)
Theorem validateForm_drops_error_displays :
  (outcomesOf 9 Sample.app0 = [(10, false); (11, false); (12, true)] /\
   eval (validateForm 9) Sample.app0 = false /\
   map uid (querySelectorAll (ByClass "error") (El 9)
              (page (exec (validateForm 9) Sample.app0))) = [10; 11] /\
   fieldErrors (page (exec (validateForm 9) Sample.app0)) = []) /\
  (let protected := exec (addCSRFProtection "k3x9" 2) Sample.app0 in
   outcomesOf 2 protected = [(3, false); (100, true)] /\
   fieldErrors (page (exec (validateForm 2) protected)) = []).
Proof. repeat split; vm_compute; reflexivity. Qed.

(** ** Submissions that fail validation *)

Lemma handleFormSubmissionStart_run (form : nat) (st : App) :
  handleFormSubmissionStart form st =
  let formData := eval (FormData form) st in
  let formType := eval (getFormType form) st in
  let checked := exec (validateForm form) st in
  if eval (validateForm form) st then
    let loading := exec (showFormLoading form) checked in
    let submissionData := eval (prepareSubmissionData formData formType) loading in
    (Some (formType, submissionData),
     exec (submitFormStart form submissionData formType) loading)
  else (None, exec (hideFormLoading form) checked).
Proof.
  unfold handleFormSubmissionStart.
  rewrite run_bind. rewrite readOnly_FormData.
  rewrite run_bind. rewrite readOnly_getFormType.
  rewrite run_bind. unfold eval, exec.
  destruct (fst (validateForm form st)); simpl.
  - rewrite !run_bind. reflexivity.
  - rewrite !run_bind. reflexivity.
Qed.



(** ** What a submission records *)

Lemma pageOnly_quiet {A : Type} (m : M A) : pageOnly m -> quiet m.
Proof. intros H st. destruct (H st) as (?&?&_). now split. Qed.

Lemma quiet_bind {A B : Type} (m : M A) (k : A -> M B) :
  quiet m -> (forall a, quiet (k a)) -> quiet (bind m k).
Proof.
  intros Hm Hk st. rewrite run_bind.
  destruct (Hm st) as [H1 H2].
  destruct (Hk (fst (m st)) (snd (m st))) as [H3 H4].
  split; congruence.
Qed.

Lemma quiet_setTimeout (a : task) (ms : Z) : quiet (setTimeout a ms).
Proof. intro st. now split. Qed.

Lemma quiet_when (b : bool) (m : M unit) : quiet m -> quiet (when b m).
Proof. intro H. destruct b; [exact H | now intro st]. Qed.

Lemma added_app (st st' : App) (evs : list EngagementEvent) :
  eventHistory st' = eventHistory st ++ evs -> added st st' = evs.
Proof.
  intro H. unfold added. rewrite H.
  rewrite skipn_app, skipn_all, Nat.sub_diag. reflexivity.
Qed.

Lemma trackEvent_history (eventName : string) (d : payload) (st : App) :
  eventHistory (exec (trackEvent eventName d) st) =
  eventHistory st ++ [mkEvent eventName d (now st)] /\
  now (exec (trackEvent eventName d) st) = now st /\
  page (exec (trackEvent eventName d) st) = page st /\
  timers (exec (trackEvent eventName d) st) = timers st /\
  observers (exec (trackEvent eventName d) st) = observers st /\
  nextUid (exec (trackEvent eventName d) st) = nextUid st.
Proof.
  unfold trackEvent, exec. rewrite run_bind. simpl.
  destruct (gtag st); simpl; repeat split.
Qed.

(** The event with which [showMessage] reports itself. *)
Lemma showMessage_history (message type : string) (duration : Z) (st : App) :
  eventHistory (exec (showMessage message type duration) st) =
  eventHistory st ++
  [mkEvent "message_display"
     [("type", VStr type); ("message", VStr (JsString.prefix 50 message))] (now st)] /\
  now (exec (showMessage message type duration) st) = now st.
Proof.
  unfold showMessage.
  assert (Hq : forall k : M unit,
    (forall s, eventHistory (exec k s) =
               eventHistory s ++
               [mkEvent "message_display"
                  [("type", VStr type); ("message", VStr (JsString.prefix 50 message))]
                  (now s)] /\ now (exec k s) = now s) ->
    forall (A : Type) (m : M A) s, quiet m ->
      eventHistory (exec (bind m (fun _ => k)) s) =
      eventHistory s ++
      [mkEvent "message_display"
         [("type", VStr type); ("message", VStr (JsString.prefix 50 message))]
         (now s)] /\ now (exec (bind m (fun _ => k)) s) = now s).
  { intros k Hk A m s Hm. rewrite exec_bind.
    destruct (Hm s) as [H1 H2]. destruct (Hk (exec m s)) as [H3 H4].
    unfold exec in *. split; congruence. }
  rewrite exec_bind.
  destruct (pageOnly_quiet _ pageOnly_removeExistingMessages st) as [E1 N1].
  fold (exec removeExistingMessages st) in E1, N1. rewrite <- E1, <- N1.
  generalize (exec removeExistingMessages st). clear st E1 N1. intro st.
  rewrite exec_bind.
  destruct (pageOnly_quiet _ (pageOnly_createElement "div") st) as [E1 N1].
  fold (exec (createElement "div") st) in E1, N1. rewrite <- E1, <- N1.
  generalize (eval (createElement "div") st) (exec (createElement "div") st).
  clear st E1 N1. intros div st.
  rewrite exec_bind.
  destruct (pageOnly_quiet _ (pageOnly_getMessageContainer type) st) as [E1 N1].
  fold (exec (getMessageContainer type) st) in E1, N1. rewrite <- E1, <- N1.
  generalize (eval (getMessageContainer type) st) (exec (getMessageContainer type) st).
  clear st E1 N1. intros container st.
  apply Hq; [|apply pageOnly_quiet, pageOnly_modifyPage]. clear st. intro st.
  apply Hq; [|apply quiet_setTimeout]. clear st. intro st.
  apply Hq; [|apply quiet_when, quiet_setTimeout]. clear st. intro st.
  destruct (trackEvent_history "message_display"
              [("type", VStr type); ("message", VStr (JsString.prefix 50 message))] st)
    as (H1 & H2 & _).
  now split.
Qed.

Lemma formReset_run (form : nat) (st : App) :
  formReset form st =
  if shadowed "reset" form (page st)
  then (Throw "form.reset is not a function", st)
  else (Normal, exec (reset form) st).
Proof.
  unfold formReset. rewrite run_bind. cbn [gets fst snd].
  destruct (shadowed "reset" form (page st)); [reflexivity|].
  rewrite run_bind. reflexivity.
Qed.

Lemma afterAwait_resolved
  (form : nat) (formType : string) (success : bool) (message : string) (st : App) :
  afterAwait form formType (Resolved success message) st =
  formReset form
    (exec (trackEvent "form_submission_success" [("form_type", VStr formType)])
       (exec (showFormSuccess form formType) st)).
Proof. unfold afterAwait. rewrite run_bind, run_bind. reflexivity. Qed.

(** The [catch] block runs on what the [try] block throws, and the
    [finally] block in every case. *)
Lemma handleFormSubmissionSettle_run
  (form : nat) (formType : string) (outcome : settled) (st : App) :
  exec (handleFormSubmissionSettle form formType outcome) st =
  exec (hideFormLoading form)
    (match eval (afterAwait form formType outcome) st with
     | Normal => exec (afterAwait form formType outcome) st
     | Throw message =>
         exec (trackEvent "form_submission_error"
                 [("form_type", VStr formType); ("error", VStr message)])
           (exec (showFormError form message)
              (exec (afterAwait form formType outcome) st))
     end).
Proof.
  unfold handleFormSubmissionSettle, exec at 1, eval. rewrite run_bind, run_bind.
  destruct (fst (afterAwait form formType outcome st)); [reflexivity|].
  rewrite run_bind. reflexivity.
Qed.

Lemma showFormError_history (form : nat) (formType message : string) (st : App) :
  let reported :=
    exec (trackEvent "form_submission_error"
            [("form_type", VStr formType); ("error", VStr message)])
      (exec (showFormError form message) st) in
  eventHistory reported =
    eventHistory st ++
    [mkEvent "message_display"
       [("type", VStr "error"); ("message", VStr (JsString.prefix 50 message))] (now st);
     mkEvent "form_submission_error"
       [("form_type", VStr formType); ("error", VStr message)] (now st)] /\
  now reported = now st.
Proof.
  cbv zeta. unfold showFormError.
  destruct (showMessage_history message "error" CONFIG.MESSAGE_TIMEOUT st) as [E1 N1].
  match goal with
  | |- eventHistory (exec (trackEvent ?n ?d) ?s) = _ /\ _ =>
      destruct (trackEvent_history n d s) as (E2 & N2 & _); rewrite E2, N2
  end.
  rewrite E1, N1, <- app_assoc. split; reflexivity.
Qed.

Lemma hideFormLoading_history (form : nat) (st : App) :
  eventHistory (exec (hideFormLoading form) st) = eventHistory st /\
  now (exec (hideFormLoading form) st) = now st.
Proof.
  destruct (pageOnly_hideFormLoading form st) as (N & E & _). now split.
Qed.

(** What the rest of a submission records once the transport has resolved:
    the success, and the failure of [form.reset()] when the method is
    shadowed. *)
Lemma handleFormSubmissionSettle_resolved
  (form : nat) (formType : string) (success : bool) (message : string) (st : App) :
  let shown := exec (showFormSuccess form formType) st in
  eventHistory (exec (handleFormSubmissionSettle form formType (Resolved success message)) st) =
  eventHistory st ++
  [mkEvent "message_display"
     [("type", VStr "success");
      ("message", VStr (JsString.prefix 50 (successMessage formType)))] (now st);
   mkEvent "form_submission_success" [("form_type", VStr formType)] (now st)] ++
  (if shadowed "reset" form (page shown)
   then [mkEvent "message_display"
           [("type", VStr "error"); ("message", VStr "form.reset is not a function")]
           (now st);
         mkEvent "form_submission_error"
           [("form_type", VStr formType);
            ("error", VStr "form.reset is not a function")] (now st)]
   else []).
Proof.
  cbv zeta.
  destruct (showMessage_history (successMessage formType) "success"
              CONFIG.MESSAGE_TIMEOUT st) as [E1 N1].
  fold (showFormSuccess form formType) in E1, N1.
  set (shown := exec (showFormSuccess form formType) st) in *.
  destruct (trackEvent_history "form_submission_success"
              [("form_type", VStr formType)] shown) as (E2 & N2 & P2 & _).
  set (tracked := exec (trackEvent "form_submission_success"
                          [("form_type", VStr formType)]) shown) in *.
  assert (A : afterAwait form formType (Resolved success message) st =
              formReset form tracked) by apply afterAwait_resolved.
  assert (Ev : eval (afterAwait form formType (Resolved success message)) st =
               fst (formReset form tracked)) by (unfold eval; now rewrite A).
  assert (Ex : exec (afterAwait form formType (Resolved success message)) st =
               snd (formReset form tracked)) by (unfold exec; now rewrite A).
  rewrite handleFormSubmissionSettle_run, Ev, Ex, formReset_run, P2.
  match goal with
  | |- eventHistory (exec (hideFormLoading form) ?s) = _ =>
      destruct (hideFormLoading_history form s) as [E _]; rewrite E; clear E
  end.
  destruct (shadowed "reset" form (page shown)); cbn [fst snd].
  - destruct (showFormError_history form formType "form.reset is not a function" tracked)
      as [E3 _]. cbv zeta in E3.
    rewrite E3, E2, E1, N2, N1, <- !app_assoc. reflexivity.
  - destruct (pageOnly_reset form tracked) as (_ & E3 & _).
    fold (exec (reset form) tracked) in E3.
    rewrite E3, E2, E1, N1, <- !app_assoc. reflexivity.
Qed.

(** The state a submission ends in once the transport has resolved. *)
Lemma handleFormSubmissionSettle_resolved_state
  (form : nat) (formType : string) (success : bool) (message : string) (st : App) :
  let tracked :=
    exec (trackEvent "form_submission_success" [("form_type", VStr formType)])
      (exec (showFormSuccess form formType) st) in
  exec (handleFormSubmissionSettle form formType (Resolved success message)) st =
  exec (hideFormLoading form)
    (if shadowed "reset" form (page (exec (showFormSuccess form formType) st))
     then exec (trackEvent "form_submission_error"
                  [("form_type", VStr formType);
                   ("error", VStr "form.reset is not a function")])
            (exec (showFormError form "form.reset is not a function") tracked)
     else exec (reset form) tracked).
Proof.
  cbv zeta.
  set (shown := exec (showFormSuccess form formType) st).
  destruct (trackEvent_history "form_submission_success"
              [("form_type", VStr formType)] shown) as (_ & _ & P2 & _).
  set (tracked := exec (trackEvent "form_submission_success"
                          [("form_type", VStr formType)]) shown) in *.
  assert (A : afterAwait form formType (Resolved success message) st =
              formReset form tracked) by apply afterAwait_resolved.
  assert (Ev : eval (afterAwait form formType (Resolved success message)) st =
               fst (formReset form tracked)) by (unfold eval; now rewrite A).
  assert (Ex : exec (afterAwait form formType (Resolved success message)) st =
               snd (formReset form tracked)) by (unfold exec; now rewrite A).
  rewrite handleFormSubmissionSettle_run, Ev, Ex, formReset_run, P2.
  destruct (shadowed "reset" form (page shown)); reflexivity.
Qed.

Lemma handleFormSubmissionSettle_rejected
  (form : nat) (formType reason : string) (st : App) :
  eventHistory (exec (handleFormSubmissionSettle form formType (Rejected reason)) st) =
  eventHistory st ++
  [mkEvent "message_display"
     [("type", VStr "error"); ("message", VStr (JsString.prefix 50 reason))] (now st);
   mkEvent "form_submission_error"
     [("form_type", VStr formType); ("error", VStr reason)] (now st)].
Proof.
  rewrite handleFormSubmissionSettle_run.
  change (eval (afterAwait form formType (Rejected reason)) st) with (Throw reason).
  change (exec (afterAwait form formType (Rejected reason)) st) with st.
  cbv iota.
  match goal with
  | |- eventHistory (exec (hideFormLoading form) ?s) = _ =>
      destruct (hideFormLoading_history form s) as [E _]; rewrite E; clear E
  end.
  apply showFormError_history.
Qed.

Lemma setTimers_same (st : App) (x : list timer) :
  setTimers (timers st) (setTimers x st) = st.
Proof. destruct st; reflexivity. Qed.

Lemma dropRank_last {A : Type} (l : list A) (x : A) :
  dropRank (List.length l) (l ++ [x]) = l.
Proof.
  induction l as [|y r IH]; [reflexivity|].
  simpl. now rewrite IH.
Qed.

Lemma nth_error_last {A : Type} (l : list A) (x : A) :
  nth_error (l ++ [x]) (List.length l) = Some x.
Proof.
  rewrite nth_error_app2, Nat.sub_diag by lia. reflexivity.
Qed.

Lemma length_last {A : Type} (l : list A) (x : A) :
  List.length (l ++ [x]) - 1 = List.length l.
Proof. rewrite length_app. simpl. lia. Qed.

Lemma handleFormSubmission_invalid (form : nat) (st : App) :
  eval (validateForm form) st = false ->
  exec (handleFormSubmission form) st =
  exec (hideFormLoading form) (exec (validateForm form) st).
Proof.
  intro H. unfold handleFormSubmission, exec at 1.
  rewrite run_bind, handleFormSubmissionStart_run. cbv zeta.
  rewrite H. reflexivity.
Qed.

Lemma handleFormSubmission_valid (form : nat) (st : App) :
  eval (validateForm form) st = true ->
  exec (handleFormSubmission form) st =
  exec (handleFormSubmissionSettle form (eval (getFormType form) st)
          (Resolved true "Form submitted successfully"))
    (exec (showFormLoading form) (exec (validateForm form) st)).
Proof.
  intro H. unfold handleFormSubmission, exec at 1.
  rewrite run_bind, handleFormSubmissionStart_run. cbv zeta.
  rewrite H. cbn [fst snd].
  set (loading := exec (showFormLoading form) (exec (validateForm form) st)).
  set (formType := eval (getFormType form) st).
  set (submissionData := eval (prepareSubmissionData _ _) loading).
  unfold submitFormStart, setTimeout, modify, exec at 1. cbn [snd].
  rewrite run_bind. cbn [gets fst snd timers setTimers].
  rewrite length_last.
  unfold fire. rewrite run_bind. cbn [gets fst snd timers setTimers].
  rewrite nth_error_last, run_bind. cbn [modify fst snd action].
  rewrite dropRank_last.
  rewrite setTimers_same. reflexivity.
Qed.

Lemma handleFormSubmission_now (form : nat) (st : App) :
  let loading := exec (showFormLoading form) (exec (validateForm form) st) in
  eventHistory loading = eventHistory st /\ now loading = now st.
Proof.
  cbv zeta.
  destruct (pageOnly_showFormLoading form (exec (validateForm form) st)) as (N1 & E1 & _).
  destruct (pageOnly_validateForm form st) as (N2 & E2 & _).
  unfold exec in *. split; congruence.
Qed.

(** What a whole submission records. *)
Lemma handleFormSubmission_history (form : nat) (st : App) :
  let formType := eval (getFormType form) st in
  added st (exec (handleFormSubmission form) st) =
  if eval (validateForm form) st then
    [mkEvent "message_display"
       [("type", VStr "success");
        ("message", VStr (JsString.prefix 50 (successMessage formType)))] (now st);
     mkEvent "form_submission_success" [("form_type", VStr formType)] (now st)] ++
    (if shadowed "reset" form (pageAtReset form st)
     then [mkEvent "message_display"
             [("type", VStr "error"); ("message", VStr "form.reset is not a function")]
             (now st);
           mkEvent "form_submission_error"
             [("form_type", VStr formType);
              ("error", VStr "form.reset is not a function")] (now st)]
     else [])
  else [].
Proof.
  cbv zeta. destruct (eval (validateForm form) st) eqn:V.
  - rewrite (handleFormSubmission_valid _ _ V).
    destruct (handleFormSubmission_now form st) as [E N]. cbv zeta in E, N.
    apply added_app.
    rewrite handleFormSubmissionSettle_resolved. cbv zeta.
    rewrite E, N. reflexivity.
  - rewrite (handleFormSubmission_invalid _ _ V).
    apply added_app. rewrite app_nil_r.
    destruct (pageOnly_hideFormLoading form (exec (validateForm form) st))
      as (_ & E1 & _).
    destruct (pageOnly_validateForm form st) as (_ & E2 & _).
    unfold exec in *. congruence.
Qed.



(** ** What an aborted submission does to the page *)

(** An aborted submission touches nothing but the page: no event, no
    callback, no observer, no clock. *)
Lemma aborted_submission_steady (form : nat) (st : App) :
  someFieldFails form st -> steady st (exec (handleFormSubmission form) st).
Proof.
  intro H. apply validateForm_false in H.
  rewrite (handleFormSubmission_invalid _ _ H).
  eapply steady_trans; [apply pageOnly_validateForm | apply pageOnly_hideFormLoading].
Qed.

(** C2 at the e-mail capture form of the sample page, submitted with its
    required field empty: validation fails, nothing is sent and no event is
    recorded, yet the submit button, which read "Get Early Access", now
    reads "Send Message". *)
Theorem aborted_submission_relabels_button :
  someFieldFails 2 Sample.app0 /\
  eventHistory (exec (handleFormSubmission 2) Sample.app0) = eventHistory Sample.app0 /\
  pendingSends (exec (handleFormSubmission 2) Sample.app0) = [] /\
  textOf 4 Sample.app0 = Some "Get Early Access" /\
  textOf 4 (exec (handleFormSubmission 2) Sample.app0) = Some "Send Message".
Proof.
  split; [exists 3; vm_compute; now left|].
  repeat split; vm_compute; reflexivity.
Qed.

(** ** The page under element-wise changes *)

Lemma below_map (g : element -> element) (k : nat) (r : document) :
  keepsShape g -> below k (map g r) = map g (below k r).
Proof.
  intro Hg. induction r as [|x r IH]; [reflexivity|].
  simpl. destruct (Hg x) as (_ & -> & _).
  destruct (k <? depth x); simpl; [now rewrite IH | reflexivity].
Qed.

Lemma descendantsOf_map (g : element -> element) (u : nat) (d : document) :
  keepsShape g -> descendantsOf u (map g d) = map g (descendantsOf u d).
Proof.
  intro Hg. induction d as [|e r IH]; [reflexivity|].
  simpl. unfold hasUid. destruct (Hg e) as (-> & -> & _).
  destruct (uid e =? u); [now apply below_map | exact IH].
Qed.

Lemma filter_map_same {A : Type} (p : A -> bool) (g : A -> A) (l : list A) :
  (forall x, p (g x) = p x) -> filter p (map g l) = map g (filter p l).
Proof.
  intro H. induction l as [|x r IH]; [reflexivity|].
  simpl. rewrite H. destruct (p x); simpl; now rewrite IH.
Qed.

Lemma fieldsOf_map (g : element -> element) (form : nat) (d : document) :
  keepsShape g -> fieldsOf form (map g d) = map g (fieldsOf form d).
Proof.
  intro Hg. unfold fieldsOf, querySelectorAll, descendants.
  rewrite (descendantsOf_map g form d Hg).
  apply filter_map_same. intro x. simpl.
  destruct (Hg x) as (_ & _ & ->). reflexivity.
Qed.

Lemma keepsShape_update (u : nat) (f : element -> element) :
  keepsShape f -> keepsShape (fun e => if hasUid u e then f e else e).
Proof.
  intros Hf e. destruct (hasUid u e); [apply Hf | repeat split].
Qed.

Lemma keepsShape_resetAmong (us : list nat) : keepsShape (resetAmong us).
Proof.
  intro e. unfold resetAmong. destruct (existsb _ _); repeat split.
Qed.

Lemma resetAmong_cons (x : nat) (us : list nat) (e : element) :
  resetAmong us (if hasUid x e then resetControl e else e) = resetAmong (x :: us) e.
Proof.
  unfold resetAmong, hasUid. simpl existsb.
  destruct (uid e =? x) eqn:E; simpl.
  - destruct (existsb _ us); reflexivity.
  - reflexivity.
Qed.

Lemma reset_page (form : nat) (st : App) :
  page (exec (reset form) st) =
  map (resetAmong (map uid (fieldsOf form (page st)))) (page st).
Proof.
  unfold reset, exec. rewrite run_bind. cbn [gets fst snd].
  fold (fieldsOf form (page st)).
  generalize (fieldsOf form (page st)). intro l. revert st.
  induction l as [|c r IH]; intro st.
  - simpl. unfold resetAmong. simpl. now rewrite map_id.
  - simpl forEach. rewrite run_bind. rewrite IH.
    cbn [modifyPage modify snd page setPage]. unfold update.
    rewrite map_map. apply map_ext. intro e. apply resetAmong_cons.
Qed.

Lemma reset_restores_defaults (form : nat) (st : App) :
  Forall (fun f => value f = defaultValue f)
    (fieldsOf form (page (exec (reset form) st))).
Proof.
  rewrite reset_page, fieldsOf_map by apply keepsShape_resetAmong.
  rewrite Forall_map, Forall_forall. intros c Hc.
  unfold resetAmong.
  replace (existsb (Nat.eqb (uid c)) (map uid (fieldsOf form (page st)))) with true.
  - reflexivity.
  - symmetry. apply existsb_exists. exists (uid c). split.
    + now apply in_map.
    + apply Nat.eqb_refl.
Qed.

Lemma hideFormLoading_keeps_values (form : nat) (st : App) :
  Forall (fun f => value f = defaultValue f) (fieldsOf form (page st)) ->
  Forall (fun f => value f = defaultValue f)
    (fieldsOf form (page (exec (hideFormLoading form) st))).
Proof.
  intro H. unfold hideFormLoading, exec. rewrite run_bind. cbn [gets fst snd].
  destruct (querySelector _ _ _) as [b|]; [|exact H].
  cbn [modifyPage modify snd page setPage]. unfold update.
  rewrite fieldsOf_map.
  - rewrite Forall_map. revert H. apply Forall_impl. intros e He.
    destruct (hasUid (uid b) e); [exact He | exact He].
  - apply keepsShape_update. intro e. repeat split.
Qed.

(** ** Submissions that pass validation *)

Lemma getFormType_cases (form : nat) (st : App) :
  let f := eval (deref form) st in
  eval (getFormType form) st =
  if contains "email-form" f then "early-access"
  else match closest (ById "contact") form (page st) with
       | Some _ => "contact"
       | None => "default"
       end.
Proof.
  unfold getFormType, eval. rewrite !run_bind. cbn [gets fst snd].
  change (fst (deref form st)) with (eval (deref form) st).
  destruct (contains _ _); [reflexivity|].
  destruct (closest _ _ _); reflexivity.
Qed.

(** ** Observers *)

Lemma nth_error_atRank {A : Type} (o : nat) (f : A -> A) (l : list A) :
  nth_error (atRank o f l) o = option_map f (nth_error l o).
Proof.
  revert o. induction l as [|x r IH]; intros [|o]; simpl; auto.
Qed.

Lemma notify_undelivered (o : nat) (ob : observer) (entries : list entry) (st : App) :
  nth_error (observers st) o = Some ob ->
  filter (fun e => observed (target e) ob) entries = [] ->
  notify o entries st = (tt, st).
Proof.
  intros Ho Hf. unfold notify. rewrite run_bind. cbn [gets fst snd].
  rewrite Ho, Hf. reflexivity.
Qed.

Lemma crossing_delivered (o t : nat) (b : bool) (ob : observer) (st : App) :
  nth_error (observers st) o = Some ob -> observed t ob = true ->
  crossing o t b st = runCallback o (onEntries ob) [mkEntry b t] st.
Proof.
  intros Ho Ht. unfold crossing, notify. rewrite run_bind. cbn [gets fst snd].
  rewrite Ho. cbn [filter target]. rewrite Ht. reflexivity.
Qed.

Lemma crossing_outwards (o t : nat) (ob : observer) (st : App) :
  nth_error (observers st) o = Some ob -> crossing o t false st = (tt, st).
Proof.
  intro Ho. destruct (observed t ob) eqn:Ht.
  - rewrite (crossing_delivered o t false ob st Ho Ht).
    destruct (onEntries ob); reflexivity.
  - apply (notify_undelivered o ob); [exact Ho|]. simpl. now rewrite Ht.
Qed.

Lemma getServiceType_readOnly (card : nat) : readOnly (getServiceType card).
Proof.
  intro st. unfold getServiceType. rewrite run_bind. cbn [deref gets fst snd].
  repeat match goal with |- context [if ?b then _ else _] => destruct b end;
    reflexivity.
Qed.

(** The first inward crossing of a one-shot observer records its event and
    drops the target. *)
Lemma oneShot_first_crossing (o t : nat) (cb : callback) (st : App) :
  oneShot cb = true ->
  nth_error (observers st) o = Some (mkObserver cb [t]) ->
  let st' := exec (crossing o t true) st in
  eventHistory st' = eventHistory st ++ [oneShotEvent cb st] /\
  nth_error (observers st') o = Some (mkObserver cb []) /\
  page st' = page st /\ now st' = now st.
Proof.
  intros Hcb Ho st'. unfold st', exec.
  rewrite (crossing_delivered o t true _ st Ho)
    by (unfold observed; cbn [targets existsb]; now rewrite Nat.eqb_refl).
  destruct cb as [|card|sectionId]; [discriminate| |]; cbn [onEntries runCallback forEach].
  - rewrite run_bind. cbn [isIntersecting target]. rewrite run_bind.
    rewrite getServiceType_readOnly. rewrite !run_bind.
    fold (eval (getServiceType card) st).
    match goal with
    | |- context [trackEvent ?n ?d st] =>
        destruct (trackEvent_history n d st) as (E & N & P & _ & O & _);
        unfold exec in E, N, P, O
    end.
    cbn [unobserve modify ret fst snd eventHistory observers setObservers page now].
    rewrite E, P, N, O, nth_error_atRank, Ho. cbn [option_map targets onEntries filter].
    rewrite Nat.eqb_refl. repeat split.
  - rewrite run_bind. cbn [isIntersecting target]. rewrite !run_bind.
    match goal with
    | |- context [trackEvent ?n ?d st] =>
        destruct (trackEvent_history n d st) as (E & N & P & _ & O & _);
        unfold exec in E, N, P, O
    end.
    cbn [unobserve modify ret fst snd eventHistory observers setObservers page now].
    rewrite E, P, N, O, nth_error_atRank, Ho. cbn [option_map targets onEntries filter].
    rewrite Nat.eqb_refl. repeat split.
Qed.

Lemma crossings_cons (o : nat) (c : nat * bool) (l : list (nat * bool)) (st : App) :
  exec (crossings o (c :: l)) st = exec (crossings o l) (exec (crossing o (fst c) (snd c)) st).
Proof. unfold crossings. simpl forEach. now rewrite exec_bind. Qed.

(** Once the target is dropped nothing is delivered any more. *)
Lemma crossings_unobserved (o : nat) (cb : callback) (l : list (nat * bool)) (st : App) :
  nth_error (observers st) o = Some (mkObserver cb []) ->
  exec (crossings o l) st = st.
Proof.
  intro Ho. induction l as [|[t b] r IH]; [reflexivity|].
  rewrite crossings_cons. cbn [fst snd]. unfold exec at 2, crossing.
  rewrite (notify_undelivered o _ [mkEntry b t] st Ho eq_refl). exact IH.
Qed.

(** Notified of one crossing at a time, an observer of the one-shot pattern
    (the callback of [trackServiceInterest] or of [trackBusinessGoals],
    observing its one element) records its event on the first inward
    crossing of the element and never again. *)
Lemma one_shot_records_once (o t : nat) (cb : callback) (l : list (nat * bool)) (st : App) :
  oneShot cb = true ->
  nth_error (observers st) o = Some (mkObserver cb [t]) ->
  eventHistory (exec (crossings o l) st) =
  eventHistory st ++ (if crossesInwards t l then [oneShotEvent cb st] else []).
Proof.
  intros Hcb. revert st. induction l as [|[t' b] r IH]; intros st Ho.
  - simpl. now rewrite app_nil_r.
  - rewrite crossings_cons. cbn [fst snd crossesInwards existsb].
    fold (crossesInwards t r).
    destruct b.
    + destruct (t' =? t) eqn:E.
      * apply Nat.eqb_eq in E. subst t'.
        destruct (oneShot_first_crossing o t cb st Hcb Ho) as (H1 & H2 & _).
        rewrite (crossings_unobserved o cb r _ H2). exact H1.
      * cbn [andb orb]. unfold exec at 2, crossing.
        rewrite (notify_undelivered o _ [mkEntry true t'] st Ho)
          by (unfold observed; cbn [filter target targets existsb];
              now rewrite E).
        now apply IH.
    + rewrite andb_false_r. cbn [orb]. unfold exec at 2.
      rewrite (crossing_outwards o t' _ st Ho). now apply IH.
Qed.

(** ** Setting the observers up *)

Lemma atRank_last {A : Type} (f : A -> A) (l : list A) (x : A) :
  atRank (List.length l) f (l ++ [x]) = l ++ [f x].
Proof. induction l as [|y r IH]; simpl; [reflexivity | now rewrite IH]. Qed.

(** A new observer given one element to observe. *)
Lemma observe_new (cb : callback) (t : nat) (st : App) :
  let st' := exec (observer <- newIntersectionObserver cb ;; observe observer t) st in
  observers st' = observers st ++ [mkObserver cb [t]] /\ page st' = page st.
Proof.
  unfold exec, newIntersectionObserver, observe. rewrite !run_bind.
  cbn [gets modify ret fst snd observers setObservers page].
  now rewrite atRank_last.
Qed.

(** [trackServiceInterest] gives every service card an observer of its own,
    with the card as its one target. *)
Lemma trackServiceInterest_observers (st : App) :
  observers (exec trackServiceInterest st) =
  observers st ++
  map (fun card => mkObserver (ServiceInterest (uid card)) [uid card])
    (querySelectorAll (ByClass "service-card") Body (page st)).
Proof.
  unfold trackServiceInterest, exec. rewrite run_bind. cbn [gets fst snd].
  generalize (querySelectorAll (ByClass "service-card") Body (page st)).
  intro cards. revert st. induction cards as [|c r IH]; intro st.
  - simpl. now rewrite app_nil_r.
  - simpl forEach. rewrite run_bind, IH.
    destruct (observe_new (ServiceInterest (uid c)) (uid c) st) as [O _].
    unfold exec in O. rewrite O, <- app_assoc. reflexivity.
Qed.

(** [trackBusinessGoals] does the same for each of the three sections that
    exists. *)
Lemma trackBusinessGoals_observers (st : App) :
  observers (exec trackBusinessGoals st) =
  observers st ++
  flat_map (fun sectionId =>
              match querySelector (ById sectionId) Body (page st) with
              | Some section => [mkObserver (BusinessGoal sectionId) [uid section]]
              | None => []
              end)
    ["services"; "about"; "contact"].
Proof.
  unfold trackBusinessGoals, exec. cbv zeta.
  generalize ["services"; "about"; "contact"]. intro ids.
  revert st. induction ids as [|i r IH]; intro st.
  - simpl. now rewrite app_nil_r.
  - simpl forEach. rewrite run_bind.
    assert (S1 : let s1 := snd ((d <- gets page ;;
                   match querySelector (ById i) Body d with
                   | Some section =>
                       observer <- newIntersectionObserver (BusinessGoal i) ;;
                       observe observer (uid section)
                   | None => ret tt
                   end) st) in
                 page s1 = page st /\
                 observers s1 = observers st ++
                   match querySelector (ById i) Body (page st) with
                   | Some section => [mkObserver (BusinessGoal i) [uid section]]
                   | None => []
                   end).
    { rewrite run_bind. cbn [gets fst snd].
      destruct (querySelector (ById i) Body (page st)) as [s|].
      - destruct (observe_new (BusinessGoal i) (uid s) st) as [O P].
        unfold exec in O, P. now split.
      - cbn [ret snd]. now rewrite app_nil_r. }
    cbv zeta in S1. destruct S1 as [P O].
    rewrite IH, O, P, <- app_assoc. reflexivity.
Qed.

(** Every observer these two set up is of the one-shot pattern. *)
Lemma one_shot_observers_are_set_up (st : App) (ob : observer) :
  In ob (skipn (List.length (observers st))
           (observers (exec (trackServiceInterest ;; trackBusinessGoals) st))) ->
  oneShot (onEntries ob) = true /\ exists t, targets ob = [t].
Proof.
  rewrite exec_bind. cbv beta.
  rewrite trackBusinessGoals_observers, trackServiceInterest_observers.
  rewrite <- app_assoc, skipn_app, skipn_all, Nat.sub_diag. cbn [skipn app].
  rewrite in_app_iff. intros [H|H].
  - apply in_map_iff in H. destruct H as (c & <- & _). split; [reflexivity|].
    now exists (uid c).
  - apply in_flat_map in H. destruct H as (i & _ & H).
    destruct (querySelector (ById i) Body _) as [s|]; [|destruct H].
    destruct H as [<-|[]]. split; [reflexivity|]. now exists (uid s).
Qed.

(** ** Section views *)

Lemma mem_addTokens_keep (c : string) (new l : list string) :
  JsString.mem c l = true -> JsString.mem c (addTokens new l) = true.
Proof.
  revert l. induction new as [|x r IH]; intros l H; [exact H|].
  simpl. apply IH. destruct (JsString.mem x l); [exact H|].
  unfold JsString.mem in *. rewrite existsb_app, H. reflexivity.
Qed.

Lemma mem_addTokens_new (c : string) (new l : list string) :
  In c new -> JsString.mem c (addTokens new l) = true.
Proof.
  revert l. induction new as [|x r IH]; intros l; [intros []|].
  intros [->|H]; [|now apply IH].
  simpl. apply mem_addTokens_keep.
  destruct (JsString.mem c l) eqn:E; [exact E|].
  unfold JsString.mem. rewrite existsb_app. simpl.
  now rewrite String.eqb_refl, orb_true_r.
Qed.

Lemma addTokens_present (new l : list string) :
  (forall c, In c new -> JsString.mem c l = true) -> addTokens new l = l.
Proof.
  induction new as [|x r IH]; intro H; [reflexivity|].
  simpl. rewrite (H x (or_introl eq_refl)). apply IH.
  intros c Hc. apply H. now right.
Qed.

Lemma classAdd_twice (new : list string) (e : element) :
  classAdd new (classAdd new e) = classAdd new e.
Proof.
  unfold classAdd. cbn [classList setClassList].
  rewrite (addTokens_present new (addTokens new (classList e))).
  - destruct e; reflexivity.
  - intros c Hc. now apply mem_addTokens_new.
Qed.

Lemma update_twice (u : nat) (f : element -> element) (d : document) :
  (forall e, uid (f e) = uid e) -> (forall e, f (f e) = f e) ->
  update u f (update u f d) = update u f d.
Proof.
  intros Hu Hf. unfold update. rewrite map_map. apply map_ext. intro e.
  unfold hasUid. destruct (uid e =? u) eqn:E.
  - now rewrite Hu, E, Hf.
  - now rewrite E.
Qed.

Lemma triggerBusinessAnimations_frame (section : nat) (st : App) :
  let st' := exec (triggerBusinessAnimations section) st in
  page st' = page st /\ eventHistory st' = eventHistory st /\
  observers st' = observers st /\ now st' = now st.
Proof.
  unfold triggerBusinessAnimations, exec. rewrite run_bind. cbn [deref gets fst snd].
  destruct (contains "services" _); [|repeat split].
  rewrite run_bind. cbn [gets fst snd].
  generalize (querySelectorAll (ByClass "service-card") (El section) (page st)).
  intro cards. generalize 0. revert st.
  induction cards as [|c r IH]; intros st n; [repeat split|].
  simpl forEachIndexed. rewrite run_bind.
  destruct (IH (snd (setTimeout (RevealCard (uid c)) (Z.of_nat n * 200) st)) (S n))
    as (H1 & H2 & H3 & H4).
  cbv zeta in *. rewrite H1, H2, H3, H4. repeat split.
Qed.

Lemma sectionView_crossing (o t : nat) (ob : observer) (st : App) :
  nth_error (observers st) o = Some ob ->
  onEntries ob = SectionView ->
  observed t ob = true ->
  let marked := update t (classAdd ["visible"; "loaded"]) (page st) in
  let st' := exec (crossing o t true) st in
  page st' = marked /\
  eventHistory st' =
    eventHistory st ++
    [mkEvent "section_view"
       [("section", VStr (sectionKey (eval (deref t) (setPage marked st))))] (now st)] /\
  observers st' = observers st /\ now st' = now st.
Proof.
  intros Ho Hcb Ht marked st'. unfold st', exec.
  rewrite (crossing_delivered o t true ob st Ho Ht), Hcb.
  cbn [runCallback forEach]. rewrite run_bind. cbn [isIntersecting target].
  rewrite run_bind. cbn [modifyPage modify fst snd]. fold marked.
  rewrite run_bind. cbn [deref gets fst snd].
  change (match lookup t (page (setPage marked st)) with
          | Some e => e
          | None => blank t EmptyString
          end) with (eval (deref t) (setPage marked st)).
  fold (sectionKey (eval (deref t) (setPage marked st))).
  rewrite run_bind.
  match goal with
  | |- context [trackEvent ?n ?d ?s] =>
      destruct (trackEvent_history n d s) as (E & N & P & _ & O & _);
      unfold exec in E, N, P, O;
      destruct (triggerBusinessAnimations_frame t (snd (trackEvent n d s)))
        as (P' & E' & O' & N'); unfold exec in P', E', O', N'
  end.
  cbn [ret fst snd]. rewrite P', E', O', N', P, E, O, N. repeat split.
Qed.

(** C3, as the code has it.  Every inward crossing of an observed section,
    the first and each later one, marks the section [visible] and [loaded]
    and records one [section_view] event under the section's key (its [id],
    or its class names when it has none); the section stays observed.  Only
    the marking is idempotent: a later crossing leaves the page as the first
    left it, and records the same event once more. *)
Theorem section_view_on_every_crossing (o t : nat) (ob : observer) (st : App) :
  nth_error (observers st) o = Some ob ->
  onEntries ob = SectionView ->
  observed t ob = true ->
  let first := exec (crossing o t true) st in
  let again := exec (crossing o t true) first in
  let key := sectionKey (eval (deref t) first) in
  page first = update t (classAdd ["visible"; "loaded"]) (page st) /\
  eventHistory first =
    eventHistory st ++ [mkEvent "section_view" [("section", VStr key)] (now st)] /\
  observers first = observers st /\
  page again = page first /\
  eventHistory again =
    eventHistory first ++ [mkEvent "section_view" [("section", VStr key)] (now st)].
Proof.
  intros Ho Hcb Ht first again key.
  destruct (sectionView_crossing o t ob st Ho Hcb Ht) as (P1 & E1 & O1 & N1).
  fold first in P1, E1, O1, N1.
  assert (K1 : eval (deref t) (setPage (update t (classAdd ["visible"; "loaded"]) (page st)) st)
               = eval (deref t) first).
  { unfold eval, deref, gets. cbn [fst page setPage]. now rewrite P1. }
  rewrite K1 in E1. fold key in E1.
  assert (Ho' : nth_error (observers first) o = Some ob) by now rewrite O1.
  destruct (sectionView_crossing o t ob first Ho' Hcb Ht) as (P2 & E2 & _ & _).
  fold again in P2, E2.
  assert (Pa : page again = page first).
  { rewrite P2, P1. apply update_twice; [reflexivity|]. apply classAdd_twice. }
  assert (K2 : eval (deref t)
                 (setPage (update t (classAdd ["visible"; "loaded"]) (page first)) first)
               = eval (deref t) first).
  { unfold eval, deref, gets. cbn [fst page setPage]. now rewrite <- P2, Pa. }
  rewrite K2, N1 in E2. fold key in E2.
  repeat split; assumption.
Qed.

Lemma section_view_on_every_crossing_witness :
  let first := exec (crossing 0 5 true) Sample.appObserved in
  let again := exec (crossing 0 5 true) first in
  page again = page first /\
  eventHistory again =
    [mkEvent "section_view" [("section", VStr "services")] 0%Z;
     mkEvent "section_view" [("section", VStr "services")] 0%Z].
Proof.
  destruct (section_view_on_every_crossing 0 5
              (mkObserver SectionView [1; 5; 8; 14]) Sample.appObserved
              eq_refl eq_refl eq_refl) as (_ & H1 & _ & H2 & H3).
  split; [exact H2|].
  cbv zeta. rewrite H3, H1. reflexivity.
Defined.

(** C3, as stated, fails: a section that crosses a second time is reported
    a second time. *)
Lemma second_crossing_is_recorded :
  nth_error (observers Sample.appObserved) 0 =
    Some (mkObserver SectionView [1; 5; 8; 14]) /\
  ~ laterCrossingIsNoOp 0 5 Sample.appObserved.
Proof.
  split; [reflexivity|].
  unfold laterCrossingIsNoOp. intro H.
  apply (f_equal (@List.length EngagementEvent)) in H.
  vm_compute in H. discriminate.
Qed.

(** ** Scroll depth *)

Lemma recordedDepths_app (h1 h2 : list EngagementEvent) :
  recordedDepths (h1 ++ h2) = recordedDepths h1 ++ recordedDepths h2.
Proof. unfold recordedDepths. now rewrite filter_app, flat_map_app. Qed.

Lemma onScroll_run (y h ih : Z) (st : App) :
  let p := roundPercent y (h - ih) in
  exec (onScroll y h ih) st =
  if gt p (maxScroll st) then
    if divisibleBy 25 p
    then exec (trackEvent "scroll_depth" [("depth", VNum p)]) (setMaxScroll p st)
    else setMaxScroll p st
  else st.
Proof.
  intro p. unfold onScroll, exec. fold p. rewrite run_bind. cbn [gets fst snd].
  destruct (gt p (maxScroll st)); [|reflexivity].
  rewrite run_bind. cbn [modify fst snd].
  destruct (divisibleBy 25 p); reflexivity.
Qed.

Lemma StronglySorted_snoc (zs : list Z) (x : Z) :
  StronglySorted Z.lt zs -> Forall (fun z => (z < x)%Z) zs ->
  StronglySorted Z.lt (zs ++ [x]).
Proof.
  induction 1 as [|a l Hs IH Ha]; intro Hx.
  - repeat constructor.
  - inversion Hx; subst. simpl. constructor; [now apply IH|].
    apply Forall_app. split; [exact Ha | now repeat constructor].
Qed.

Lemma reaches_gt (z : Z) (p m : jsnum) :
  reaches z m -> gt p m = true ->
  reaches z p /\ forall x, p = Num x -> (z < x)%Z.
Proof.
  destruct m as [a| | |], p as [b| | |]; simpl; intros Hz Hb;
    try discriminate; try contradiction.
  - apply Z.ltb_lt in Hb. split; [lia|]. intros x [= ->]. lia.
  - split; [exact I|]. intros x [=].
Qed.

(** Each scroll event keeps the recorded depths orderly. *)
Lemma onScroll_orderly (y h ih : Z) (st : App) :
  reaches 0 (maxScroll st) ->
  orderlyDepths (maxScroll st) (recordedDepths (eventHistory st)) ->
  let st' := exec (onScroll y h ih) st in
  reaches 0 (maxScroll st') /\
  orderlyDepths (maxScroll st') (recordedDepths (eventHistory st')).
Proof.
  intros H0 (zs & Hd & Hs & Hz) st'. unfold st'. rewrite onScroll_run. cbv zeta.
  set (p := roundPercent y (h - ih)).
  destruct (gt p (maxScroll st)) eqn:G; [|split; [exact H0 | now exists zs]].
  assert (Hz' : Forall (fun z => (0 < z)%Z /\ Z.rem z 25 = 0%Z /\ reaches z p) zs).
  { revert Hz. apply Forall_impl. intros z (A & B & C).
    repeat split; try assumption. now apply (reaches_gt z p _ C G). }
  destruct (divisibleBy 25 p) eqn:D.
  - destruct p as [x| | |]; try discriminate.
    destruct (trackEvent_history "scroll_depth" [("depth", VNum (Num x))]
                (setMaxScroll (Num x) st)) as (E & _).
    assert (M : maxScroll (exec (trackEvent "scroll_depth" [("depth", VNum (Num x))])
                             (setMaxScroll (Num x) st)) = Num x).
    { unfold trackEvent, exec. rewrite run_bind. cbn [modify fst snd].
      destruct (gtag _); reflexivity. }
    rewrite M, E. cbn [eventHistory setMaxScroll].
    destruct (reaches_gt 0 _ _ H0 G) as [R0 L0].
    split; [exact R0|].
    exists (zs ++ [x]). rewrite recordedDepths_app, Hd, map_app. repeat split.
    + apply StronglySorted_snoc; [exact Hs|].
      revert Hz. apply Forall_impl. intros z (_ & _ & C).
      now apply (reaches_gt z _ _ C G).
    + apply Forall_app. split; [exact Hz'|].
      constructor; [|constructor]. repeat split.
      * now apply L0.
      * simpl in D. now apply Z.eqb_eq in D.
      * simpl. lia.
  - cbn [maxScroll eventHistory setMaxScroll]. split.
    + now apply (reaches_gt 0 p _ H0 G).
    + now exists zs.
Qed.

(** Whatever the scroll positions, the depths recorded in a page view are
    strictly increasing positive multiples of 25: no threshold is recorded
    twice and no recorded depth is below an earlier one. *)
Lemma scroll_depths_orderly (ys : list Z) (h ih : Z) (st : App) :
  recordedDepths (eventHistory st) = [] ->
  let st' := exec (scrollThrough ys h ih) (exec trackScrollDepth st) in
  orderlyDepths (maxScroll st') (recordedDepths (eventHistory st')).
Proof.
  intros Hnone st'.
  assert (G : forall l s, reaches 0 (maxScroll s) ->
    orderlyDepths (maxScroll s) (recordedDepths (eventHistory s)) ->
    reaches 0 (maxScroll (exec (scrollThrough l h ih) s)) /\
    orderlyDepths (maxScroll (exec (scrollThrough l h ih) s))
      (recordedDepths (eventHistory (exec (scrollThrough l h ih) s)))).
  { induction l as [|y r IH]; intros s H0 Ho; [now split|].
    unfold scrollThrough. simpl forEach. rewrite exec_bind. cbv beta.
    destruct (onScroll_orderly y h ih s H0 Ho) as [H0' Ho'].
    now apply IH. }
  apply G.
  - simpl. lia.
  - exists []. cbn [exec trackScrollDepth modify snd eventHistory setMaxScroll].
    rewrite Hnone. repeat split; constructor.
Qed.

(** A scroll that passes through every percentage is recorded in full. *)
Lemma scroll_through_every_percent :
  recordedDepths
    (eventHistory
       (exec (scrollThrough (map Z.of_nat (seq 0 1001)) 1600 600)
          (exec trackScrollDepth Sample.app0))) =
  [Num 25; Num 50; Num 75; Num 100].
Proof. vm_compute. reflexivity. Qed.

(** C1 at a page view whose scroll events fall at 0, 240, 260, 500, 750
    and 1000 of 1000 scrollable pixels, that is at 0, 24, 26, 50, 75 and
    100 per cent: the maximum passes 25 per cent without any event landing
    on it, and the depths recorded are 50, 75 and 100 only. *)
Theorem scroll_depth_misses_threshold :
  recordedDepths
    (eventHistory
       (exec (scrollThrough [0; 240; 260; 500; 750; 1000]%Z 1600 600)
          (exec trackScrollDepth Sample.app0))) =
  [Num 50; Num 75; Num 100].
Proof. vm_compute. reflexivity. Qed.

(** ** Removing and inserting elements *)

Lemma below_beyond (k : nat) (r : document) : below k r ++ beyond k r = r.
Proof.
  induction r as [|x r IH]; [reflexivity|].
  simpl. destruct (k <? depth x); simpl; [now rewrite IH | reflexivity].
Qed.

Lemma removeNode_split (u : nat) (d : document) :
  exists l1 l2 l3, d = l1 ++ l2 ++ l3 /\ removeNode u d = l1 ++ l3.
Proof.
  induction d as [|e r IH].
  - exists [], [], []. split; reflexivity.
  - simpl. destruct (hasUid u e).
    + exists [], (e :: below (depth e) r), (beyond (depth e) r). split.
      * simpl. now rewrite below_beyond.
      * reflexivity.
    + destruct IH as (l1 & l2 & l3 & E1 & E2).
      exists (e :: l1), l2, l3. split; simpl; congruence.
Qed.

Lemma removeNode_In (x : element) (u : nat) (d : document) :
  In x (removeNode u d) -> In x d.
Proof.
  destruct (removeNode_split u d) as (l1 & l2 & l3 & -> & ->).
  rewrite !in_app_iff. tauto.
Qed.

Lemma NoDup_drop_middle {A : Type} (l1 l2 l3 : list A) :
  NoDup (l1 ++ l2 ++ l3) -> NoDup (l1 ++ l3).
Proof.
  induction l2 as [|x r IH]; [trivial|].
  simpl. intro H. apply IH. now apply NoDup_remove_1 in H.
Qed.

Lemma removeNode_distinct (u : nat) (d : document) :
  distinctUids d -> distinctUids (removeNode u d).
Proof.
  unfold distinctUids.
  destruct (removeNode_split u d) as (l1 & l2 & l3 & -> & ->).
  rewrite !map_app. apply NoDup_drop_middle.
Qed.

Lemma removeNode_gone (u : nat) (d : document) :
  distinctUids d -> ~ In u (map uid (removeNode u d)).
Proof.
  unfold distinctUids. induction d as [|e r IH]; [intros _ []|].
  simpl. intro H. inversion H as [|? ? Hn Hr]; subst.
  unfold hasUid. destruct (uid e =? u) eqn:E.
  - apply Nat.eqb_eq in E. subst u. intro Hin. apply Hn.
    rewrite <- (below_beyond (depth e) r), map_app, in_app_iff. now right.
  - apply Nat.eqb_neq in E. simpl. intros [Hu|Hu]; [contradiction|].
    now apply IH.
Qed.

Lemma removeAll_spec (us : list nat) (d : document) :
  distinctUids d ->
  distinctUids (removeAll us d) /\
  (forall x, In x (removeAll us d) -> In x d) /\
  (forall u, In u us -> ~ In u (map uid (removeAll us d))).
Proof.
  revert d. induction us as [|u r IH]; intros d Hd.
  - simpl. repeat split; [assumption | trivial | intros ? []].
  - simpl. destruct (IH (removeNode u d) (removeNode_distinct u d Hd))
      as (H1 & H2 & H3).
    repeat split.
    + exact H1.
    + intros x Hx. eapply removeNode_In, H2, Hx.
    + intros v [<-|Hv]; [|now apply H3].
      intro Hin. apply in_map_iff in Hin. destruct Hin as (x & Hx & Hin).
      apply (removeNode_gone u d Hd). rewrite <- Hx.
      apply in_map. rewrite Hx. now apply H2.
Qed.

Lemma filter_none {A : Type} (p : A -> bool) (l : list A) :
  (forall x, In x l -> p x = false) -> filter p l = [].
Proof.
  induction l as [|x r IH]; [reflexivity|].
  intro H. simpl. rewrite (H x (or_introl eq_refl)). apply IH.
  intros y Hy. apply H. now right.
Qed.

Lemma removeAll_messages (d : document) :
  distinctUids d -> messages (removeAll (map uid (messages d)) d) = [].
Proof.
  intro Hd.
  destruct (removeAll_spec (map uid (messages d)) d Hd) as (_ & H2 & H3).
  unfold messages at 1, querySelectorAll, descendants.
  apply filter_none. intros x Hx.
  destruct (matchesSelector (ByClass "message") x) eqn:E; [|reflexivity].
  exfalso. apply (H3 (uid x)).
  - apply in_map. unfold messages, querySelectorAll, descendants.
    apply filter_In. split; [now apply H2 | exact E].
  - now apply in_map.
Qed.

Lemma removeExistingMessages_page (st : App) :
  page (exec removeExistingMessages st) =
  removeAll (map uid (messages (page st))) (page st) /\
  nextUid (exec removeExistingMessages st) = nextUid st.
Proof.
  unfold removeExistingMessages, exec. rewrite run_bind. cbn [gets fst snd].
  fold (messages (page st)). generalize (messages (page st)). intro l.
  revert st. induction l as [|m r IH]; intro st; [split; reflexivity|].
  simpl forEach. rewrite run_bind. cbn [modifyPage modify fst snd].
  destruct (IH (setPage (removeNode (uid m) (page st)) st)) as [H1 H2].
  split; [rewrite H1 | rewrite H2]; reflexivity.
Qed.

Lemma insertUnder_split (c : nat) (new : element) (d : document) :
  In c (map uid d) ->
  exists l1 l2 k, d = l1 ++ l2 /\ insertUnder c new d = l1 ++ setDepth k new :: l2.
Proof.
  induction d as [|e r IH]; [intros []|].
  simpl. unfold hasUid. destruct (uid e =? c) eqn:E.
  - intros _. exists (e :: below (depth e) r), (beyond (depth e) r), (S (depth e)).
    split; simpl; [now rewrite below_beyond | reflexivity].
  - intros [H|H]; [apply Nat.eqb_neq in E; contradiction|].
    destruct (IH H) as (l1 & l2 & k & E1 & E2).
    exists (e :: l1), l2, k. split; simpl; congruence.
Qed.

Lemma querySelector_In (s : selector) (n : node) (d : document) (e : element) :
  querySelector s Body d = Some e -> In e d /\ matchesSelector s e = true.
Proof.
  unfold querySelector, querySelectorAll, descendants. intro H.
  apply filter_In. destruct (filter (matchesSelector s) d); [discriminate|].
  injection H as ->. now left.
Qed.

(** ** Class tokens *)

Lemma mem_dedup (x : string) (l : list string) :
  JsString.mem x (JsString.dedup l) = JsString.mem x l.
Proof.
  induction l as [|y r IH]; [reflexivity|].
  simpl. destruct (JsString.mem y (JsString.dedup r)) eqn:E.
  - rewrite IH. destruct (String.eqb x y) eqn:Exy; [|reflexivity].
    apply String.eqb_eq in Exy. subst y. simpl. now rewrite <- IH.
  - simpl. now rewrite IH.
Qed.

Lemma mem_rev (x : string) (l : list string) :
  JsString.mem x (rev l) = JsString.mem x l.
Proof.
  unfold JsString.mem. induction l as [|y r IH]; [reflexivity|].
  simpl. rewrite existsb_app, IH. simpl. rewrite orb_false_r. apply orb_comm.
Qed.

Lemma mem_orderedSet (x : string) (l : list string) :
  JsString.mem x (JsString.orderedSet l) = JsString.mem x l.
Proof. unfold JsString.orderedSet. now rewrite mem_rev, mem_dedup, mem_rev. Qed.

Lemma messageElement_is_message (message type : string) (div : element) (k : nat) :
  matchesSelector (ByClass "message") (setDepth k (messageElement message type div)) = true.
Proof.
  unfold messageElement. cbn [matchesSelector]. unfold contains.
  cbn [classList setDepth setAttribute setAttributes setTextContent
       assignClassName setClassList].
  unfold JsString.tokens. rewrite mem_orderedSet.
  reflexivity.
Qed.

(** ** One message at a time *)

Lemma keepsPage_bind {A B : Type} (m : M A) (k : A -> M B) :
  keepsPage m -> (forall a, keepsPage (k a)) -> keepsPage (bind m k).
Proof.
  intros Hm Hk st. rewrite run_bind.
  destruct (Hm st) as [H1 H2].
  destruct (Hk (fst (m st)) (snd (m st))) as [H3 H4].
  split; congruence.
Qed.

Lemma keepsPage_setTimeout (a : task) (ms : Z) : keepsPage (setTimeout a ms).
Proof. intro st. now split. Qed.

Lemma keepsPage_when (b : bool) (m : M unit) : keepsPage m -> keepsPage (when b m).
Proof. intro H. destruct b; [exact H | now intro st]. Qed.

Lemma keepsPage_trackEvent (eventName : string) (d : payload) :
  keepsPage (trackEvent eventName d).
Proof.
  intro st. destruct (trackEvent_history eventName d st) as (_ & _ & H1 & _ & _ & H2).
  now split.
Qed.

Lemma showMessage_page (message type : string) (duration : Z) (st : App) :
  let cleared := exec removeExistingMessages st in
  let messageDiv := messageElement message type (blank (nextUid cleared) "div") in
  let created := setNextUid (S (nextUid cleared)) cleared in
  page (exec (showMessage message type duration) st) =
  appendChild (eval (getMessageContainer type) created) messageDiv (page cleared).
Proof.
  intros cleared messageDiv created.
  unfold showMessage, exec at 1. rewrite run_bind. fold (exec removeExistingMessages st).
  fold cleared. rewrite run_bind.
  change (snd (createElement "div" cleared)) with created.
  change (fst (createElement "div" cleared)) with (blank (nextUid cleared) "div").
  cbv zeta. fold messageDiv. rewrite run_bind.
  assert (Hc : snd (getMessageContainer type created) = created).
  { unfold getMessageContainer. rewrite run_bind. cbn [gets fst snd].
    destruct (String.eqb type "success" || String.eqb type "error"); [|reflexivity].
    destruct (querySelector _ _ _); reflexivity. }
  rewrite Hc. fold (eval (getMessageContainer type) created).
  rewrite run_bind. cbn [modifyPage modify fst snd].
  match goal with
  | |- page (snd (?m ?s)) = _ =>
      assert (K : keepsPage m);
      [ | destruct (K s) as [K1 _]; rewrite K1; reflexivity ]
  end.
  apply keepsPage_bind; [apply keepsPage_setTimeout|]. intros _.
  apply keepsPage_bind; [apply keepsPage_when, keepsPage_setTimeout|]. intros _.
  apply keepsPage_trackEvent.
Qed.

Lemma getMessageContainer_within (type : string) (st : App) (c : nat) :
  eval (getMessageContainer type) st = El c -> In c (map uid (page st)).
Proof.
  unfold getMessageContainer, eval. rewrite run_bind. cbn [gets fst snd].
  destruct (String.eqb type "success" || String.eqb type "error"); [|discriminate].
  destruct (querySelector (ById "contact") Body (page st)) as [e|] eqn:Q;
    [|discriminate].
  intro H. injection H as <-. apply in_map.
  now apply (querySelector_In _ Body _ _ Q).
Qed.

(** ** The page stays orderly *)

Lemma tidy_ret {A : Type} (a : A) : tidy (ret a).
Proof. intros st H. split; [exact H | apply le_n]. Qed.

Lemma tidy_bind {A B : Type} (m : M A) (k : A -> M B) :
  tidy m -> (forall a, tidy (k a)) -> tidy (bind m k).
Proof.
  intros Hm Hk st H. rewrite run_bind.
  destruct (Hm st H) as [W1 L1].
  destruct (Hk (fst (m st)) (snd (m st)) W1) as [W2 L2].
  split; [exact W2 | lia].
Qed.

Lemma tidy_forEach {A : Type} (l : list A) (f : A -> M unit) :
  (forall x, tidy (f x)) -> tidy (forEach l f).
Proof.
  intro H. induction l as [|x r IH]; simpl; [apply tidy_ret|].
  apply tidy_bind; auto.
Qed.

Lemma tidy_keepsPage {A : Type} (m : M A) : keepsPage m -> tidy m.
Proof.
  intros K st [H1 H2]. destruct (K st) as [P N].
  unfold wellFormed. rewrite P, N. split; [now split | apply le_n].
Qed.

Lemma keepsPage_gets {A : Type} (f : App -> A) : keepsPage (gets f).
Proof. intro st. now split. Qed.

Lemma keepsPage_ret {A : Type} (a : A) : keepsPage (ret a).
Proof. intro st. now split. Qed.

Lemma keepsPage_readOnly {A : Type} (m : M A) : readOnly m -> keepsPage m.
Proof. intros H st. rewrite H. now split. Qed.

Lemma update_uids (u : nat) (f : element -> element) (d : document) :
  (forall e, uid (f e) = uid e) -> map uid (update u f d) = map uid d.
Proof.
  intro H. unfold update. rewrite map_map. apply map_ext. intro e.
  destruct (hasUid u e); [apply H | reflexivity].
Qed.

Lemma messages_update (u : nat) (f : element -> element) (d : document) :
  keepsKind f ->
  messages (update u f d) = map (fun e => if hasUid u e then f e else e) (messages d).
Proof.
  intro H. unfold messages, querySelectorAll, descendants, update.
  apply filter_map_same. intro e. cbn [matchesSelector].
  destruct (hasUid u e); [apply H | reflexivity].
Qed.

Lemma tidy_update (u : nat) (f : element -> element) :
  keepsKind f -> tidy (modifyPage (update u f)).
Proof.
  intros Hf st [H1 H2]. cbn [modifyPage modify snd].
  unfold wellFormed, distinctUids. cbn [page nextUid setPage].
  rewrite update_uids by apply Hf.
  rewrite messages_update, length_map by exact Hf.
  split; [now split | apply le_n].
Qed.

Lemma tidy_removeNode (u : nat) : tidy (modifyPage (removeNode u)).
Proof.
  intros st [H1 H2]. cbn [modifyPage modify snd].
  unfold wellFormed. cbn [page nextUid setPage].
  split; [split|].
  - now apply removeNode_distinct.
  - destruct (removeNode_split u (page st)) as (l1 & l2 & l3 & E1 & E2).
    rewrite E2. rewrite E1, !map_app, !Forall_app in H2.
    rewrite map_app, Forall_app. tauto.
  - destruct (removeNode_split u (page st)) as (l1 & l2 & l3 & E1 & E2).
    rewrite E2, E1. unfold messages, querySelectorAll, descendants.
    rewrite !filter_app, !length_app. lia.
Qed.

Lemma insertUnder_shape (c : nat) (new : element) (d : document) :
  insertUnder c new d = d \/
  exists l1 l2 k, d = l1 ++ l2 /\ insertUnder c new d = l1 ++ setDepth k new :: l2.
Proof.
  induction d as [|e r IH]; [now left|].
  simpl. destruct (hasUid c e).
  - right. exists (e :: below (depth e) r), (beyond (depth e) r), (S (depth e)).
    split; simpl; [now rewrite below_beyond | reflexivity].
  - destruct IH as [IH|(l1 & l2 & k & E1 & E2)].
    + left. now rewrite IH.
    + right. exists (e :: l1), l2, k. split; simpl; congruence.
Qed.

Lemma appendChild_shape (parent : node) (new : element) (d : document) :
  appendChild parent new d = d \/
  exists l1 l2 k, d = l1 ++ l2 /\ appendChild parent new d = l1 ++ setDepth k new :: l2.
Proof.
  destruct parent as [|c]; [|apply insertUnder_shape].
  right. exists d, [], 0. split; [now rewrite app_nil_r | reflexivity].
Qed.

(** Appending a freshly created element keeps identities distinct. *)
Lemma appendChild_wellFormed (parent : node) (new : element) (st : App) :
  wellFormed st -> uid new = nextUid st ->
  wellFormed (setPage (appendChild parent new (page st)) (setNextUid (S (nextUid st)) st)).
Proof.
  intros [H1 H2] Hu. unfold wellFormed, distinctUids in *.
  cbn [page nextUid setPage setNextUid].
  assert (H2' : Forall (fun u => u < S (nextUid st)) (map uid (page st))).
  { revert H2. apply Forall_impl. intros; lia. }
  destruct (appendChild_shape parent new (page st)) as [E|(l1 & l2 & k & E1 & E2)].
  - rewrite E. now split.
  - rewrite E2. rewrite E1 in H1, H2, H2'. rewrite map_app in *.
    cbn [map uid setDepth]. split.
    + apply NoDup_Add with (a := uid new) (l := map uid l1 ++ map uid l2).
      * apply Add_app.
      * split; [exact H1|]. rewrite Hu. intro Hin.
        rewrite Forall_forall in H2. apply H2 in Hin. lia.
    + rewrite Forall_app in *. destruct H2' as [A B]. split; [exact A|].
      constructor; [lia | exact B].
Qed.

Lemma messages_appendChild_other (parent : node) (new : element) (d : document) :
  contains "message" new = false ->
  messages (appendChild parent new d) = messages d.
Proof.
  intro H.
  destruct (appendChild_shape parent new d) as [E|(l1 & l2 & k & E1 & E2)].
  - now rewrite E.
  - rewrite E2, E1. unfold messages, querySelectorAll, descendants.
    rewrite !filter_app. cbn [filter matchesSelector].
    change (contains "message" (setDepth k new)) with (contains "message" new).
    now rewrite H.
Qed.

Lemma mem_addTokens_other (c : string) (new l : list string) :
  JsString.mem c new = false ->
  JsString.mem c (addTokens new l) = JsString.mem c l.
Proof.
  revert l. induction new as [|x r IH]; intros l H; [reflexivity|].
  simpl in H. apply orb_false_iff in H. destruct H as [Hx Hr].
  simpl. rewrite (IH _ Hr). destruct (JsString.mem x l); [reflexivity|].
  unfold JsString.mem. rewrite existsb_app. simpl. now rewrite Hx, !orb_false_r.
Qed.

Lemma mem_filter_other (c x : string) (l : list string) :
  String.eqb x c = false ->
  JsString.mem c (filter (fun y => negb (String.eqb x y)) l) = JsString.mem c l.
Proof.
  intro H. unfold JsString.mem. induction l as [|y r IH]; [reflexivity|].
  simpl. destruct (String.eqb x y) eqn:E; simpl.
  - apply String.eqb_eq in E. subst y.
    rewrite String.eqb_sym, H. exact IH.
  - now rewrite IH.
Qed.

Lemma keepsKind_compose (f g : element -> element) :
  keepsKind f -> keepsKind g -> keepsKind (fun e => f (g e)).
Proof.
  intros Hf Hg e. destruct (Hf (g e)) as [A B]. destruct (Hg e) as [C D].
  split; congruence.
Qed.

Lemma keepsKind_classAdd (new : list string) :
  JsString.mem "message" new = false -> keepsKind (classAdd new).
Proof.
  intros H e. split; [reflexivity|].
  unfold contains, classAdd. cbn [classList setClassList].
  now apply mem_addTokens_other.
Qed.

Lemma keepsKind_classRemove (c : string) :
  String.eqb c "message" = false -> keepsKind (classRemove c).
Proof.
  intros H e. split; [reflexivity|].
  unfold contains, classRemove. cbn [classList setClassList].
  now apply mem_filter_other.
Qed.

Lemma keepsKind_setAttribute (k v : string) : keepsKind (setAttribute k v).
Proof. intro e. now split. Qed.

Lemma keepsKind_removeAttribute (k : string) : keepsKind (removeAttribute k).
Proof. intro e. now split. Qed.

Lemma keepsKind_setCurrentValue (v : string) : keepsKind (setCurrentValue v).
Proof. intro e. now split. Qed.

Lemma keepsKind_resetControl : keepsKind resetControl.
Proof. intro e. now split. Qed.

Lemma keepsKind_setTextContent (t : string) : keepsKind (setTextContent t).
Proof. intro e. now split. Qed.

Lemma keepsKind_setDisabled (b : bool) : keepsKind (setDisabled b).
Proof. intro e. now split. Qed.

Lemma keepsPage_deref (u : nat) : keepsPage (deref u).
Proof. apply keepsPage_gets. Qed.

Create HintDb tidy.

#[export] Hint Resolve tidy_ret tidy_removeNode keepsPage_gets keepsPage_ret
  keepsPage_deref keepsPage_setTimeout keepsPage_trackEvent keepsKind_setAttribute
  keepsKind_removeAttribute keepsKind_setCurrentValue keepsKind_resetControl
  keepsKind_setTextContent keepsKind_setDisabled : tidy.

Lemma tidy_gets {A : Type} (f : App -> A) : tidy (gets f).
Proof. apply tidy_keepsPage, keepsPage_gets. Qed.

Lemma tidy_deref (u : nat) : tidy (deref u).
Proof. apply tidy_gets. Qed.

Lemma tidy_trackEvent (eventName : string) (d : payload) : tidy (trackEvent eventName d).
Proof. apply tidy_keepsPage, keepsPage_trackEvent. Qed.

Lemma tidy_setTimeout (a : task) (ms : Z) : tidy (setTimeout a ms).
Proof. apply tidy_keepsPage, keepsPage_setTimeout. Qed.

#[export] Hint Resolve tidy_gets tidy_deref tidy_trackEvent tidy_setTimeout : tidy.

(** Splits a computation as [frame] does, for [tidy]. *)
Ltac tidy :=
  repeat first
    [ progress auto with tidy
    | apply tidy_bind; [ | intro ]
    | apply tidy_forEach; intro
    | apply tidy_keepsPage; solve [auto with tidy]
    | apply tidy_update; solve [auto with tidy]
    | match goal with
      | |- tidy (if ?b then _ else _) => destruct b
      | |- tidy (match ?x with _ => _ end) => destruct x
      end ].

Lemma tidy_clearFieldError (field : nat) : tidy (clearFieldError field).
Proof.
  unfold clearFieldError.
  apply tidy_bind; [tidy|]. intro d.
  apply tidy_bind; [tidy|]. intros _.
  apply tidy_update.
  apply (keepsKind_compose (removeAttribute "aria-describedby")); [tidy|].
  apply (keepsKind_compose (removeAttribute "aria-invalid")); [tidy|].
  now apply keepsKind_classRemove.
Qed.

Lemma tidy_showFieldError (field : nat) (message : string) :
  tidy (showFieldError field message).
Proof.
  intros st W. unfold showFieldError. rewrite run_bind.
  change (fst (createElement "div" st)) with (blank (nextUid st) "div").
  change (snd (createElement "div" st)) with (setNextUid (S (nextUid st)) st).
  cbv zeta. rewrite run_bind. cbn [gets fst snd]. rewrite run_bind.
  cbn [modifyPage modify fst snd page setNextUid setPage].
  set (errorDiv := setAttribute "aria-live" "polite" _).
  set (parent := parentNode field (page st)).
  pose proof (appendChild_wellFormed parent errorDiv st W eq_refl) as W1.
  pose proof (messages_appendChild_other parent errorDiv (page st) eq_refl) as M1.
  set (st1 := setPage (appendChild parent errorDiv (page st))
                (setNextUid (S (nextUid st)) st)) in *.
  match goal with
  | |- context [update field ?f] =>
      assert (T : tidy (modifyPage (update field f)))
  end.
  { apply tidy_update.
    apply (keepsKind_compose (setAttribute "aria-describedby" _)); [tidy|].
    apply (keepsKind_compose (setAttribute "aria-invalid" "true")); [tidy|].
    now apply keepsKind_classAdd. }
  destruct (T st1 W1) as [W2 L2].
  cbn [modifyPage modify snd] in W2, L2.
  change (page st1) with (appendChild parent errorDiv (page st)) in L2.
  rewrite M1 in L2. split; assumption.
Qed.

#[export] Hint Resolve tidy_clearFieldError tidy_showFieldError : tidy.

Lemma tidy_validateField (field : nat) : tidy (validateField field).
Proof. unfold validateField. tidy. Qed.

#[export] Hint Resolve tidy_validateField : tidy.

Lemma tidy_validateInputs (inputs : list element) (isValid : bool) :
  tidy (validateInputs inputs isValid).
Proof.
  revert isValid. induction inputs as [|i r IH]; intro b; simpl; tidy.
Qed.

#[export] Hint Resolve tidy_validateInputs : tidy.

Lemma tidy_validateForm (form : nat) : tidy (validateForm form).
Proof. unfold validateForm. tidy. Qed.

Lemma tidy_showFormLoading (form : nat) : tidy (showFormLoading form).
Proof. unfold showFormLoading. tidy. Qed.

Lemma tidy_hideFormLoading (form : nat) : tidy (hideFormLoading form).
Proof. unfold hideFormLoading. tidy. Qed.

Lemma tidy_reset (form : nat) : tidy (reset form).
Proof. unfold reset. tidy. Qed.

#[export] Hint Resolve tidy_validateForm tidy_showFormLoading tidy_hideFormLoading
  tidy_reset : tidy.

Lemma tidy_handleFormSubmissionStart (form : nat) : tidy (handleFormSubmissionStart form).
Proof.
  unfold handleFormSubmissionStart, FormData, prepareSubmissionData, submitFormStart.
  apply tidy_bind; [tidy|]. intro formData.
  apply tidy_bind; [apply tidy_keepsPage, keepsPage_readOnly, readOnly_getFormType|].
  intro formType. tidy.
Qed.

Lemma tidy_keepsOrder {A : Type} (m : M A) : tidy m -> keepsOrder m.
Proof.
  intros T st [W L]. destruct (T st W) as [W' L']. split; [exact W' | lia].
Qed.

Lemma keepsOrder_bind {A B : Type} (m : M A) (k : A -> M B) :
  keepsOrder m -> (forall a, keepsOrder (k a)) -> keepsOrder (bind m k).
Proof. intros Hm Hk st H. rewrite run_bind. apply Hk, Hm, H. Qed.

Lemma tidy_removeExistingMessages : tidy removeExistingMessages.
Proof. unfold removeExistingMessages. tidy. Qed.

Lemma showMessage_nextUid (message type : string) (duration : Z) (st : App) :
  nextUid (exec (showMessage message type duration) st) = S (nextUid st).
Proof.
  unfold showMessage, exec. rewrite run_bind.
  destruct (removeExistingMessages_page st) as [_ N]. unfold exec in N.
  rewrite <- N. generalize (snd (removeExistingMessages st)). clear st N. intro st.
  rewrite run_bind.
  change (snd (createElement "div" st)) with (setNextUid (S (nextUid st)) st).
  cbv zeta.
  change (S (nextUid st)) with (nextUid (setNextUid (S (nextUid st)) st)) at 2.
  generalize (setNextUid (S (nextUid st)) st).
  generalize (messageElement message type (fst (createElement "div" st))).
  clear st. intros messageDiv st.
  match goal with
  | |- nextUid (snd (?m st)) = _ =>
      assert (K : forall s, nextUid (snd (m s)) = nextUid s); [|apply K]
  end.
  intro s. rewrite run_bind.
  assert (C : snd (getMessageContainer type s) = s).
  { unfold getMessageContainer. rewrite run_bind. cbn [gets fst snd].
    destruct (String.eqb type "success" || String.eqb type "error"); [|reflexivity].
    destruct (querySelector _ _ _); reflexivity. }
  rewrite C, run_bind. cbn [modifyPage modify fst snd].
  match goal with
  | |- nextUid (snd (?k ?s')) = _ =>
      assert (K : keepsPage k);
      [ | destruct (K s') as [_ K2]; rewrite K2; reflexivity ]
  end.
  apply keepsPage_bind; [apply keepsPage_setTimeout|]. intros _.
  apply keepsPage_bind; [apply keepsPage_when, keepsPage_setTimeout|]. intros _.
  apply keepsPage_trackEvent.
Qed.

(** What [showMessage] leaves on the page. *)
Lemma showMessage_messages (message type : string) (duration : Z) (st : App) :
  distinctUids (page st) ->
  exists messageDiv,
    messages (page (exec (showMessage message type duration) st)) = [messageDiv] /\
    textContent messageDiv = SECURITY.sanitizeInput message.
Proof.
  intro Hd. rewrite showMessage_page.
  destruct (removeExistingMessages_page st) as [Hp Hn].
  set (cleared := exec removeExistingMessages st) in *.
  set (created := setNextUid (S (nextUid cleared)) cleared).
  set (div := messageElement message type (blank (nextUid cleared) "div")).
  assert (Hnone : messages (page cleared) = []).
  { rewrite Hp. now apply removeAll_messages. }
  destruct (eval (getMessageContainer type) created) as [|c] eqn:C.
  - exists (setDepth 0 div). split; [|reflexivity].
    unfold appendChild, messages, querySelectorAll, descendants in *.
    rewrite filter_app, Hnone. cbn [filter app].
    unfold div. now rewrite messageElement_is_message.
  - apply getMessageContainer_within in C.
    change (page created) with (page cleared) in C.
    destruct (insertUnder_split c div (page cleared) C) as (l1 & l2 & k & E1 & E2).
    exists (setDepth k div). split; [|reflexivity].
    unfold appendChild, messages, querySelectorAll, descendants in *.
    rewrite E2. rewrite E1, filter_app in Hnone.
    apply app_eq_nil in Hnone. destruct Hnone as [N1 N2].
    rewrite filter_app, N1. cbn [filter app]. rewrite N2.
    unfold div. now rewrite messageElement_is_message.
Qed.

Lemma keepsOrder_showMessage (message type : string) (duration : Z) :
  keepsOrder (showMessage message type duration).
Proof.
  intros st [W L]. split.
  - destruct (tidy_removeExistingMessages st W) as [W1 _].
    fold (exec removeExistingMessages st) in W1.
    pose proof (showMessage_page message type duration st) as P. cbv zeta in P.
    pose proof (showMessage_nextUid message type duration st) as N.
    destruct (removeExistingMessages_page st) as [_ N1].
    set (cleared := exec removeExistingMessages st) in *.
    pose proof (appendChild_wellFormed
                  (eval (getMessageContainer type)
                     (setNextUid (S (nextUid cleared)) cleared))
                  (messageElement message type (blank (nextUid cleared) "div"))
                  cleared W1 eq_refl) as W2.
    unfold wellFormed in W2 |- *. cbn [page nextUid setPage setNextUid] in W2.
    fold (exec (showMessage message type duration) st).
    rewrite P, N, <- N1. exact W2.
  - destruct W as [D _].
    destruct (showMessage_messages message type duration st D) as (m & E & _).
    fold (exec (showMessage message type duration) st). rewrite E. apply le_n.
Qed.

Lemma keepsOrder_handleFormSubmissionSettle
  (form : nat) (formType : string) (outcome : settled) :
  keepsOrder (handleFormSubmissionSettle form formType outcome).
Proof.
  unfold handleFormSubmissionSettle, afterAwait, showFormSuccess, showFormError.
  apply keepsOrder_bind.
  - destruct outcome; [|apply tidy_keepsOrder; tidy].
    apply keepsOrder_bind; [apply keepsOrder_showMessage|]. intros _.
    apply tidy_keepsOrder. unfold formReset. tidy.
  - intros tried.
    apply keepsOrder_bind; [|intros _; apply tidy_keepsOrder, tidy_hideFormLoading].
    destruct tried as [|message]; [apply tidy_keepsOrder; tidy|].
    apply keepsOrder_bind; [apply keepsOrder_showMessage|]. intros _.
    apply tidy_keepsOrder. tidy.
Qed.

Lemma keepsOrder_fire (i : nat) : keepsOrder (fire i).
Proof.
  unfold fire. apply keepsOrder_bind; [apply tidy_keepsOrder; tidy|]. intro ts.
  destruct (nth_error ts i) as [t|]; [|apply tidy_keepsOrder; tidy].
  apply keepsOrder_bind.
  { apply tidy_keepsOrder, tidy_keepsPage. intro st. now split. }
  intros _. destruct (action t); cbn [runTask].
  - apply tidy_keepsOrder, tidy_update. now apply keepsKind_classAdd.
  - apply tidy_keepsOrder. unfold hideMessage. tidy.
    apply tidy_update. now apply keepsKind_classRemove.
  - apply tidy_keepsOrder. tidy.
  - apply tidy_keepsOrder, tidy_update.
    apply (keepsKind_compose (setAttribute "style.transform" "translateY(0)")
             (setAttribute "style.opacity" "1")); tidy.
  - apply keepsOrder_handleFormSubmissionSettle.
Qed.

Lemma keepsPage_forEachIndexed {A : Type} (l : list A) (f : A -> nat -> M unit) (n : nat) :
  (forall x i, keepsPage (f x i)) -> keepsPage (forEachIndexed n l f).
Proof.
  intro H. revert n. induction l as [|x r IH]; intro n; simpl.
  - apply keepsPage_ret.
  - apply keepsPage_bind; auto.
Qed.

Lemma keepsPage_triggerBusinessAnimations (section : nat) :
  keepsPage (triggerBusinessAnimations section).
Proof.
  unfold triggerBusinessAnimations.
  apply keepsPage_bind; [apply keepsPage_deref|]. intro s.
  destruct (contains "services" s); [|apply keepsPage_ret].
  apply keepsPage_bind; [apply keepsPage_gets|]. intro d.
  apply keepsPage_forEachIndexed. intros. apply keepsPage_setTimeout.
Qed.

Lemma keepsPage_unobserve (o t : nat) : keepsPage (unobserve o t).
Proof. intro st. now split. Qed.

Lemma keepsPage_getServiceType (card : nat) : keepsPage (getServiceType card).
Proof. apply keepsPage_readOnly, getServiceType_readOnly. Qed.

Lemma tidy_triggerBusinessAnimations (section : nat) :
  tidy (triggerBusinessAnimations section).
Proof. apply tidy_keepsPage, keepsPage_triggerBusinessAnimations. Qed.

Lemma tidy_unobserve (o t : nat) : tidy (unobserve o t).
Proof. apply tidy_keepsPage, keepsPage_unobserve. Qed.

Lemma tidy_getServiceType (card : nat) : tidy (getServiceType card).
Proof. apply tidy_keepsPage, keepsPage_getServiceType. Qed.

#[export] Hint Resolve tidy_triggerBusinessAnimations tidy_unobserve
  tidy_getServiceType : tidy.

Lemma tidy_runCallback (self : nat) (cb : callback) (entries : list entry) :
  tidy (runCallback self cb entries).
Proof.
  destruct cb; cbn [runCallback]; tidy.
  apply tidy_update. now apply keepsKind_classAdd.
Qed.

Lemma tidy_crossing (o t : nat) (inwards : bool) : tidy (crossing o t inwards).
Proof.
  unfold crossing, notify. tidy. apply tidy_runCallback.
Qed.

Lemma tidy_onScroll (y h ih : Z) : tidy (onScroll y h ih).
Proof.
  unfold onScroll. tidy; apply tidy_keepsPage; intro st; now split.
Qed.

Lemma keepsOrder_react (h : happening) : keepsOrder (react h).
Proof.
  destruct h; cbn [react].
  - apply tidy_keepsOrder. apply tidy_bind; [apply tidy_handleFormSubmissionStart|].
    intro. apply tidy_ret.
  - apply keepsOrder_fire.
  - apply tidy_keepsOrder, tidy_crossing.
  - apply tidy_keepsOrder, tidy_onScroll.
  - apply tidy_keepsOrder. tidy.
  - apply tidy_keepsOrder. tidy.
  - apply tidy_keepsOrder, tidy_keepsPage. intro st. now split.
Qed.

Lemma keepsOrder_visit (hs : list happening) : keepsOrder (visit hs).
Proof.
  unfold visit. induction hs as [|h r IH]; simpl.
  - intros st H. exact H.
  - apply keepsOrder_bind; [apply keepsOrder_react | intros _; exact IH].
Qed.

(** C10.  When [showMessage] returns, the page holds exactly one message
    element, the one just built: [removeExistingMessages] has taken every
    earlier one away.  And nothing else adds one: on a page that starts with
    at most one message, whatever is submitted, typed, scrolled or crossed
    and whichever waiting callbacks run, there is never more than one. *)
Theorem one_message_at_a_time :
  (forall message type duration st,
     distinctUids (page st) ->
     exists messageDiv,
       messages (page (exec (showMessage message type duration) st)) = [messageDiv] /\
       textContent messageDiv = SECURITY.sanitizeInput message) /\
  (forall hs st, orderly st -> orderly (exec (visit hs) st)).
Proof.
  split.
  - apply showMessage_messages.
  - intros hs st. apply keepsOrder_visit.
Qed.

Lemma one_message_at_a_time_witness :
  (exists messageDiv,
     messages (page (exec (showMessage "Saved" "success" 5000) Sample.app0)) =
       [messageDiv] /\
     textContent messageDiv = SECURITY.sanitizeInput "Saved") /\
  List.length
    (messages
       (page (exec (visit [Types 3 "a@b.co"; Submits 2; Passes 2000; Fires 0;
                           Types 3 "c@d.io"; Submits 2; Fires 0; Fires 2; Fires 1])
                Sample.app0))) <= 1.
Proof.
  destruct one_message_at_a_time as [H1 H2].
  assert (D : distinctUids (page Sample.app0)).
  { unfold distinctUids. simpl.
    repeat (constructor; [simpl; intuition discriminate|]). constructor. }
  assert (B : Forall (fun u => u < nextUid Sample.app0) (map uid (page Sample.app0))).
  { simpl. repeat (constructor; [lia|]). constructor. }
  assert (L : List.length (messages (page Sample.app0)) <= 1).
  { simpl. lia. }
  split.
  - exact (H1 "Saved" "success" 5000%Z Sample.app0 D).
  - exact (proj2 (H2 [Types 3 "a@b.co"; Submits 2; Passes 2000; Fires 0;
                      Types 3 "c@d.io"; Submits 2; Fires 0; Fires 2; Fires 1]
                    Sample.app0 (conj (conj D B) L))).
Defined.

(* ================================================================== *)
(** ** What the patterns accept *)

Lemma allChars_append (p : ascii -> bool) (a b : string) :
  allChars p (a ++ b)%string = allChars p a && allChars p b.
Proof.
  induction a as [|c a IH]; simpl; [reflexivity|].
  rewrite IH. apply andb_assoc.
Qed.

Lemma length_append (a b : string) :
  String.length (a ++ b)%string = String.length a + String.length b.
Proof. induction a as [|c a IH]; simpl; [reflexivity|]. now rewrite IH. Qed.

Lemma countChar_append (c : ascii) (a b : string) :
  countChar c (a ++ b)%string = countChar c a + countChar c b.
Proof. induction a as [|x a IH]; simpl; [reflexivity|]. rewrite IH. lia. Qed.

Lemma allChars_weaken (p q : ascii -> bool) (s : string) :
  (forall c, p c = true -> q c = true) -> allChars p s = true -> allChars q s = true.
Proof.
  intros Hpq. induction s as [|c s IH]; simpl; [reflexivity|].
  intros H. apply andb_true_iff in H as [Hc Hs].
  apply andb_true_iff. split; auto.
Qed.

Lemma countChar_none (p : ascii -> bool) (c : ascii) (s : string) :
  p c = false -> allChars p s = true -> countChar c s = 0.
Proof.
  intros Hc. induction s as [|x s IH]; simpl; [reflexivity|].
  intros H. apply andb_true_iff in H as [Hx Hs].
  destruct (Ascii.eqb_spec x c) as [->|_]; [congruence|].
  now rewrite IH.
Qed.

(** A starred class accepts the strings made of its characters. *)
Lemma Matches_Star_Class (p : ascii -> bool) (s : string) :
  Matches (Star (Class p)) s <-> allChars p s = true.
Proof.
  split.
  - induction s as [|c s IH]; intros H; simpl; [reflexivity|].
    apply Matches_Star_cons in H as (s1 & s2 & -> & H1 & H2).
    apply Matches_Class in H1 as (c' & E & Hc).
    injection E as <- ->. simpl in IH.
    rewrite Hc. simpl. apply IH, H2.
  - induction s as [|c s IH]; simpl; intros H; [constructor|].
    apply andb_true_iff in H as [Hc Hs].
    apply (MStarS (Class p) (String c EmptyString) s); [now constructor | auto].
Qed.

Lemma Matches_Plus_Class (p : ascii -> bool) (s : string) :
  Matches (Plus (Class p)) s <-> s <> EmptyString /\ allChars p s = true.
Proof.
  unfold Plus. split.
  - intros H. apply Matches_Seq in H as (s1 & s2 & -> & H1 & H2).
    apply Matches_Class in H1 as (c & -> & Hc).
    apply Matches_Star_Class in H2. simpl. rewrite Hc, H2.
    split; [discriminate | reflexivity].
  - intros [Hne H]. destruct s as [|c s]; [congruence|].
    simpl in H. apply andb_true_iff in H as [Hc Hs].
    apply (MSeq (Class p) (Star (Class p)) (String c EmptyString) s).
    + now constructor.
    + now apply Matches_Star_Class.
Qed.

Lemma Rep_upTo (r : regex) (k : nat) :
  Rep r 0 (S k) = Alt Eps (Seq r (Rep r 0 k)).
Proof. reflexivity. Qed.

Lemma Matches_upTo_Class (p : ascii -> bool) (k : nat) (s : string) :
  Matches (Rep (Class p) 0 k) s <-> allChars p s = true /\ String.length s <= k.
Proof.
  revert s. induction k as [|k IH]; intros s.
  - simpl. split.
    + intros H. apply Matches_Eps in H as ->. simpl. auto.
    + intros [_ H]. destruct s; simpl in H; [constructor | lia].
  - rewrite Rep_upTo. split.
    + intros H. apply Matches_Alt in H as [H|H].
      * apply Matches_Eps in H as ->. simpl. split; [reflexivity | lia].
      * apply Matches_Seq in H as (s1 & s2 & -> & H1 & H2).
        apply Matches_Class in H1 as (c & -> & Hc).
        apply IH in H2 as [H2 Hl]. simpl. rewrite Hc, H2. split; [reflexivity | lia].
    + intros [H Hl]. destruct s as [|c s].
      * apply MAltL. constructor.
      * simpl in H, Hl. apply andb_true_iff in H as [Hc Hs].
        apply MAltR.
        apply (MSeq (Class p) (Rep (Class p) 0 k) (String c EmptyString) s).
        -- now constructor.
        -- apply IH. split; [assumption | lia].
Qed.

(** A bounded repetition of a class accepts the strings made of its
    characters whose length is within the bounds. *)
Lemma Matches_Rep_Class (p : ascii -> bool) (lo extra : nat) (s : string) :
  Matches (Rep (Class p) lo extra) s <->
  allChars p s = true /\ lo <= String.length s <= lo + extra.
Proof.
  revert s. induction lo as [|lo IH]; intros s.
  - rewrite Matches_upTo_Class. simpl. intuition lia.
  - change (Rep (Class p) (S lo) extra) with (Seq (Class p) (Rep (Class p) lo extra)).
    split.
    + intros H. apply Matches_Seq in H as (s1 & s2 & -> & H1 & H2).
      apply Matches_Class in H1 as (c & -> & Hc).
      apply IH in H2 as [H2 Hl]. simpl. rewrite Hc, H2. split; [reflexivity | lia].
    + intros [H Hl]. destruct s as [|c s]; simpl in Hl; [lia|].
      simpl in H. apply andb_true_iff in H as [Hc Hs].
      apply (MSeq (Class p) (Rep (Class p) lo extra) (String c EmptyString) s).
      * now constructor.
      * apply IH. split; [assumption | lia].
Qed.

(** X1. The name pattern accepts exactly the strings of 2 to 50 characters
    that are all letters, white space, apostrophes or hyphens. *)
Theorem name_pattern_accepts (s : string) :
  test SECURITY.name s = true <->
  allChars SECURITY.nameChar s = true /\ 2 <= String.length s <= 50.
Proof.
  rewrite test_Matches. unfold SECURITY.name.
  rewrite Matches_Rep_Class. simpl. reflexivity.
Qed.

Lemma name_pattern_accepts_witness :
  test SECURITY.name "Mary-Ann O'Neil" = true /\
  (allChars SECURITY.nameChar "Jo" = true /\ 2 <= String.length "Jo" <= 50).
Proof.
  split.
  - apply (proj2 (name_pattern_accepts "Mary-Ann O'Neil")).
    split; [reflexivity | simpl; lia].
  - apply (proj1 (name_pattern_accepts "Jo")). reflexivity.
Defined.

(** X2. The phone pattern accepts exactly an optional plus sign, a digit
    from 1 to 9 and up to fifteen more digits. *)
Theorem phone_pattern_accepts (s : string) :
  test SECURITY.phone s = true <->
  exists sign first rest,
    s = (sign ++ String first rest)%string /\
    (sign = EmptyString \/ sign = "+") /\
    inRange 49 57 first = true /\
    allChars digit rest = true /\ String.length rest <= 15.
Proof.
  rewrite test_Matches. unfold SECURITY.phone, Opt. split.
  - intros H. apply Matches_Seq in H as (sign & s2 & -> & H1 & H2).
    apply Matches_Seq in H2 as (s3 & rest & -> & H3 & H4).
    apply Matches_Class in H3 as (first & -> & Hf).
    apply Matches_Rep_Class in H4 as [Hd Hl].
    exists sign, first, rest. repeat split; try assumption; try lia.
    apply Matches_Alt in H1 as [H1|H1].
    + left. now apply Matches_Eps.
    + right. apply Matches_Class in H1 as (c & -> & Hc).
      unfold isChar in Hc. apply Ascii.eqb_eq in Hc. now subst.
  - intros (sign & first & rest & -> & Hs & Hf & Hd & Hl).
    apply MSeq.
    + destruct Hs as [->| ->]; [apply MAltL; constructor | apply MAltR; now constructor].
    + apply (MSeq (Class (inRange 49 57)) (Rep (Class digit) 0 15)
               (String first EmptyString) rest).
      * now constructor.
      * apply Matches_Rep_Class. split; [assumption | lia].
Qed.

Lemma phone_pattern_accepts_witness :
  test SECURITY.phone "+14155550100" = true /\
  ~ (exists sign first rest,
       "0123" = (sign ++ String first rest)%string /\
       (sign = EmptyString \/ sign = "+") /\
       inRange 49 57 first = true /\
       allChars digit rest = true /\ String.length rest <= 15).
Proof.
  split.
  - apply (proj2 (phone_pattern_accepts "+14155550100")).
    exists "+", "1"%char, "4155550100".
    repeat split; [now right | simpl; lia].
  - intros H. apply (proj2 (phone_pattern_accepts "0123")) in H. discriminate H.
Defined.

(** The e-mail pattern accepts exactly the strings made of three non-empty
    runs of characters that are neither white space nor at signs, the first
    two joined by an at sign and the last two by a full stop. *)
Lemma email_language (s : string) :
  test SECURITY.email s = true <->
  exists local domain tld,
    s = (local ++ "@" ++ domain ++ "." ++ tld)%string /\
    (local <> EmptyString /\ allChars SECURITY.notSpaceNorAt local = true) /\
    (domain <> EmptyString /\ allChars SECURITY.notSpaceNorAt domain = true) /\
    (tld <> EmptyString /\ allChars SECURITY.notSpaceNorAt tld = true).
Proof.
  rewrite test_Matches. unfold SECURITY.email. split.
  - intros H. apply Matches_Seq in H as (local & s2 & -> & H1 & H2).
    apply Matches_Seq in H2 as (at' & s3 & -> & H2 & H3).
    apply Matches_Seq in H3 as (domain & s4 & -> & H3 & H4).
    apply Matches_Seq in H4 as (dot & tld & -> & H4 & H5).
    apply Matches_Class in H2 as (c & -> & Hc).
    apply Matches_Class in H4 as (c' & -> & Hc').
    unfold isChar in Hc, Hc'. apply Ascii.eqb_eq in Hc, Hc'. subst c c'.
    apply Matches_Plus_Class in H1, H3, H5.
    exists local, domain, tld. auto.
  - intros (local & domain & tld & -> & H1 & H2 & H3).
    apply Matches_Plus_Class in H1, H2, H3.
    apply MSeq; [assumption|].
    apply (MSeq (Class (isChar "@")) _ "@"); [now constructor|].
    apply MSeq; [assumption|].
    apply (MSeq (Class (isChar ".")) _ "."); [now constructor | assumption].
Qed.

(** X3. An address the e-mail pattern accepts has exactly one at sign, no
    white space, and a full stop after the at sign with text on both sides. *)
Theorem email_pattern_shape (s : string) :
  test SECURITY.email s = true ->
  countChar "@" s = 1 /\
  allChars notWhiteSpace s = true /\
  exists local domain tld,
    s = (local ++ "@" ++ domain ++ "." ++ tld)%string /\
    local <> EmptyString /\ domain <> EmptyString /\ tld <> EmptyString.
Proof.
  intros H. apply email_language in H
    as (local & domain & tld & -> & [N1 H1] & [N2 H2] & [N3 H3]).
  assert (W : forall c, SECURITY.notSpaceNorAt c = true -> notWhiteSpace c = true).
  { intros c. unfold SECURITY.notSpaceNorAt, notWhiteSpace.
    rewrite negb_orb. intros Hc. now apply andb_true_iff in Hc as [Hc _]. }
  assert (A : SECURITY.notSpaceNorAt "@" = false) by reflexivity.
  split; [|split].
  - rewrite !countChar_append.
    rewrite (countChar_none _ _ _ A H1), (countChar_none _ _ _ A H2),
      (countChar_none _ _ _ A H3).
    reflexivity.
  - rewrite !allChars_append.
    rewrite (allChars_weaken _ _ _ W H1), (allChars_weaken _ _ _ W H2),
      (allChars_weaken _ _ _ W H3).
    reflexivity.
  - exists local, domain, tld. auto.
Qed.

Lemma email_pattern_shape_witness :
  countChar "@" "a@b.co" = 1 /\ allChars notWhiteSpace "a@b.co" = true.
Proof.
  destruct (email_pattern_shape "a@b.co") as (H1 & H2 & _); [reflexivity|].
  split; assumption.
Defined.

(** ** Escaping *)

Lemma replaceChar_no_markup (c : ascii) :
  ~ occurs "<" (SECURITY.replaceChar c) /\ ~ occurs ">" (SECURITY.replaceChar c).
Proof.
  assert (T : forall x s, (forall y, occurs y s -> y <> x) -> ~ occurs x s).
  { intros x s H Hx. exact (H x Hx eq_refl). }
  unfold SECURITY.replaceChar.
  destruct (Ascii.eqb_spec c "&");
    [split; apply T; simpl; intros y H;
     repeat (destruct H as [<-|H]; [discriminate|]); destruct H|].
  destruct (Ascii.eqb_spec c "<");
    [split; apply T; simpl; intros y H;
     repeat (destruct H as [<-|H]; [discriminate|]); destruct H|].
  destruct (Ascii.eqb_spec c ">");
    [split; apply T; simpl; intros y H;
     repeat (destruct H as [<-|H]; [discriminate|]); destruct H|].
  destruct (JsString.code c =? 160);
    [split; apply T; simpl; intros y H;
     repeat (destruct H as [<-|H]; [discriminate|]); destruct H|].
  simpl. split; intros [H|[]]; congruence.
Qed.

Lemma replaceChar_cases (c : ascii) :
  (plainChar c = true -> SECURITY.replaceChar c = String c EmptyString) /\
  (plainChar c = false -> 2 <= String.length (SECURITY.replaceChar c)).
Proof.
  unfold plainChar, SECURITY.replaceChar.
  destruct (Ascii.eqb c "&"); [simpl; split; [discriminate | lia]|].
  destruct (Ascii.eqb c "<"); [simpl; split; [discriminate | lia]|].
  destruct (Ascii.eqb c ">"); [simpl; split; [discriminate | lia]|].
  destruct (JsString.code c =? 160); simpl; split; try discriminate; auto; lia.
Qed.

Lemma sanitizeInput_length (input : string) :
  String.length input <= String.length (SECURITY.sanitizeInput input) /\
  (allChars plainChar input = false ->
   String.length input < String.length (SECURITY.sanitizeInput input)).
Proof.
  induction input as [|c r [IH1 IH2]]; simpl.
  - split; [lia | discriminate].
  - rewrite length_append. destruct (replaceChar_cases c) as [P1 P2].
    destruct (plainChar c) eqn:Pc.
    + rewrite (P1 eq_refl). simpl. split; [lia|]. intros H. specialize (IH2 H). lia.
    + specialize (P2 eq_refl). split; [lia | intros _; lia].
Qed.

(** X4. The result of [sanitizeInput] contains no angle bracket, and it is
    the text given exactly when the text has no ampersand, angle bracket or
    no-break space; a message with one of these is displayed with the
    escape in place of the character. *)
Theorem sanitizeInput_escapes_markup (input : string) :
  ~ occurs "<" (SECURITY.sanitizeInput input) /\
  ~ occurs ">" (SECURITY.sanitizeInput input) /\
  (SECURITY.sanitizeInput input = input <-> allChars plainChar input = true).
Proof.
  split; [|split].
  - induction input as [|c r IH]; simpl; [tauto|].
    destruct (replaceChar_no_markup c) as [R1 R2].
    intros H. apply occurs_append in H. tauto.
  - induction input as [|c r IH]; simpl; [tauto|].
    destruct (replaceChar_no_markup c) as [R1 R2].
    intros H. apply occurs_append in H. tauto.
  - split.
    + intros E. destruct (allChars plainChar input) eqn:P; [reflexivity|].
      destruct (sanitizeInput_length input) as [_ L]. specialize (L P).
      rewrite E in L. lia.
    + induction input as [|c r IH]; simpl; [reflexivity|].
      intros H. apply andb_true_iff in H as [Hc Hr].
      rewrite (IH Hr). destruct (replaceChar_cases c) as [P1 _].
      now rewrite (P1 Hc).
Qed.

Lemma sanitizeInput_escapes_markup_witness :
  SECURITY.sanitizeInput "This field is required" = "This field is required" /\
  SECURITY.sanitizeInput "Terms & conditions" <> "Terms & conditions".
Proof.
  split.
  - apply (proj2 (proj2 (proj2 (sanitizeInput_escapes_markup "This field is required")))).
    reflexivity.
  - intros E.
    apply (proj1 (proj2 (proj2 (sanitizeInput_escapes_markup "Terms & conditions")))) in E.
    discriminate E.
Defined.

(** ** The two e-mail checks *)

Lemma trimStart_fixed (s : string) :
  allChars notWhiteSpace s = true -> JsString.trimStart s = s.
Proof.
  destruct s as [|c s]; simpl; [reflexivity|].
  unfold notWhiteSpace. intros H. apply andb_true_iff in H as [Hc _].
  apply negb_true_iff in Hc. now rewrite Hc.
Qed.

Lemma trimEnd_fixed (s : string) :
  allChars notWhiteSpace s = true -> JsString.trimEnd s = s.
Proof.
  induction s as [|c s IH]; simpl; [reflexivity|].
  unfold notWhiteSpace at 1. intros H. apply andb_true_iff in H as [Hc Hs].
  apply negb_true_iff in Hc. rewrite (IH Hs), Hc.
  destruct s; reflexivity.
Qed.

Lemma trim_fixed (s : string) :
  allChars notWhiteSpace s = true -> JsString.trim s = s.
Proof.
  intros H. unfold JsString.trim. rewrite (trimStart_fixed s H). now apply trimEnd_fixed.
Qed.

Lemma validateField_eval (field : nat) (st : App) :
  eval (validateField field) st =
  match verdict (eval (deref field) st) with Some _ => false | None => true end.
Proof.
  unfold eval at 1. rewrite validateField_run. cbv zeta.
  destruct (verdict (eval (deref field) st)); reflexivity.
Qed.

Lemma isAsciiSpace_isWhiteSpace (c : ascii) :
  JsString.isAsciiSpace c = true -> JsString.isWhiteSpace c = true.
Proof.
  unfold JsString.isAsciiSpace, JsString.isWhiteSpace. cbv zeta.
  rewrite !orb_true_iff, andb_true_iff, !Nat.eqb_eq, !Nat.leb_le. lia.
Qed.

Lemma isNewline_isAsciiSpace (c : ascii) :
  isNewline c = true -> JsString.isAsciiSpace c = true.
Proof.
  unfold isNewline, JsString.isAsciiSpace. cbv zeta.
  rewrite !orb_true_iff, !Nat.eqb_eq. lia.
Qed.

Lemma not_isAsciiSpace (c : ascii) :
  notWhiteSpace c = true -> JsString.isAsciiSpace c = false.
Proof.
  unfold notWhiteSpace. intros H. apply negb_true_iff in H.
  destruct (JsString.isAsciiSpace c) eqn:E; [|reflexivity].
  apply isAsciiSpace_isWhiteSpace in E. congruence.
Qed.

Lemma not_isNewline (c : ascii) : JsString.isAsciiSpace c = false -> isNewline c = false.
Proof.
  intros H. destruct (isNewline c) eqn:E; [|reflexivity].
  apply isNewline_isAsciiSpace in E. congruence.
Qed.

Lemma stripNewlines_fixed (s : string) :
  allChars (fun c => negb (JsString.isAsciiSpace c)) s = true -> stripNewlines s = s.
Proof.
  induction s as [|c s IH]; simpl; [reflexivity|].
  intros H. apply andb_true_iff in H as [Hc Hs]. apply negb_true_iff in Hc.
  now rewrite (not_isNewline c Hc), (IH Hs).
Qed.

Lemma stripStart_fixed (s : string) :
  allChars (fun c => negb (JsString.isAsciiSpace c)) s = true -> stripStart s = s.
Proof.
  destruct s as [|c s]; simpl; [reflexivity|].
  intros H. apply andb_true_iff in H as [Hc _]. apply negb_true_iff in Hc.
  now rewrite Hc.
Qed.

Lemma stripEnd_fixed (s : string) :
  allChars (fun c => negb (JsString.isAsciiSpace c)) s = true -> stripEnd s = s.
Proof.
  induction s as [|c s IH]; simpl; [reflexivity|].
  intros H. apply andb_true_iff in H as [Hc Hs]. apply negb_true_iff in Hc.
  rewrite (IH Hs), Hc. destruct s; reflexivity.
Qed.

(** An e-mail control holds a text without ASCII white space as it is. *)
Lemma valueSanitization_fixed (s : string) :
  allChars (fun c => negb (JsString.isAsciiSpace c)) s = true ->
  valueSanitization "email" s = s.
Proof.
  intros H. unfold valueSanitization. cbn [JsString.mem existsb String.eqb Ascii.eqb
                                            Bool.eqb orb].
  now rewrite (stripNewlines_fixed s H), (stripStart_fixed s H), (stripEnd_fixed s H).
Qed.



(** ** Submission data *)

Lemma get_store_same (key : string) (v : jsvalue) (d : payload) :
  get key (store key v d) = Some v.
Proof.
  induction d as [|[k w] r IH]; simpl.
  - now rewrite String.eqb_refl.
  - destruct (String.eqb key k) eqn:E; simpl; rewrite E; [reflexivity | exact IH].
Qed.

Lemma get_store_other (key key' : string) (v : jsvalue) (d : payload) :
  key' <> key -> get key' (store key v d) = get key' d.
Proof.
  intros N. induction d as [|[k w] r IH]; simpl.
  - apply String.eqb_neq in N. now rewrite N.
  - destruct (String.eqb key k) eqn:E; simpl.
    + apply String.eqb_eq in E. subst k.
      apply String.eqb_neq in N. now rewrite N.
    + now rewrite IH.
Qed.

Lemma get_put_same (key : string) (v : jsvalue) (d : payload) :
  key <> "__proto__" -> get key (put key v d) = Some v.
Proof.
  intros N. unfold put. apply String.eqb_neq in N. rewrite N. apply get_store_same.
Qed.

Lemma get_put_other (key key' : string) (v : jsvalue) (d : payload) :
  key' <> key -> get key' (put key v d) = get key' d.
Proof.
  intros N. unfold put. destruct (String.eqb key "__proto__"); [reflexivity|].
  now apply get_store_other.
Qed.

Lemma assoc_app (key : string) (l1 l2 : list (string * string)) :
  assoc key (l1 ++ l2) =
  match assoc key l1 with Some v => Some v | None => assoc key l2 end.
Proof.
  induction l1 as [|[k v] r IH]; simpl; [reflexivity|].
  destruct (String.eqb key k); [reflexivity | exact IH].
Qed.

(** What the loop of [prepareSubmissionData] leaves under a key: the last
    value listed for it, except that nothing is stored under [__proto__]. *)
Lemma get_collected (key : string) (formData : list (string * string)) (acc : payload) :
  get key (fold_left (fun data kv => put (fst kv) (VStr (snd kv)) data) formData acc) =
  if String.eqb key "__proto__" then get key acc
  else match lastValue key formData with
       | Some v => Some (VStr v)
       | None => get key acc
       end.
Proof.
  unfold lastValue. revert acc.
  induction formData as [|[k v] r IH]; intros acc; simpl.
  - now destruct (String.eqb key "__proto__").
  - rewrite IH, assoc_app. simpl.
    destruct (String.eqb key "__proto__") eqn:P.
    + apply String.eqb_eq in P. subst key. unfold put.
      destruct (String.eqb k "__proto__") eqn:K; [reflexivity|].
      apply get_store_other. intros <-. now rewrite String.eqb_refl in K.
    + destruct (assoc key (rev r)); [reflexivity|].
      destruct (String.eqb key k) eqn:E.
      * apply String.eqb_eq in E. subst k. apply get_put_same.
        now apply String.eqb_neq.
      * apply get_put_other. now apply String.eqb_neq.
Qed.

(** X6. In the data [prepareSubmissionData] builds, [formType] and
    [timestamp] are the classified type and the current time, whatever the
    form has under these names; every other name carries the last value the
    form lists for it, except [__proto__], under which a plain object
    stores nothing. *)
Theorem prepareSubmissionData_entries
  (formData : list (string * string)) (formType : string) (st : App) :
  let data := eval (prepareSubmissionData formData formType) st in
  get "formType" data = Some (VStr formType) /\
  get "timestamp" data = Some (VInstant (now st)) /\
  (forall key, key <> "formType" -> key <> "timestamp" ->
     get key data =
     if String.eqb key "__proto__" then None
     else option_map VStr (lastValue key formData)) /\
  exec (prepareSubmissionData formData formType) st = st.
Proof.
  unfold prepareSubmissionData, eval, exec, bind, gets, ret. simpl.
  split; [|split; [|split]].
  - rewrite get_put_other by discriminate. apply get_put_same. discriminate.
  - apply get_put_same. discriminate.
  - intros key N1 N2.
    rewrite !get_put_other by assumption.
    rewrite get_collected. simpl.
    destruct (String.eqb key "__proto__"); [reflexivity|].
    now destruct (lastValue key formData).
  - reflexivity.
Qed.

Lemma prepareSubmissionData_entries_witness :
  get "email"
    (eval (prepareSubmissionData
             [("email", "a@b.co"); ("__proto__", "x"); ("email", "c@d.io")] "contact")
       Sample.app0) = Some (VStr "c@d.io") /\
  get "__proto__"
    (eval (prepareSubmissionData
             [("email", "a@b.co"); ("__proto__", "x"); ("email", "c@d.io")] "contact")
       Sample.app0) = None.
Proof.
  destruct (prepareSubmissionData_entries
              [("email", "a@b.co"); ("__proto__", "x"); ("email", "c@d.io")] "contact"
              Sample.app0) as (_ & _ & H & _).
  split.
  - apply (H "email"); discriminate.
  - apply (H "__proto__"); discriminate.
Defined.

(** ** The event log only grows *)

Lemma recorded_same (st st' : App) :
  now st' = now st -> eventHistory st' = eventHistory st -> gtag st' = gtag st ->
  recorded st st'.
Proof.
  intros Hn Hh Hg. split; [exact Hn|]. exists []. split; [|split].
  - now rewrite app_nil_r.
  - rewrite Hg. destruct (gtag st); simpl; [now rewrite app_nil_r | reflexivity].
  - constructor.
Qed.

Lemma recorded_trans (a b c : App) : recorded a b -> recorded b c -> recorded a c.
Proof.
  intros (Hn1 & e1 & Hh1 & Hg1 & Ht1) (Hn2 & e2 & Hh2 & Hg2 & Ht2).
  split; [congruence|]. exists (e1 ++ e2). split; [|split].
  - rewrite Hh2, Hh1. now rewrite app_assoc.
  - rewrite Hg2, Hg1. destruct (gtag a); simpl; [|reflexivity].
    now rewrite map_app, app_assoc.
  - apply Forall_app. split; [exact Ht1|].
    rewrite Hn1 in Ht2. exact Ht2.
Qed.

Lemma recorder_ret {A : Type} (a : A) : recorder (ret a).
Proof. intro st. now apply recorded_same. Qed.

Lemma recorder_gets {A : Type} (f : App -> A) : recorder (gets f).
Proof. intro st. now apply recorded_same. Qed.

Lemma recorder_bind {A B : Type} (m : M A) (k : A -> M B) :
  recorder m -> (forall a, recorder (k a)) -> recorder (bind m k).
Proof.
  intros Hm Hk st. rewrite run_bind.
  eapply recorded_trans; [apply Hm | apply Hk].
Qed.

Lemma recorder_forEach {A : Type} (l : list A) (f : A -> M unit) :
  (forall x, recorder (f x)) -> recorder (forEach l f).
Proof.
  intros H. induction l as [|x r IH]; simpl.
  - apply recorder_ret.
  - apply recorder_bind; auto.
Qed.

Lemma recorder_forEachIndexed {A : Type} (l : list A) (f : A -> nat -> M unit) (n : nat) :
  (forall x i, recorder (f x i)) -> recorder (forEachIndexed n l f).
Proof.
  intros H. revert n. induction l as [|x r IH]; intros n; simpl.
  - apply recorder_ret.
  - apply recorder_bind; auto.
Qed.

Lemma recorder_pageOnly {A : Type} (m : M A) : pageOnly m -> recorder m.
Proof.
  intros H st. destruct (H st) as (Hn & Hh & Hg & _). now apply recorded_same.
Qed.

Lemma recorder_readOnly {A : Type} (m : M A) : readOnly m -> recorder m.
Proof. intros H st. rewrite H. now apply recorded_same. Qed.

Lemma recorder_modify (f : App -> App) :
  (forall st, now (f st) = now st /\ eventHistory (f st) = eventHistory st /\
              gtag (f st) = gtag st) ->
  recorder (modify f).
Proof. intros H st. destruct (H st) as (Hn & Hh & Hg). now apply recorded_same. Qed.

Lemma recorder_trackEvent (eventName : string) (d : payload) :
  recorder (trackEvent eventName d).
Proof.
  intro st. split.
  - unfold trackEvent, bind, modify. simpl. now destruct (gtag st).
  - exists [mkEvent eventName d (now st)]. split; [|split].
    + unfold trackEvent, bind, modify. simpl. now destruct (gtag st).
    + unfold trackEvent, bind, modify. simpl.
      destruct (gtag st) eqn:E; simpl; rewrite ?E; reflexivity.
    + now constructor.
Qed.

Lemma recorder_modifyPage (f : document -> document) : recorder (modifyPage f).
Proof. apply recorder_modify. intro st. auto. Qed.

Lemma recorder_deref (u : nat) : recorder (deref u).
Proof. apply recorder_gets. Qed.

Lemma recorder_setTimeout (a : task) (ms : Z) : recorder (setTimeout a ms).
Proof. apply recorder_modify. intro st. auto. Qed.

Lemma recorder_requestAnimationFrame (a : task) : recorder (requestAnimationFrame a).
Proof. apply recorder_setTimeout. Qed.

Lemma recorder_unobserve (o t : nat) : recorder (unobserve o t).
Proof. apply recorder_modify. intro st. auto. Qed.

Lemma recorder_when (b : bool) (m : M unit) : recorder m -> recorder (when b m).
Proof. destruct b; simpl; [auto | intros _; apply recorder_ret]. Qed.

Create HintDb recorder.

#[export] Hint Resolve recorder_ret recorder_gets recorder_trackEvent recorder_modifyPage
  recorder_deref recorder_setTimeout recorder_requestAnimationFrame
  recorder_unobserve : recorder.

#[export] Hint Extern 1 (recorder (modify _)) =>
  (apply recorder_modify; intro; repeat split) : recorder.

(** Splits a computation along its binds and branches. *)
Ltac recorder :=
  repeat first
    [ progress auto with recorder
    | apply recorder_pageOnly; solve [auto with frame]
    | apply recorder_readOnly; solve [auto using readOnly_FormData, readOnly_getFormType,
                                        getServiceType_readOnly]
    | apply recorder_when
    | apply recorder_bind; [ | intro ]
    | apply recorder_forEach; intro
    | apply recorder_forEachIndexed; intros
    | match goal with
      | |- recorder (if ?b then _ else _) => destruct b
      | |- recorder (match ?x with _ => _ end) => destruct x
      end ].

Lemma recorder_handleFormSubmissionStart (form : nat) :
  recorder (handleFormSubmissionStart form).
Proof. unfold handleFormSubmissionStart, prepareSubmissionData, submitFormStart. recorder. Qed.

Lemma recorder_showMessage (message type : string) (duration : Z) :
  recorder (showMessage message type duration).
Proof. unfold showMessage, createElement. recorder. Qed.

#[export] Hint Resolve recorder_handleFormSubmissionStart recorder_showMessage : recorder.

Lemma recorder_runTask (t : task) : recorder (runTask t).
Proof.
  destruct t; simpl; unfold hideMessage, handleFormSubmissionSettle, submitForm,
    showFormSuccess, showFormError; recorder.
Qed.

Lemma recorder_fire (i : nat) : recorder (fire i).
Proof.
  unfold fire. apply recorder_bind; [apply recorder_gets | intro ts].
  destruct (nth_error ts i); [|apply recorder_ret].
  apply recorder_bind; [|intro; apply recorder_runTask].
  apply recorder_modify. intro st. auto.
Qed.

Lemma recorder_triggerBusinessAnimations (section : nat) :
  recorder (triggerBusinessAnimations section).
Proof. unfold triggerBusinessAnimations. recorder. Qed.

#[export] Hint Resolve recorder_triggerBusinessAnimations : recorder.

Lemma recorder_runCallback (self : nat) (cb : callback) (entries : list entry) :
  recorder (runCallback self cb entries).
Proof. destruct cb; simpl; recorder. Qed.

Lemma recorder_crossing (o t : nat) (inwards : bool) : recorder (crossing o t inwards).
Proof.
  unfold crossing, notify. apply recorder_bind; [apply recorder_gets | intro obs].
  destruct (nth_error obs o); [|apply recorder_ret].
  destruct (filter _ _); [apply recorder_ret | apply recorder_runCallback].
Qed.

Lemma recorder_onScroll (y h ih : Z) : recorder (onScroll y h ih).
Proof. unfold onScroll. recorder. Qed.

Lemma react_recorded (h : happening) (st : App) :
  let st' := exec (react h) st in
  now st' = (now st + match h with Passes ms => ms | _ => 0 end)%Z /\
  exists evs,
    eventHistory st' = eventHistory st ++ evs /\
    gtag st' = option_map (fun calls => calls ++ map gtagCall evs) (gtag st) /\
    Forall (fun e => timestamp e = now st) evs.
Proof.
  assert (R : forall m : M unit, recorder m ->
            now (exec m st) = (now st + 0)%Z /\
            exists evs,
              eventHistory (exec m st) = eventHistory st ++ evs /\
              gtag (exec m st) =
                option_map (fun calls => calls ++ map gtagCall evs) (gtag st) /\
              Forall (fun e => timestamp e = now st) evs).
  { intros m Hm. destruct (Hm st) as (Hn & evs & H). split; [|now exists evs].
    unfold exec. rewrite Hn. lia. }
  destruct h; cbv zeta.
  - apply R. simpl. recorder.
  - apply R. apply recorder_fire.
  - apply R. apply recorder_crossing.
  - apply R. apply recorder_onScroll.
  - apply R. simpl. recorder.
  - apply R. simpl. recorder.
  - simpl. split; [reflexivity|]. exists []. split; [|split].
    + now rewrite app_nil_r.
    + destruct (gtag st); simpl; [now rewrite app_nil_r | reflexivity].
    + constructor.
Qed.

Lemma visit_cons (h : happening) (hs : list happening) (st : App) :
  exec (visit (h :: hs)) st = exec (visit hs) (exec (react h) st).
Proof. unfold visit. simpl. now rewrite exec_bind. Qed.

Lemma visit_now (hs : list happening) (st : App) :
  now (exec (visit hs) st) = (now st + elapsed hs)%Z.
Proof.
  revert st. induction hs as [|h hs IH]; intros st.
  - simpl. unfold exec. simpl. lia.
  - rewrite visit_cons, IH.
    destruct (react_recorded h st) as [Hn _]. cbv zeta in Hn. rewrite Hn.
    destruct h; simpl; lia.
Qed.

Lemma elapsed_nonneg (hs : list happening) : clockAdvances hs -> (0 <= elapsed hs)%Z.
Proof.
  induction hs as [|h hs IH]; intros H; simpl; [lia|].
  assert (0 <= elapsed hs)%Z by (apply IH; intros ms Hm; apply H; now right).
  destruct h; try assumption.
  assert (0 <= ms)%Z by (apply H; now left). lia.
Qed.

Lemma StronglySorted_le_app (l1 l2 : list Z) (c : Z) :
  StronglySorted Z.le l1 -> StronglySorted Z.le l2 ->
  Forall (fun x => (x <= c)%Z) l1 -> Forall (fun y => (c <= y)%Z) l2 ->
  StronglySorted Z.le (l1 ++ l2).
Proof.
  intros S1 S2 F1 F2. induction S1 as [|x l1 S1 IH Hx]; simpl; [exact S2|].
  inversion F1; subst. constructor; [auto|].
  apply Forall_app. split; [exact Hx|].
  eapply Forall_impl; [|exact F2]. simpl. intros. lia.
Qed.

Lemma StronglySorted_constant (l : list Z) (c : Z) :
  Forall (fun x => x = c) l -> StronglySorted Z.le l.
Proof.
  induction 1 as [|x l Hx Hl IH]; constructor; [exact IH|].
  eapply Forall_impl; [|exact Hl]. simpl. intros. lia.
Qed.

(** X7. Whatever happens during a visit, the event log only grows, the
    analytics hook, when the page has one, receives exactly the events
    logged, in the same order, and while the clock does not go backwards the
    new entries are in the order of their time stamps, all within the
    visit. *)
Theorem event_log_grows_in_order (hs : list happening) (st : App) :
  let st' := exec (visit hs) st in
  exists evs,
    eventHistory st' = eventHistory st ++ evs /\
    gtag st' = option_map (fun calls => calls ++ map gtagCall evs) (gtag st) /\
    (clockAdvances hs ->
     StronglySorted Z.le (map timestamp evs) /\
     Forall (fun e => (now st <= timestamp e <= now st')%Z) evs).
Proof.
  cbv zeta. revert st. induction hs as [|h hs IH]; intros st.
  - exists []. unfold visit, exec. simpl. split; [|split].
    + now rewrite app_nil_r.
    + destruct (gtag st); simpl; [now rewrite app_nil_r | reflexivity].
    + intros _. split; constructor.
  - rewrite visit_cons.
    destruct (react_recorded h st) as (Hn & e1 & Hh1 & Hg1 & Ht1). cbv zeta in *.
    destruct (IH (exec (react h) st)) as (e2 & Hh2 & Hg2 & Ht2).
    exists (e1 ++ e2). split; [|split].
    + rewrite Hh2, Hh1. now rewrite app_assoc.
    + rewrite Hg2, Hg1. destruct (gtag st); simpl; [|reflexivity].
      now rewrite map_app, app_assoc.
    + intros Hc.
      assert (Hs : (0 <= match h with Passes ms => ms | _ => 0 end)%Z).
      { destruct h; try lia. apply Hc. now left. }
      assert (Hc' : clockAdvances hs) by (intros ms Hm; apply Hc; now right).
      pose proof (elapsed_nonneg hs Hc') as He.
      pose proof (visit_now hs (exec (react h) st)) as Hv.
      destruct (Ht2 Hc') as [S2 F2].
      split.
      * rewrite map_app.
        apply (StronglySorted_le_app _ _ (now st)).
        -- apply (StronglySorted_constant _ (now st)).
           apply Forall_map. exact Ht1.
        -- exact S2.
        -- apply Forall_map. eapply Forall_impl; [|exact Ht1]. simpl. intros. lia.
        -- apply Forall_map. eapply Forall_impl; [|exact F2]. simpl. intros. lia.
      * apply Forall_app. split.
        -- eapply Forall_impl; [|exact Ht1]. simpl. intros. lia.
        -- eapply Forall_impl; [|exact F2]. simpl. intros. lia.
Qed.

Lemma event_log_grows_in_order_witness :
  let hs := [Types 3 "a@b.co"; Submits 2; Passes 2000; Fires 0; Crosses 0 5 true] in
  let st := setGtag (Some []) Sample.appObserved in
  exists evs,
    eventHistory (exec (visit hs) st) = evs /\
    gtag (exec (visit hs) st) = Some (map gtagCall evs) /\
    StronglySorted Z.le (map timestamp evs).
Proof.
  cbv zeta.
  destruct (event_log_grows_in_order
              [Types 3 "a@b.co"; Submits 2; Passes 2000; Fires 0; Crosses 0 5 true]
              (setGtag (Some []) Sample.appObserved)) as (evs & Hh & Hg & Hs).
  exists evs. split; [exact Hh|]. split; [exact Hg|].
  apply Hs. intros ms H. simpl in H.
  repeat (destruct H as [H|H]; [inversion H; lia|]). destruct H.
Defined.

(** ** Leaving the page *)

(** X8. When the visitor leaves, the page records [page_exit] and then one
    [time_on_page] event; the seconds it reports are within half a second
    of the time gone by since [trackTimeOnPage] ran, and are not negative
    while the clock does not go backwards. *)
Theorem time_on_page_measures_the_visit (hs : list happening) (st : App) :
  let startTime := eval trackTimeOnPage st in
  let leaving := exec (visit hs) st in
  let left := exec (onBeforeUnload startTime) leaving in
  exists seconds,
    added leaving left =
      [mkEvent "page_exit" [] (now leaving);
       mkEvent "time_on_page" [("seconds", VNum (Num seconds))] (now leaving)] /\
    (1000 * seconds - 500 <= elapsed hs < 1000 * seconds + 500)%Z /\
    (clockAdvances hs -> (0 <= seconds)%Z).
Proof.
  cbv zeta. set (leaving := exec (visit hs) st).
  exists (roundSeconds (now leaving - now st)).
  assert (E : (now leaving - now st = elapsed hs)%Z).
  { unfold leaving. rewrite visit_now. lia. }
  split; [|split].
  - apply added_app. unfold onBeforeUnload.
    rewrite exec_bind. cbv beta. rewrite exec_bind. cbv beta.
    destruct (trackEvent_history "page_exit" [] leaving) as (H1 & N1 & _).
    set (st1 := exec (trackEvent "page_exit" []) leaving) in *.
    change (eval (gets now) st1) with (now st1).
    change (exec (gets now) st1) with st1.
    destruct (trackEvent_history "time_on_page"
                [("seconds", VNum (Num (roundSeconds (now st1 - eval trackTimeOnPage st))))]
                st1) as (H2 & _).
    rewrite H2, H1, N1. rewrite <- app_assoc. reflexivity.
  - rewrite E. unfold roundSeconds.
    pose proof (Z.mul_div_le (elapsed hs + 500) 1000 ltac:(lia)).
    pose proof (Z.mul_succ_div_gt (elapsed hs + 500) 1000 ltac:(lia)).
    lia.
  - intros Hc. rewrite E. unfold roundSeconds.
    pose proof (elapsed_nonneg hs Hc).
    apply Z.div_pos; lia.
Qed.

Lemma time_on_page_measures_the_visit_witness :
  exists seconds,
    added (exec (visit [Passes 61400]) Sample.app0)
      (exec (onBeforeUnload 0) (exec (visit [Passes 61400]) Sample.app0)) =
      [mkEvent "page_exit" [] 61400%Z;
       mkEvent "time_on_page" [("seconds", VNum (Num seconds))] 61400%Z] /\
    (0 <= seconds)%Z.
Proof.
  destruct (time_on_page_measures_the_visit [Passes 61400] Sample.app0)
    as (seconds & H1 & _ & H3).
  exists seconds. split; [exact H1|].
  apply H3. intros ms [H|[]]. inversion H. lia.
Defined.

(** ** The conversion funnel *)

Lemma quiet_ret {A : Type} (a : A) : quiet (ret a).
Proof. intro st. auto. Qed.

Lemma quiet_readOnly {A : Type} (m : M A) : readOnly m -> quiet m.
Proof. intros H st. rewrite H. auto. Qed.

Lemma quiet_handleFormSubmissionStart (form : nat) :
  quiet (handleFormSubmissionStart form).
Proof.
  unfold handleFormSubmissionStart.
  apply quiet_bind; [apply quiet_readOnly, readOnly_FormData | intro formData].
  apply quiet_bind; [apply quiet_readOnly, readOnly_getFormType | intro formType].
  apply quiet_bind; [apply pageOnly_quiet, pageOnly_validateForm | intro valid].
  destruct valid; simpl.
  - apply quiet_bind; [apply pageOnly_quiet, pageOnly_showFormLoading | intros _].
    apply quiet_bind; [|intro data].
    + unfold prepareSubmissionData. apply quiet_bind; [|intro; apply quiet_ret].
      intro st. auto.
    + apply quiet_bind; [apply quiet_setTimeout | intros _; apply quiet_ret].
  - apply quiet_bind; [apply pageOnly_quiet, pageOnly_hideFormLoading | intros _].
    apply quiet_ret.
Qed.

Lemma funnelListeners_history (l : list (nat * string)) (st : App) :
  let st' := exec (forEach l (fun l =>
                     trackEvent "conversion_funnel" [("stage", VStr (snd l))])) st in
  eventHistory st' =
    eventHistory st ++
    map (fun l => mkEvent "conversion_funnel" [("stage", VStr (snd l))] (now st)) l /\
  now st' = now st /\ timers st' = timers st.
Proof.
  cbv zeta. revert st. induction l as [|x l IH]; intros st.
  - unfold exec. simpl. now rewrite app_nil_r.
  - simpl forEach. rewrite exec_bind. cbv beta.
    destruct (trackEvent_history "conversion_funnel" [("stage", VStr (snd x))] st)
      as (Hh & Hn & _ & Ht & _).
    destruct (IH (exec (trackEvent "conversion_funnel" [("stage", VStr (snd x))]) st))
      as (Hh' & Hn' & Ht').
    rewrite Hh', Hn', Ht', Hh, Hn, Ht. simpl. now rewrite <- app_assoc.
Qed.

Lemma filter_all {A : Type} (p : A -> bool) (l : list A) :
  (forall x, In x l -> p x = true) -> filter p l = l.
Proof.
  induction l as [|x l IH]; intros H; simpl; [reflexivity|].
  rewrite (H x (or_introl eq_refl)). f_equal. apply IH. intros y Hy. apply H. now right.
Qed.

Lemma onSubmit_history (funnel : list (nat * string)) (form : nat) (st : App) :
  let started := exec (handleFormSubmissionStart form) st in
  let st' := exec (onSubmit funnel form) st in
  eventHistory st' =
    eventHistory st ++
    map (fun l => mkEvent "conversion_funnel" [("stage", VStr (snd l))] (now st))
      (filter (fun l => fst l =? form) funnel) /\
  timers st' = timers started.
Proof.
  cbv zeta. unfold onSubmit, funnelListeners. rewrite exec_bind. cbv beta.
  destruct (quiet_handleFormSubmissionStart form st) as [Hh Hn].
  fold (exec (handleFormSubmissionStart form) st) in Hh, Hn.
  destruct (funnelListeners_history (filter (fun l => fst l =? form) funnel)
              (exec (handleFormSubmissionStart form) st)) as (Hh' & _ & Ht').
  cbv zeta in Hh', Ht'. rewrite Hh', Ht', Hh, Hn. auto.
Qed.

Lemma failed_start_keeps_timers (form : nat) (st : App) :
  someFieldFails form st -> timers (exec (handleFormSubmissionStart form) st) = timers st.
Proof.
  intros H. apply validateForm_false in H.
  unfold exec. rewrite handleFormSubmissionStart_run. cbv zeta. rewrite H. simpl.
  destruct (pageOnly_hideFormLoading form (exec (validateForm form) st))
    as (_ & _ & _ & Ht & _).
  destruct (pageOnly_validateForm form st) as (_ & _ & _ & Ht' & _).
  unfold exec in *. congruence.
Qed.



(** ** A message goes away by itself *)

Lemma getMessageContainer_state (type : string) (st : App) :
  snd (getMessageContainer type st) = st.
Proof.
  unfold getMessageContainer. rewrite run_bind. cbn [gets fst snd].
  destruct (String.eqb type "success" || String.eqb type "error"); [|reflexivity].
  destruct (querySelector _ _ _); reflexivity.
Qed.

Lemma showMessage_timers (message type : string) (duration : Z) (st : App) :
  timers (exec (showMessage message type duration) st) =
  timers st ++
  mkTimer 0 (AddShow (nextUid st)) ::
  (if (0 <? duration)%Z then [mkTimer duration (HideMessage (nextUid st))] else []).
Proof.
  unfold showMessage, exec. rewrite run_bind.
  destruct (removeExistingMessages_page st) as [_ N].
  destruct (pageOnly_removeExistingMessages st) as (_ & _ & _ & T & _).
  unfold exec in N. rewrite <- N, <- T.
  generalize (snd (removeExistingMessages st)). clear. intro st.
  rewrite run_bind.
  change (snd (createElement "div" st)) with (setNextUid (S (nextUid st)) st).
  change (fst (createElement "div" st)) with (blank (nextUid st) "div").
  cbv zeta. rewrite run_bind, getMessageContainer_state.
  rewrite run_bind. cbn [modifyPage modify fst snd].
  rewrite run_bind. cbn [requestAnimationFrame setTimeout modify fst snd].
  rewrite run_bind.
  match goal with
  | |- timers (snd (trackEvent ?e ?d ?s)) = _ =>
      destruct (trackEvent_history e d s) as (_ & _ & _ & Ht & _);
      unfold exec in Ht; rewrite Ht
  end.
  destruct (0 <? duration)%Z; cbn; rewrite <- ?app_assoc; reflexivity.
Qed.

Lemma showMessage_wellFormed (message type : string) (duration : Z) (st : App) :
  wellFormed st -> wellFormed (exec (showMessage message type duration) st).
Proof.
  intros W.
  destruct (tidy_removeExistingMessages st W) as [W1 _].
  fold (exec removeExistingMessages st) in W1.
  pose proof (showMessage_page message type duration st) as P. cbv zeta in P.
  pose proof (showMessage_nextUid message type duration st) as N.
  destruct (removeExistingMessages_page st) as [_ N1].
  set (cleared := exec removeExistingMessages st) in *.
  pose proof (appendChild_wellFormed
                (eval (getMessageContainer type)
                   (setNextUid (S (nextUid cleared)) cleared))
                (messageElement message type (blank (nextUid cleared) "div"))
                cleared W1 eq_refl) as W2.
  unfold wellFormed in W2 |- *. cbn [page nextUid setPage setNextUid] in W2.
  rewrite P, N, <- N1. exact W2.
Qed.

(** The message on the page after [showMessage] is the element just
    created. *)
Lemma showMessage_newest (message type : string) (duration : Z) (st : App) :
  distinctUids (page st) ->
  exists messageDiv,
    messages (page (exec (showMessage message type duration) st)) = [messageDiv] /\
    uid messageDiv = nextUid st.
Proof.
  intro Hd. rewrite showMessage_page.
  destruct (removeExistingMessages_page st) as [Hp Hn].
  set (cleared := exec removeExistingMessages st) in *.
  set (created := setNextUid (S (nextUid cleared)) cleared).
  set (div := messageElement message type (blank (nextUid cleared) "div")).
  assert (Hnone : messages (page cleared) = []).
  { rewrite Hp. now apply removeAll_messages. }
  destruct (eval (getMessageContainer type) created) as [|c] eqn:C.
  - exists (setDepth 0 div). split; [|exact Hn].
    unfold appendChild, messages, querySelectorAll, descendants in *.
    rewrite filter_app, Hnone. cbn [filter app].
    unfold div. now rewrite messageElement_is_message.
  - apply getMessageContainer_within in C.
    change (page created) with (page cleared) in C.
    destruct (insertUnder_split c div (page cleared) C) as (l1 & l2 & k & E1 & E2).
    exists (setDepth k div). split; [|exact Hn].
    unfold appendChild, messages, querySelectorAll, descendants in *.
    rewrite E2. rewrite E1, filter_app in Hnone.
    apply app_eq_nil in Hnone. destruct Hnone as [N1 N2].
    rewrite filter_app, N1. cbn [filter app]. rewrite N2.
    unfold div. now rewrite messageElement_is_message.
Qed.

Lemma update_In (u : nat) (f : element -> element) (d : document) (x : element) :
  In x (update u f d) -> exists e, In e d /\ x = if hasUid u e then f e else e.
Proof.
  unfold update. intros H. apply in_map_iff in H as (e & <- & He). now exists e.
Qed.

(** X10. [showMessage] leaves two callbacks waiting, the animation and,
    for a positive duration, the automatic hiding of the message it has
    just created; hiding schedules the removal 300 ms later, and once both
    have run the page shows no message. *)
Theorem message_hides_itself (message type : string) (duration : Z) (st : App) :
  let messageDiv := nextUid st in
  let shown := exec (showMessage message type duration) st in
  let hidden := exec (runTask (HideMessage messageDiv)) shown in
  timers shown =
    timers st ++
    mkTimer 0 (AddShow messageDiv) ::
    (if (0 <? duration)%Z then [mkTimer duration (HideMessage messageDiv)] else []) /\
  timers hidden = timers shown ++ [mkTimer 300 (Detach messageDiv)] /\
  (wellFormed st ->
   messages (page (exec (runTask (Detach messageDiv)) hidden)) = []).
Proof.
  cbv zeta. split; [apply showMessage_timers|]. split; [reflexivity|].
  intros W.
  pose proof (showMessage_wellFormed message type duration st W) as [D _].
  destruct W as [D0 _].
  destruct (showMessage_newest message type duration st D0) as (m & Hm & Hu).
  set (shown := exec (showMessage message type duration) st) in *.
  change (page (exec (runTask (Detach (nextUid st)))
                  (exec (runTask (HideMessage (nextUid st))) shown)))
    with (removeNode (nextUid st)
            (update (nextUid st) (classRemove "show") (page shown))).
  assert (K : forall e, uid (classRemove "show" e) = uid e) by reflexivity.
  assert (D' : distinctUids (update (nextUid st) (classRemove "show") (page shown))).
  { unfold distinctUids. now rewrite update_uids. }
  apply filter_none. intros x Hx.
  destruct (matchesSelector (ByClass "message") x) eqn:Mx; [exfalso | reflexivity].
  apply (removeNode_gone (nextUid st) _ D').
  pose proof Hx as Hx'. apply removeNode_In in Hx'.
  apply update_In in Hx' as (e & He & Ex).
  assert (Me : matchesSelector (ByClass "message") e = true).
  { rewrite Ex in Mx. destruct (hasUid (nextUid st) e); [|exact Mx].
    destruct (keepsKind_classRemove "show" eq_refl e) as [_ Kc].
    change (contains "message" (classRemove "show" e) = true) in Mx.
    rewrite Kc in Mx. exact Mx. }
  assert (Em : In e (messages (page shown))).
  { unfold messages, querySelectorAll. apply filter_In. now split. }
  rewrite Hm in Em. destruct Em as [<-|[]].
  assert (Ux : uid x = nextUid st).
  { rewrite Ex. destruct (hasUid (nextUid st) m); [rewrite K|]; exact Hu. }
  apply in_map_iff. exists x. split; [exact Ux | exact Hx].
Qed.

Lemma message_hides_itself_witness :
  messages
    (page (exec (runTask (Detach 100))
             (exec (runTask (HideMessage 100))
                (exec (showMessage "Saved" "success" 5000) Sample.app0)))) = [].
Proof.
  apply (proj2 (proj2 (message_hides_itself "Saved" "success" 5000 Sample.app0))).
  split.
  - unfold distinctUids. simpl.
    repeat (constructor; [simpl; intuition discriminate|]). constructor.
  - simpl. repeat (constructor; [lia|]). constructor.
Defined.

(** ** Attributes and class tokens *)

Lemma assoc_assocSet_same (k v : string) (l : list (string * string)) :
  assoc k (assocSet k v l) = Some v.
Proof.
  induction l as [|[k' v'] r IH]; simpl.
  - now rewrite String.eqb_refl.
  - destruct (String.eqb k k') eqn:E; simpl.
    + now rewrite String.eqb_refl.
    + now rewrite E.
Qed.

Lemma assoc_assocSet_other (k k' v : string) (l : list (string * string)) :
  k' <> k -> assoc k' (assocSet k v l) = assoc k' l.
Proof.
  intros N. apply String.eqb_neq in N.
  induction l as [|[k0 v0] r IH]; simpl.
  - now rewrite N.
  - destruct (String.eqb k k0) eqn:E; simpl.
    + apply String.eqb_eq in E. subst k0. now rewrite N.
    + now rewrite IH.
Qed.

Lemma assoc_filter_same (k : string) (l : list (string * string)) :
  assoc k (filter (fun kv => negb (String.eqb k (fst kv))) l) = None.
Proof.
  induction l as [|[k' v'] r IH]; simpl; [reflexivity|].
  destruct (String.eqb k k') eqn:E; simpl; [exact IH | now rewrite E].
Qed.

Lemma assoc_filter_other (k k' : string) (l : list (string * string)) :
  k' <> k -> assoc k' (filter (fun kv => negb (String.eqb k (fst kv))) l) = assoc k' l.
Proof.
  intros N. apply String.eqb_neq in N.
  induction l as [|[k0 v0] r IH]; simpl; [reflexivity|].
  destruct (String.eqb k k0) eqn:E; simpl.
  - apply String.eqb_eq in E. subst k0. now rewrite N.
  - now rewrite IH.
Qed.

Lemma mem_filter_same (c : string) (l : list string) :
  JsString.mem c (filter (fun x => negb (String.eqb c x)) l) = false.
Proof.
  induction l as [|x r IH]; simpl; [reflexivity|].
  destruct (String.eqb c x) eqn:E; simpl; [exact IH | now rewrite E].
Qed.

Lemma getAttribute_setAttribute_same (k v : string) (e : element) :
  getAttribute k (setAttribute k v e) = Some v.
Proof. apply assoc_assocSet_same. Qed.

Lemma getAttribute_setAttribute_other (k k' v : string) (e : element) :
  k' <> k -> getAttribute k' (setAttribute k v e) = getAttribute k' e.
Proof. apply assoc_assocSet_other. Qed.

Lemma getAttribute_removeAttribute_same (k : string) (e : element) :
  getAttribute k (removeAttribute k e) = None.
Proof. apply assoc_filter_same. Qed.

Lemma getAttribute_removeAttribute_other (k k' : string) (e : element) :
  k' <> k -> getAttribute k' (removeAttribute k e) = getAttribute k' e.
Proof. apply assoc_filter_other. Qed.

Lemma contains_classRemove_same (c : string) (e : element) :
  contains c (classRemove c e) = false.
Proof. apply mem_filter_same. Qed.

Lemma unmarkField_marks (f : element) :
  contains "error" (unmarkField f) = false /\
  getAttribute "aria-invalid" (unmarkField f) = None /\
  getAttribute "aria-describedby" (unmarkField f) = None.
Proof.
  unfold unmarkField. split; [|split].
  - change (contains "error" (classRemove "error" f) = false).
    apply contains_classRemove_same.
  - rewrite getAttribute_removeAttribute_other by discriminate.
    apply getAttribute_removeAttribute_same.
  - apply getAttribute_removeAttribute_same.
Qed.

Lemma markField_marks (f : element) :
  contains "error" (markField f) = true /\
  getAttribute "aria-invalid" (markField f) = Some "true" /\
  getAttribute "aria-describedby" (markField f) = Some "error".
Proof.
  unfold markField. split; [|split].
  - change (JsString.mem "error" (addTokens ["error"] (classList f)) = true).
    apply mem_addTokens_new. now left.
  - rewrite getAttribute_setAttribute_other by discriminate.
    apply getAttribute_setAttribute_same.
  - apply getAttribute_setAttribute_same.
Qed.

(** ** The marks of a validated field *)

Lemma clearFieldError_page (field : nat) (st : App) :
  exists kept,
    page (exec (clearFieldError field) st) = update field unmarkField kept /\
    (forall e, In e kept -> In e (page st)) /\
    nextUid (exec (clearFieldError field) st) = nextUid st.
Proof.
  unfold clearFieldError, exec. rewrite run_bind. cbn [gets fst snd].
  destruct (querySelector (ByClass "field-error") (parentNode field (page st)) (page st))
    as [errorDiv|].
  - exists (removeNode (uid errorDiv) (page st)). split; [reflexivity|].
    split; [|reflexivity]. intros e. apply removeNode_In.
  - exists (page st). split; [reflexivity|]. split; [auto | reflexivity].
Qed.

Lemma showFieldError_page (field : nat) (message : string) (st : App) :
  page (exec (showFieldError field message) st) =
  update field markField
    (appendChild (parentNode field (page st))
       (errorElement message (blank (nextUid st) "div")) (page st)).
Proof. reflexivity. Qed.

Lemma dropWhile_In {A : Type} (p : A -> bool) (l : list A) (x : A) :
  In x (dropWhile p l) -> In x l.
Proof.
  induction l as [|y l IH]; simpl; [auto|].
  destruct (p y); [intro H; right; auto | auto].
Qed.

Lemma ancestorsFrom_In (open : list element) (u : nat) (d : document) (a : element) :
  In a (ancestorsFrom open u d) -> In a open \/ In a d.
Proof.
  revert open. induction d as [|e r IH]; intros open; simpl; [tauto|].
  destruct (hasUid u e).
  - intros H. left. eapply dropWhile_In, H.
  - intros H. apply IH in H as [[<-|H]|H]; auto.
    left. eapply dropWhile_In, H.
Qed.

(** The parent of an element is on the page, so a child given to it is
    inserted. *)
Lemma appendChild_parentNode (field : nat) (new : element) (d : document) :
  exists l1 l2 k,
    d = l1 ++ l2 /\
    appendChild (parentNode field d) new d = l1 ++ setDepth k new :: l2.
Proof.
  unfold parentNode. destruct (ancestors field d) as [|a rest] eqn:E.
  - exists d, [], 0. simpl. now rewrite app_nil_r.
  - assert (Ha : In a d).
    { destruct (ancestorsFrom_In [] field d a) as [[]|H]; [|exact H].
      unfold ancestors in E. rewrite E. now left. }
    simpl. apply insertUnder_split. now apply in_map.
Qed.



(** X12. Editing a field gives it the text typed and takes the error marks
    off it: the class [error], [aria-invalid] and [aria-describedby]. *)
Theorem editing_clears_the_marks (field : nat) (text : string) (st : App) :
  let st' := exec (react (Types field text)) st in
  Forall (fun f =>
            value f = text /\
            contains "error" f = false /\
            getAttribute "aria-invalid" f = None /\
            getAttribute "aria-describedby" f = None)
    (filter (hasUid field) (page st')) /\
  eventHistory st' = eventHistory st /\ timers st' = timers st.
Proof.
  cbv zeta. simpl react. rewrite exec_bind. cbv beta.
  set (typed := exec (modifyPage (update field (setCurrentValue text))) st).
  destruct (clearFieldError_page field typed) as (kept & Hp & Hk & _).
  split.
  - apply Forall_forall. intros f Hf. apply filter_In in Hf as [Hf Hu].
    rewrite Hp in Hf. apply update_In in Hf as (e & He & ->).
    assert (Ue : hasUid field e = true).
    { destruct (hasUid field e) eqn:E; [reflexivity | congruence]. }
    rewrite Ue. apply Hk in He.
    change (page typed) with (update field (setCurrentValue text) (page st)) in He.
    apply update_In in He as (e0 & _ & ->).
    assert (U0 : hasUid field e0 = true).
    { destruct (hasUid field e0) eqn:E; [reflexivity | congruence]. }
    rewrite U0. split; [reflexivity|]. apply unmarkField_marks.
  - destruct (pageOnly_clearFieldError field typed) as (_ & Hh & _ & Ht & _).
    fold (exec (clearFieldError field) typed) in Hh, Ht. rewrite Hh, Ht. auto.
Qed.

(** ** The submit button while a send is pending *)

Lemma querySelectorAll_update
  (s : selector) (n : node) (u : nat) (f : element -> element) (d : document) :
  keepsShape f -> (forall e, matchesSelector s (f e) = matchesSelector s e) ->
  querySelectorAll s n (update u f d) =
  map (fun e => if hasUid u e then f e else e) (querySelectorAll s n d).
Proof.
  intros Hs Hm. unfold querySelectorAll, update.
  assert (Hd : descendants n (map (fun e => if hasUid u e then f e else e) d) =
               map (fun e => if hasUid u e then f e else e) (descendants n d)).
  { destruct n; simpl; [reflexivity|].
    apply descendantsOf_map. now apply keepsShape_update. }
  rewrite Hd. apply filter_map_same.
  intros e. destruct (hasUid u e); [apply Hm | reflexivity].
Qed.

Lemma relabel_button (form : nat) (b : bool) (t : string) (d : document) (x : element) :
  let s := ByTagAttr "button" "type" "submit" in
  let d' := match querySelector s (El form) d with
            | Some submitButton =>
                update (uid submitButton)
                  (fun e => setDisabled b (setTextContent t e)) d
            | None => d
            end in
  querySelector s (El form) d' = Some x -> disabled x = b /\ textContent x = t.
Proof.
  cbv zeta. destruct (querySelector _ (El form) d) as [b0|] eqn:Q; [|congruence].
  unfold querySelector in *. rewrite querySelectorAll_update.
  - destruct (querySelectorAll _ (El form) d) as [|y r]; [discriminate|].
    injection Q as ->. simpl. unfold hasUid. rewrite Nat.eqb_refl.
    intros [= <-]. auto.
  - intro e. repeat split.
  - intro e. reflexivity.
Qed.

Lemma showFormLoading_page (form : nat) (st : App) :
  page (exec (showFormLoading form) st) =
  match querySelector (ByTagAttr "button" "type" "submit") (El form) (page st) with
  | Some submitButton =>
      update (uid submitButton)
        (fun e => setDisabled true (setTextContent "Sending..." e)) (page st)
  | None => page st
  end.
Proof.
  unfold showFormLoading, exec. rewrite run_bind. cbn [gets fst snd].
  destruct (querySelector _ (El form) (page st)); reflexivity.
Qed.

Lemma hideFormLoading_page (form : nat) (st : App) :
  page (exec (hideFormLoading form) st) =
  match querySelector (ByTagAttr "button" "type" "submit") (El form) (page st) with
  | Some submitButton =>
      update (uid submitButton)
        (fun e => setDisabled false (setTextContent "Send Message" e)) (page st)
  | None => page st
  end.
Proof.
  unfold hideFormLoading, exec. rewrite run_bind. cbn [gets fst snd].
  destruct (querySelector _ (El form) (page st)); reflexivity.
Qed.

Lemma showFormLoading_button (form : nat) (st : App) (x : element) :
  querySelector (ByTagAttr "button" "type" "submit") (El form)
    (page (exec (showFormLoading form) st)) = Some x ->
  disabled x = true /\ textContent x = "Sending...".
Proof.
  rewrite showFormLoading_page.
  apply (relabel_button form true "Sending..." (page st) x).
Qed.

Lemma hideFormLoading_button (form : nat) (st : App) (x : element) :
  querySelector (ByTagAttr "button" "type" "submit") (El form)
    (page (exec (hideFormLoading form) st)) = Some x ->
  disabled x = false /\ textContent x = "Send Message".
Proof.
  rewrite hideFormLoading_page.
  apply (relabel_button form false "Send Message" (page st) x).
Qed.

Lemma handleFormSubmissionStart_valid (form : nat) (st : App) :
  eval (validateForm form) st = true ->
  let loading := exec (showFormLoading form) (exec (validateForm form) st) in
  let formType := eval (getFormType form) st in
  let data := eval (prepareSubmissionData (eval (FormData form) st) formType) loading in
  exec (handleFormSubmissionStart form) st =
  exec (submitFormStart form data formType) loading.
Proof.
  intros H. cbv zeta. unfold exec at 1.
  rewrite handleFormSubmissionStart_run. cbv zeta. rewrite H. reflexivity.
Qed.

Lemma valid_start (form : nat) (st : App) :
  allFieldsPass form st ->
  let started := exec (handleFormSubmissionStart form) st in
  let loading := exec (showFormLoading form) (exec (validateForm form) st) in
  page started = page loading /\
  exists data,
    timers started =
    timers st ++ [mkTimer 2000 (SettleSubmission form (eval (getFormType form) st) data)].
Proof.
  intros H. apply validateForm_true in H. cbv zeta.
  rewrite (handleFormSubmissionStart_valid form st H).
  set (loading := exec (showFormLoading form) (exec (validateForm form) st)).
  split; [reflexivity|].
  exists (eval (prepareSubmissionData (eval (FormData form) st)
                  (eval (getFormType form) st)) loading).
  assert (T : timers loading = timers st).
  { destruct (pageOnly_showFormLoading form (exec (validateForm form) st))
      as (_ & _ & _ & T1 & _).
    destruct (pageOnly_validateForm form st) as (_ & _ & _ & T2 & _).
    unfold loading, exec in *. congruence. }
  rewrite <- T. reflexivity.
Qed.



(** ** At most four scroll depths *)

Lemma trackEvent_maxScroll (eventName : string) (d : payload) (st : App) :
  maxScroll (exec (trackEvent eventName d) st) = maxScroll st.
Proof. unfold trackEvent, exec, bind, modify. simpl. now destruct (gtag st). Qed.

Lemma roundPercent_within (y d : Z) :
  (0 < d)%Z -> (0 <= y <= d)%Z ->
  exists p, roundPercent y d = Num p /\ (0 <= p <= 100)%Z.
Proof.
  intros Hd Hy. unfold roundPercent.
  assert (E : (d =? 0)%Z = false) by (apply Z.eqb_neq; lia). rewrite E.
  eexists. split; [reflexivity|]. split.
  - apply Z.div_pos; lia.
  - assert ((200 * y + d) / (2 * d) < 101)%Z
      by (apply Z.div_lt_upper_bound; lia).
    lia.
Qed.

Lemma onScroll_bounded (y h ih : Z) (st : App) :
  (0 < h - ih)%Z -> (0 <= y <= h - ih)%Z ->
  (exists m, maxScroll st = Num m /\ (0 <= m <= 100)%Z) ->
  exists m, maxScroll (exec (onScroll y h ih) st) = Num m /\ (0 <= m <= 100)%Z.
Proof.
  intros Hd Hy Hm. rewrite onScroll_run. cbv zeta.
  destruct (roundPercent_within y (h - ih) Hd Hy) as (p & Hp & Hb). rewrite Hp.
  destruct (gt (Num p) (maxScroll st)); [|exact Hm].
  destruct (divisibleBy 25 (Num p)).
  - rewrite trackEvent_maxScroll. now exists p.
  - now exists p.
Qed.

Lemma scrollThrough_bounded (ys : list Z) (h ih : Z) (st : App) :
  (0 < h - ih)%Z -> Forall (fun y => (0 <= y <= h - ih)%Z) ys ->
  (exists m, maxScroll st = Num m /\ (0 <= m <= 100)%Z) ->
  exists m, maxScroll (exec (scrollThrough ys h ih) st) = Num m /\ (0 <= m <= 100)%Z.
Proof.
  intros Hd Hys. revert st. induction Hys as [|y ys Hy Hys IH]; intros st Hm.
  - exact Hm.
  - unfold scrollThrough. simpl forEach. rewrite exec_bind. cbv beta.
    apply IH. now apply onScroll_bounded.
Qed.

Lemma StronglySorted_lt_NoDup (zs : list Z) : StronglySorted Z.lt zs -> NoDup zs.
Proof.
  induction 1 as [|z zs Hs IH Hz]; constructor; [|exact IH].
  intros Hin. rewrite Forall_forall in Hz. specialize (Hz z Hin). lia.
Qed.

Lemma NoDup_map_Num (zs : list Z) : NoDup zs -> NoDup (map Num zs).
Proof.
  induction 1 as [|z zs Hz Hn IH]; simpl; constructor; [|exact IH].
  intros Hin. apply in_map_iff in Hin as (z' & [= ->] & Hin). contradiction.
Qed.

Lemma quarter (z : Z) :
  (0 < z <= 100)%Z -> Z.rem z 25 = 0%Z -> In z [25; 50; 75; 100]%Z.
Proof.
  intros Hz Hr. rewrite Z.rem_mod_nonneg in Hr by lia.
  pose proof (Z.div_mod z 25 ltac:(lia)) as E. rewrite Hr in E.
  assert (K : (1 <= z / 25 <= 4)%Z) by lia.
  assert (C : (z / 25 = 1 \/ z / 25 = 2 \/ z / 25 = 3 \/ z / 25 = 4)%Z) by lia.
  simpl. lia.
Qed.

(** X14. While the scroll position stays within the scrollable height of a
    page that has one, the depths recorded in a page view are among 25, 50,
    75 and 100, no depth is recorded twice, and so at most four
    [scroll_depth] events are recorded. *)
Theorem scroll_depth_at_most_four (ys : list Z) (h ih : Z) (st : App) :
  (0 < h - ih)%Z ->
  Forall (fun y => (0 <= y <= h - ih)%Z) ys ->
  recordedDepths (eventHistory st) = [] ->
  let st' := exec (scrollThrough ys h ih) (exec trackScrollDepth st) in
  let depths := recordedDepths (eventHistory st') in
  Forall (fun d => In d [Num 25; Num 50; Num 75; Num 100]) depths /\
  NoDup depths /\
  List.length depths <= 4.
Proof.
  intros Hd Hys H0. cbv zeta.
  pose proof (scroll_depths_orderly ys h ih st H0) as (zs & E & Hs & Hz).
  destruct (scrollThrough_bounded ys h ih (exec trackScrollDepth st) Hd Hys)
    as (m & Hm & Hb).
  { exists 0%Z. split; [reflexivity | lia]. }
  rewrite Hm in Hz. rewrite E.
  assert (Q : Forall (fun z => In z [25; 50; 75; 100]%Z) zs).
  { eapply Forall_impl; [|exact Hz]. simpl. intros z (Hp & Hr & Hle).
    apply (quarter z); [lia | exact Hr]. }
  assert (F : Forall (fun d => In d [Num 25; Num 50; Num 75; Num 100]) (map Num zs)).
  { apply Forall_map. eapply Forall_impl; [|exact Q].
    intros z Hin. apply (in_map Num) in Hin. exact Hin. }
  assert (N : NoDup (map Num zs)).
  { now apply NoDup_map_Num, StronglySorted_lt_NoDup. }
  split; [exact F|]. split; [exact N|].
  apply (NoDup_incl_length N (l' := [Num 25; Num 50; Num 75; Num 100])).
  intros d Hin. rewrite Forall_forall in F. now apply F.
Qed.

Lemma scroll_depth_at_most_four_witness :
  List.length
    (recordedDepths
       (eventHistory
          (exec (scrollThrough [0; 240; 260; 500; 750; 1000; 990; 1000]%Z 1600 600)
             (exec trackScrollDepth Sample.app0)))) <= 4.
Proof.
  apply (scroll_depth_at_most_four [0; 240; 260; 500; 750; 1000; 990; 1000]%Z 1600 600
           Sample.app0).
  - lia.
  - repeat (constructor; [lia|]). constructor.
  - reflexivity.
Defined.

(** Beyond the scrollable height the tracker goes past 100. *)
Example overscroll_is_recorded :
  recordedDepths
    (eventHistory
       (exec (scrollThrough [1250]%Z 1600 600) (exec trackScrollDepth Sample.app0))) =
  [Num 125].
Proof. reflexivity. Qed.

(** ** Accessibility *)

Lemma setPage_same (st : App) : setPage (page st) st = st.
Proof. now destruct st. Qed.

Lemma among_nil (f : element -> element) (e : element) : among [] f e = e.
Proof. reflexivity. Qed.

Lemma among_listed (us : list nat) (f : element -> element) (e : element) :
  In (uid e) us -> among us f e = f e.
Proof.
  intros H. unfold among.
  assert (E : existsb (Nat.eqb (uid e)) us = true).
  { apply existsb_exists. exists (uid e). split; [exact H | apply Nat.eqb_refl]. }
  now rewrite E.
Qed.

Lemma among_cases (us : list nat) (f : element -> element) (e : element) :
  among us f e = f e \/ among us f e = e.
Proof. unfold among. destruct (existsb _ us); auto. Qed.

Lemma among_cons (x : nat) (us : list nat) (f : element -> element) (e : element) :
  (forall e, uid (f e) = uid e) -> (forall e, f (f e) = f e) ->
  among us f (if hasUid x e then f e else e) = among (x :: us) f e.
Proof.
  intros Hu Hf. unfold among, hasUid. simpl.
  destruct (uid e =? x) eqn:E; simpl; [|reflexivity].
  rewrite Hu, Hf. now destruct (existsb _ us).
Qed.

(** A loop that changes the listed elements one by one changes the page
    element by element. *)
Lemma forEach_update (f : element -> element) (l : list element) (st : App) :
  (forall e, uid (f e) = uid e) -> (forall e, f (f e) = f e) ->
  exec (forEach l (fun x => modifyPage (update (uid x) f))) st =
  setPage (map (among (map uid l) f) (page st)) st.
Proof.
  intros Hu Hf. revert st. induction l as [|x l IH]; intros st.
  - unfold exec. simpl. rewrite (map_ext _ (fun e => e)) by apply among_nil.
    now rewrite map_id, setPage_same.
  - simpl forEach. rewrite exec_bind. cbv beta. rewrite IH.
    change (exec (modifyPage (update (uid x) f)) st)
      with (setPage (update (uid x) f (page st)) st).
    unfold setPage at 1 3. cbn [page nextUid now eventHistory gtag timers maxScroll
                                  observers setPage].
    unfold setPage. f_equal. unfold update. rewrite map_map.
    apply map_ext. intro e. simpl map. now apply among_cons.
Qed.

Lemma keepsShape_among (us : list nat) (f : element -> element) :
  keepsShape f -> keepsShape (among us f).
Proof. intros H e. unfold among. destruct (existsb _ us); [apply H | auto]. Qed.

Lemma querySelectorAll_map (s : selector) (n : node) (g : element -> element) (d : document) :
  keepsShape g -> (forall e, matchesSelector s (g e) = matchesSelector s e) ->
  querySelectorAll s n (map g d) = map g (querySelectorAll s n d).
Proof.
  intros Hs Hm. unfold querySelectorAll.
  assert (Hd : descendants n (map g d) = map g (descendants n d)).
  { destruct n; simpl; [reflexivity | now apply descendantsOf_map]. }
  rewrite Hd. now apply filter_map_same.
Qed.

Lemma setAttribute_present (k v : string) (e : element) :
  getAttribute k e = Some v -> setAttribute k v e = e.
Proof.
  unfold getAttribute, setAttribute. intros H.
  assert (E : assocSet k v (attributes e) = attributes e).
  { induction (attributes e) as [|[k' v'] r IH]; simpl in *; [discriminate|].
    destruct (String.eqb k k') eqn:Ek.
    - apply String.eqb_eq in Ek. injection H as ->. now subst.
    - now rewrite IH. }
  rewrite E. now destruct e.
Qed.

Lemma attributesBut_among (keys : list string) (us : list nat) (f : element -> element) :
  attributesBut keys f -> attributesBut keys (among us f).
Proof.
  intros H e. unfold among. destruct (existsb _ us); [apply H|].
  split; [exists (attributes e); now destruct e | auto].
Qed.

Lemma attributesBut_update (keys : list string) (u : nat) (f : element -> element) :
  attributesBut keys f -> attributesBut keys (fun e => if hasUid u e then f e else e).
Proof.
  intros H e. destruct (hasUid u e); [apply H|].
  split; [exists (attributes e); now destruct e | auto].
Qed.

Lemma attributesBut_keepsShape (keys : list string) (g : element -> element) :
  attributesBut keys g -> keepsShape g.
Proof. intros H e. destruct (H e) as [[l ->] _]. repeat split. Qed.

Lemma attributesBut_focusable (keys : list string) :
  ~ In "role" keys -> ~ In "tabindex" keys -> attributesBut keys focusable.
Proof.
  intros N1 N2 e. split; [eexists; reflexivity|].
  intros k Hk. unfold focusable.
  rewrite !getAttribute_setAttribute_other; [reflexivity | |]; intros ->; contradiction.
Qed.

Lemma attributesBut_labelButton (keys : list string) :
  ~ In "aria-label" keys -> attributesBut keys labelButton.
Proof.
  intros N e. unfold labelButton.
  assert (S : (exists l, setAttribute "aria-label" (JsString.trim (textContent e)) e =
                         setAttributes l e) /\
              (forall k, In k keys ->
                 getAttribute k (setAttribute "aria-label" (JsString.trim (textContent e)) e) =
                 getAttribute k e)).
  { split; [eexists; reflexivity|]. intros k Hk.
    apply getAttribute_setAttribute_other. intros ->. contradiction. }
  destruct (getAttribute "aria-label" e) as [l|]; [|exact S].
  destruct (JsString.truthy l); [|exact S].
  split; [exists (attributes e); now destruct e | auto].
Qed.

Lemma attributesBut_landmark (keys : list string) :
  ~ In "id" keys -> ~ In "role" keys -> attributesBut keys landmark.
Proof.
  intros N1 N2 e. split; [eexists; reflexivity|].
  intros k Hk. unfold landmark.
  rewrite !getAttribute_setAttribute_other; [reflexivity | |]; intros ->; contradiction.
Qed.

Lemma focusable_twice (e : element) : focusable (focusable e) = focusable e.
Proof.
  unfold focusable at 1.
  rewrite (setAttribute_present "tabindex" "0" (focusable e)).
  - apply setAttribute_present. apply getAttribute_setAttribute_same.
  - unfold focusable. rewrite getAttribute_setAttribute_other by discriminate.
    apply getAttribute_setAttribute_same.
Qed.

Lemma labelButton_label (e : element) :
  getAttribute "aria-label" (labelButton e) = Some (ariaLabel e).
Proof.
  unfold labelButton, ariaLabel.
  destruct (getAttribute "aria-label" e) as [l|] eqn:E.
  - destruct (JsString.truthy l); [exact E | apply getAttribute_setAttribute_same].
  - apply getAttribute_setAttribute_same.
Qed.

Lemma labelButton_twice (e : element) : labelButton (labelButton e) = labelButton e.
Proof.
  pose proof (labelButton_label e) as L.
  unfold labelButton at 1. rewrite L.
  assert (T : textContent (labelButton e) = textContent e).
  { destruct (attributesBut_labelButton [] (fun H => H) e) as [[l ->] _]. reflexivity. }
  rewrite T.
  assert (K : setAttribute "aria-label" (JsString.trim (textContent e)) (labelButton e) =
              labelButton e \/ JsString.truthy (ariaLabel e) = true).
  { unfold ariaLabel in *. unfold labelButton in *.
    destruct (getAttribute "aria-label" e) as [l|] eqn:E.
    - destruct (JsString.truthy l) eqn:Tl; [now right|].
      left. now apply setAttribute_present.
    - left. now apply setAttribute_present. }
  destruct (JsString.truthy (ariaLabel e)) eqn:Tl; [reflexivity|].
  destruct K as [K|K]; [exact K | discriminate].
Qed.

Lemma initKeyboardNavigation_page (st : App) :
  page (exec initKeyboardNavigation st) =
  map (among (map uid (querySelectorAll (ByClass "service-card") Body (page st))) focusable)
    (page st).
Proof.
  unfold initKeyboardNavigation. rewrite exec_bind. cbv beta.
  change (eval (gets page) st) with (page st).
  change (exec (gets page) st) with st.
  rewrite forEach_update; [reflexivity | reflexivity | apply focusable_twice].
Qed.

Lemma enhanceARIA_page (st : App) :
  page (exec enhanceARIA st) =
  let d1 := map (among (map uid (querySelectorAll (ByTag "button") Body (page st)))
                   labelButton) (page st) in
  match querySelector (ByTag "main") Body d1 with
  | Some main => update (uid main) landmark d1
  | None => d1
  end.
Proof.
  unfold enhanceARIA. rewrite exec_bind. cbv beta.
  change (eval (gets page) st) with (page st).
  change (exec (gets page) st) with st.
  rewrite exec_bind. cbv beta.
  rewrite forEach_update;
    [ | intro e; destruct (attributesBut_labelButton [] (fun H => H) e) as [[l ->] _];
        reflexivity
      | apply labelButton_twice ].
  rewrite exec_bind. cbv beta zeta.
  match goal with
  | |- context [eval (gets page) ?s] =>
      change (eval (gets page) s) with (page s); change (exec (gets page) s) with s
  end.
  cbn [page setPage].
  destruct (querySelector (ByTag "main") Body _); reflexivity.
Qed.

Lemma initAccessibility_page (st : App) :
  page (exec initAccessibility st) = accessiblePage (blank (nextUid st) "a") (page st).
Proof.
  unfold initAccessibility. rewrite exec_bind. cbv beta.
  rewrite exec_bind. cbv beta.
  rewrite enhanceARIA_page, initKeyboardNavigation_page. reflexivity.
Qed.

Lemma attributesBut_facts (keys : list string) (g : element -> element) (e : element) :
  attributesBut keys g ->
  uid (g e) = uid e /\ localName (g e) = localName e /\
  classList (g e) = classList e /\ textContent (g e) = textContent e.
Proof. intros H. destruct (H e) as [[l ->] _]. repeat split. Qed.

Lemma attributesBut_matches (keys : list string) (g : element -> element)
  (s : selector) (e : element) :
  attributesBut keys g ->
  (exists t, s = ByTag t) \/ (exists c, s = ByClass c) ->
  matchesSelector s (g e) = matchesSelector s e.
Proof.
  intros H Hs. destruct (attributesBut_facts keys g e H) as (_ & Hl & Hc & _).
  destruct Hs as [[t ->]|[c ->]]; simpl.
  - now rewrite Hl.
  - unfold contains. now rewrite Hc.
Qed.

Lemma attributesBut_id (keys : list string) : attributesBut keys (fun e => e).
Proof. intro e. split; [exists (attributes e); now destruct e | auto]. Qed.

(** The page of [initAccessibility] element by element: the cards are made
    focusable, then the buttons labelled, then the main element marked. *)
Lemma accessiblePage_maps (link : element) (d : document) :
  let d0 := setDepth 0 (skipLinkElement link) :: d in
  let cs := map uid (querySelectorAll (ByClass "service-card") Body d0) in
  let d1 := map (among cs focusable) d0 in
  let bs := map uid (querySelectorAll (ByTag "button") Body d1) in
  let d2 := map (among bs labelButton) d1 in
  exists g3,
    accessiblePage link d = map g3 d2 /\
    attributesBut ["href"; "tabindex"; "aria-label"] g3 /\
    (forall e, g3 e = e \/ g3 e = landmark e) /\
    (forall m, In m d2 -> localName m = "main" ->
       exists m', In m' d2 /\ g3 m' = landmark m').
Proof.
  cbv zeta. unfold accessiblePage. cbv zeta.
  set (d0 := setDepth 0 (skipLinkElement link) :: d).
  set (d1 := map (among (map uid (querySelectorAll (ByClass "service-card") Body d0))
                    focusable) d0).
  set (d2 := map (among (map uid (querySelectorAll (ByTag "button") Body d1))
                    labelButton) d1).
  destruct (querySelector (ByTag "main") Body d2) as [main|] eqn:Q.
  - exists (fun e => if hasUid (uid main) e then landmark e else e).
    split; [reflexivity|]. split; [|split].
    + apply attributesBut_update, attributesBut_landmark; simpl; intuition discriminate.
    + intro e. destruct (hasUid (uid main) e); auto.
    + intros _ _ _. exists main. split.
      * now apply (querySelector_In _ Body _ _ Q).
      * unfold hasUid. now rewrite Nat.eqb_refl.
  - exists (fun e => e). split; [now rewrite map_id|]. split; [|split].
    + apply attributesBut_id.
    + auto.
    + intros m Hm Hl. exfalso.
      unfold querySelector, querySelectorAll, descendants in Q.
      assert (In m (filter (matchesSelector (ByTag "main")) d2)).
      { apply filter_In. split; [exact Hm|]. simpl. rewrite Hl. reflexivity. }
      destruct (filter _ d2); [contradiction | discriminate].
Qed.

Lemma hd_error_filter {A : Type} (p : A -> bool) (l : list A) (x : A) :
  In x l -> p x = true -> hd_error (filter p l) <> None.
Proof.
  intros Hx Hp. assert (H : In x (filter p l)) by (apply filter_In; auto).
  destruct (filter p l); [contradiction | discriminate].
Qed.

(** X15. After [initAccessibility] the page begins with the skip link,
    which points to [#main]; every button carries the label it had or,
    without one, its trimmed text; every service card can take the focus
    and has the role of a button, unless it is the main element; and a page
    with a [main] element has an element [#main] for the link to reach. *)
Theorem initAccessibility_prepares_the_page (st : App) :
  let st' := exec initAccessibility st in
  (exists skipLink rest,
     page st' = skipLink :: rest /\
     uid skipLink = nextUid st /\ localName skipLink = "a" /\
     getAttribute "href" skipLink = Some "#main" /\
     contains "skip-link" skipLink = true /\
     textContent skipLink = "Skip to main content") /\
  map (getAttribute "aria-label") (querySelectorAll (ByTag "button") Body (page st')) =
    map (fun b => Some (ariaLabel b)) (querySelectorAll (ByTag "button") Body (page st)) /\
  Forall (fun c =>
            getAttribute "tabindex" c = Some "0" /\
            (getAttribute "role" c = Some "button" \/ getAttribute "role" c = Some "main"))
    (querySelectorAll (ByClass "service-card") Body (page st')) /\
  (querySelector (ByTag "main") Body (page st) <> None ->
   querySelector (ById "main") Body (page st') <> None).
Proof.
  cbv zeta. rewrite initAccessibility_page.
  destruct (accessiblePage_maps (blank (nextUid st) "a") (page st))
    as (g3 & -> & A3 & C3 & M3).
  set (skip0 := setDepth 0 (skipLinkElement (blank (nextUid st) "a"))) in *.
  set (d0 := skip0 :: page st) in *.
  set (cs := map uid (querySelectorAll (ByClass "service-card") Body d0)) in *.
  set (g1 := among cs focusable) in *.
  set (bs := map uid (querySelectorAll (ByTag "button") Body (map g1 d0))) in *.
  set (g2 := among bs labelButton) in *.
  assert (A1 : attributesBut ["href"; "aria-label"] g1).
  { apply attributesBut_among, attributesBut_focusable; simpl; intuition discriminate. }
  assert (A2 : attributesBut ["href"; "tabindex"; "role"] g2).
  { apply attributesBut_among, attributesBut_labelButton; simpl; intuition discriminate. }
  pose proof (attributesBut_keepsShape _ _ A1) as S1.
  pose proof (attributesBut_keepsShape _ _ A2) as S2.
  pose proof (attributesBut_keepsShape _ _ A3) as S3.
  assert (Q : forall s, (exists t, s = ByTag t) \/ (exists c, s = ByClass c) ->
              querySelectorAll s Body (map g3 (map g2 (map g1 d0))) =
              map g3 (map g2 (map g1 (querySelectorAll s Body d0)))).
  { intros s Hs.
    rewrite (querySelectorAll_map s Body g3)
      by (auto; intro e; now apply (attributesBut_matches _ _ _ _ A3)).
    rewrite (querySelectorAll_map s Body g2)
      by (auto; intro e; now apply (attributesBut_matches _ _ _ _ A2)).
    rewrite (querySelectorAll_map s Body g1)
      by (auto; intro e; now apply (attributesBut_matches _ _ _ _ A1)).
    reflexivity. }
  split; [|split; [|split]].
  - exists (g3 (g2 (g1 skip0))), (map g3 (map g2 (map g1 (page st)))).
    split; [reflexivity|].
    destruct (attributesBut_facts _ g3 (g2 (g1 skip0)) A3) as (U3 & L3 & K3 & T3).
    destruct (attributesBut_facts _ g2 (g1 skip0) A2) as (U2 & L2 & K2 & T2).
    destruct (attributesBut_facts _ g1 skip0 A1) as (U1 & L1 & K1 & T1).
    split; [now rewrite U3, U2, U1|]. split; [now rewrite L3, L2, L1|].
    split; [|split].
    + rewrite (proj2 (A3 _) "href"), (proj2 (A2 _) "href"), (proj2 (A1 _) "href");
        simpl; auto.
    + unfold contains. now rewrite K3, K2, K1.
    + now rewrite T3, T2, T1.
  - rewrite Q by (left; now exists "button").
    change (querySelectorAll (ByTag "button") Body d0)
      with (querySelectorAll (ByTag "button") Body (page st)).
    rewrite !map_map. apply map_ext_in. intros b Hb.
    rewrite (proj2 (A3 _) "aria-label") by (simpl; auto).
    assert (Hin : In (uid (g1 b)) bs).
    { unfold bs.
      rewrite (querySelectorAll_map _ Body g1)
        by (auto; intro e; apply (attributesBut_matches _ _ _ _ A1); left;
            now exists "button").
      rewrite map_map. apply (in_map (fun x => uid (g1 x))).
      change (querySelectorAll (ByTag "button") Body d0)
        with (querySelectorAll (ByTag "button") Body (page st)).
      exact Hb. }
    unfold g2. rewrite (among_listed _ _ _ Hin), labelButton_label.
    f_equal. unfold ariaLabel.
    rewrite (proj2 (A1 _) "aria-label") by (simpl; auto).
    destruct (attributesBut_facts _ g1 b A1) as (_ & _ & _ & T1). now rewrite T1.
  - rewrite Q by (right; now exists "service-card").
    rewrite Forall_map, Forall_map, Forall_map. apply Forall_forall. intros c Hc.
    assert (Hin : In (uid c) cs) by (unfold cs; now apply in_map).
    unfold g1 at 1 2 3. rewrite (among_listed _ _ _ Hin).
    assert (T : getAttribute "tabindex" (g2 (focusable c)) = Some "0").
    { rewrite (proj2 (A2 _) "tabindex") by (simpl; auto). unfold focusable.
      rewrite getAttribute_setAttribute_other by discriminate.
      apply getAttribute_setAttribute_same. }
    assert (R : getAttribute "role" (g2 (focusable c)) = Some "button").
    { rewrite (proj2 (A2 _) "role") by (simpl; auto).
      apply getAttribute_setAttribute_same. }
    split.
    + rewrite (proj2 (A3 _) "tabindex") by (simpl; auto). exact T.
    + destruct (C3 (g2 (focusable c))) as [-> | ->]; [now left | right].
      unfold landmark. rewrite getAttribute_setAttribute_other by discriminate.
      apply getAttribute_setAttribute_same.
  - intros Hm.
    destruct (querySelector (ByTag "main") Body (page st)) as [m0|] eqn:Q0;
      [clear Hm | congruence].
    apply (querySelector_In _ Body) in Q0 as [Hin Hl].
    simpl in Hl. apply String.eqb_eq in Hl.
    destruct (M3 (g2 (g1 m0))) as (m' & Hm' & Em').
    + apply in_map, in_map. now right.
    + destruct (attributesBut_facts _ g2 (g1 m0) A2) as (_ & L2 & _).
      destruct (attributesBut_facts _ g1 m0 A1) as (_ & L1 & _). congruence.
    + unfold querySelector, querySelectorAll, descendants.
      apply (hd_error_filter _ _ (g3 m')); [now apply in_map|].
      rewrite Em'. simpl. unfold landmark.
      now rewrite getAttribute_setAttribute_same.
Qed.

Lemma initAccessibility_prepares_the_page_witness :
  querySelector (ById "main") Body
    (page (exec initAccessibility
             (setPage (page Sample.app0 ++
                       [Sample.elt 20 0 "main" [] [] "" ""]) Sample.app0))) <> None.
Proof.
  apply (proj2 (proj2 (proj2 (initAccessibility_prepares_the_page
           (setPage (page Sample.app0 ++ [Sample.elt 20 0 "main" [] [] "" ""])
              Sample.app0))))).
  discriminate.
Defined.

(** ** The section observer *)

Lemma observe_last (obs : list observer) (cb : callback) (ts : list nat) (t : nat) (st : App) :
  observers st = obs ++ [mkObserver cb ts] ->
  let st' := exec (observe (List.length obs) t) st in
  observers st' =
    obs ++ [mkObserver cb (if existsb (Nat.eqb t) ts then ts else ts ++ [t])] /\
  page st' = page st.
Proof.
  intros H. cbv zeta. unfold observe, exec, modify. cbn [snd observers setObservers page].
  rewrite H, atRank_last. unfold observed. cbn [targets onEntries].
  split; [|reflexivity]. now destruct (existsb (Nat.eqb t) ts).
Qed.

Lemma existsb_eqb_In (t : nat) (ts : list nat) :
  existsb (Nat.eqb t) ts = true <-> In t ts.
Proof.
  rewrite existsb_exists. split.
  - intros (x & Hx & E). apply Nat.eqb_eq in E. now subst.
  - intros H. exists t. split; [exact H | apply Nat.eqb_refl].
Qed.

(** The loop of [initScrollAnimations]. *)
Lemma observe_all (f : element -> element) (obs : list observer) (cb : callback)
  (l : list element) (ts : list nat) (st : App) :
  (forall e, uid (f e) = uid e) -> (forall e, f (f e) = f e) ->
  observers st = obs ++ [mkObserver cb ts] ->
  let st' := exec (forEach l (fun x =>
                     modifyPage (update (uid x) f) ;;
                     observe (List.length obs) (uid x))) st in
  page st' = map (among (map uid l) f) (page st) /\
  exists ts',
    observers st' = obs ++ [mkObserver cb ts'] /\
    (forall t, In t ts' <-> In t ts \/ In t (map uid l)) /\
    (NoDup ts -> NoDup ts').
Proof.
  intros Hu Hf. cbv zeta. revert ts st. induction l as [|x l IH]; intros ts st H.
  - unfold exec. simpl. split.
    + rewrite (map_ext _ (fun e => e)) by apply among_nil. now rewrite map_id.
    + exists ts. split; [exact H|]. split; [tauto | auto].
  - simpl forEach. rewrite exec_bind. cbv beta. rewrite exec_bind. cbv beta.
    set (st1 := exec (modifyPage (update (uid x) f)) st).
    assert (H1 : observers st1 = obs ++ [mkObserver cb ts]) by exact H.
    destruct (observe_last obs cb ts (uid x) st1 H1) as [Ho Hp]. cbv zeta in Ho, Hp.
    destruct (IH _ _ Ho) as (Pg & ts' & Ho' & Hin & Hnd).
    split.
    + rewrite Pg, Hp. change (page st1) with (update (uid x) f (page st)).
      unfold update. rewrite map_map. apply map_ext. intro e. now apply among_cons.
    + exists ts'. split; [exact Ho'|]. split.
      * intro t. rewrite Hin. simpl.
        destruct (existsb (Nat.eqb (uid x)) ts) eqn:E.
        -- apply existsb_eqb_In in E. intuition (subst; auto).
        -- rewrite in_app_iff. simpl. intuition.
      * intros Hn. apply Hnd.
        destruct (existsb (Nat.eqb (uid x)) ts) eqn:E; [exact Hn|].
        apply NoDup_app; [exact Hn | repeat constructor; simpl; tauto |].
        intros a Ha [Hx|[]]. subst a.
        assert (existsb (Nat.eqb (uid x)) ts = true) by now apply existsb_eqb_In.
        congruence.
Qed.

Lemma initScrollAnimations_run (st : App) :
  let sections := querySelectorAll (ByTag "section") Body (page st) in
  let st' := exec initScrollAnimations st in
  eval initScrollAnimations st = List.length (observers st) /\
  page st' = map (among (map uid sections) (classAdd ["loading"])) (page st) /\
  exists ts,
    observers st' = observers st ++ [mkObserver SectionView ts] /\
    (forall t, In t ts <-> In t (map uid sections)) /\
    NoDup ts.
Proof.
  cbv zeta. unfold initScrollAnimations.
  rewrite exec_bind, eval_bind. cbv beta.
  change (eval (gets page) st) with (page st).
  change (exec (gets page) st) with st.
  rewrite exec_bind, eval_bind. cbv beta.
  change (eval (newIntersectionObserver SectionView) st) with (List.length (observers st)).
  set (st0 := exec (newIntersectionObserver SectionView) st).
  assert (H0 : observers st0 = observers st ++ [mkObserver SectionView []]) by reflexivity.
  rewrite exec_bind, eval_bind. cbv beta.
  destruct (observe_all (classAdd ["loading"]) (observers st) SectionView
              (querySelectorAll (ByTag "section") Body (page st)) [] st0)
    as (Pg & ts & Ho & Hin & Hnd);
    [reflexivity | apply classAdd_twice | exact H0 |].
  cbv zeta in Pg, Ho. split; [reflexivity|]. split; [exact Pg|].
  exists ts. split; [exact Ho|]. split.
  - intro t. rewrite Hin. simpl. tauto.
  - apply Hnd. constructor.
Qed.

(** X16. [initScrollAnimations] creates one observer, the section observer,
    which observes every section of the page and nothing else, and marks
    every section as loading. *)
Theorem initScrollAnimations_observes_every_section (st : App) :
  let sections := querySelectorAll (ByTag "section") Body (page st) in
  let sectionObserver := eval initScrollAnimations st in
  let st' := exec initScrollAnimations st in
  (exists ob,
     observers st' = observers st ++ [ob] /\
     nth_error (observers st') sectionObserver = Some ob /\
     onEntries ob = SectionView /\
     (forall t, observed t ob = true <-> In t (map uid sections)) /\
     NoDup (targets ob)) /\
  Forall (fun s => contains "loading" s = true)
    (querySelectorAll (ByTag "section") Body (page st')) /\
  map uid (querySelectorAll (ByTag "section") Body (page st')) = map uid sections.
Proof.
  cbv zeta. destruct (initScrollAnimations_run st) as (Ho & Pg & ts & Hobs & Hin & Hnd).
  cbv zeta in Ho, Pg, Hobs.
  set (sections := querySelectorAll (ByTag "section") Body (page st)) in *.
  assert (S : keepsShape (among (map uid sections) (classAdd ["loading"]))).
  { apply keepsShape_among. intro e. repeat split. }
  assert (Q : querySelectorAll (ByTag "section") Body
                (page (exec initScrollAnimations st)) =
              map (among (map uid sections) (classAdd ["loading"])) sections).
  { rewrite Pg. apply querySelectorAll_map; [exact S|].
    intro e. simpl. now rewrite (proj2 (proj2 (S e))). }
  split; [|split].
  - exists (mkObserver SectionView ts). split; [exact Hobs|]. split; [|split; [|split]].
    + rewrite Ho, Hobs. apply nth_error_last.
    + reflexivity.
    + intro t. unfold observed. cbn [targets]. rewrite existsb_eqb_In. apply Hin.
    + exact Hnd.
  - rewrite Q. apply Forall_map, Forall_forall. intros s Hs.
    rewrite among_listed by now apply in_map.
    unfold contains, classAdd. cbn [classList setClassList].
    apply mem_addTokens_new. now left.
  - rewrite Q, map_map. apply map_ext. intro e. apply (proj1 (S e)).
Qed.

(** ** Cleaning up *)

Lemma atRank_middle {A : Type} (f : A -> A) (l : list A) (x : A) (r : list A) :
  atRank (List.length l) f (l ++ x :: r) = l ++ f x :: r.
Proof. induction l as [|y l IH]; simpl; [reflexivity | now rewrite IH]. Qed.

Lemma skipn_middle {A : Type} (l : list A) (x : A) (r : list A) :
  skipn (S (List.length l)) (l ++ x :: r) = r.
Proof. induction l as [|y l IH]; simpl; [reflexivity | exact IH]. Qed.

Lemma nth_error_middle {A : Type} (l : list A) (x : A) (r : list A) :
  nth_error (l ++ x :: r) (List.length l) = Some x.
Proof. induction l as [|y l IH]; simpl; [reflexivity | exact IH]. Qed.

Lemma setUpObservers_run (st : App) :
  let st1 := exec initScrollAnimations st in
  eval setUpObservers st = eval initScrollAnimations st /\
  exec setUpObservers st = exec (trackServiceInterest ;; trackBusinessGoals) st1.
Proof.
  cbv zeta. unfold setUpObservers.
  rewrite eval_bind, exec_bind. cbv beta.
  rewrite eval_bind, exec_bind. cbv beta.
  rewrite eval_bind, exec_bind. cbv beta.
  rewrite exec_bind. cbv beta. split; reflexivity.
Qed.

Lemma setUpObservers_observers (st : App) :
  exists ts rest,
    observers (exec setUpObservers st) =
      observers st ++ mkObserver SectionView ts :: rest /\
    eval setUpObservers st = List.length (observers st) /\
    (forall ob, In ob rest -> oneShot (onEntries ob) = true /\ exists t, targets ob = [t]).
Proof.
  destruct (setUpObservers_run st) as [Ev Ex]. cbv zeta in Ex.
  destruct (initScrollAnimations_run st) as (Ho & _ & ts & Hobs & _). cbv zeta in Ho, Hobs.
  set (st1 := exec initScrollAnimations st) in *.
  pose proof (one_shot_observers_are_set_up st1) as H1.
  assert (E : exists rest,
            observers (exec (trackServiceInterest ;; trackBusinessGoals) st1) =
            observers st1 ++ rest).
  { rewrite exec_bind. cbv beta.
    rewrite trackBusinessGoals_observers, trackServiceInterest_observers.
    rewrite <- app_assoc. eexists. reflexivity. }
  destruct E as (rest & E).
  exists ts, rest. split; [|split].
  - rewrite Ex, E, Hobs, <- app_assoc. reflexivity.
  - now rewrite Ev, Ho.
  - intros ob Hin. apply H1. rewrite E, skipn_app, skipn_all, Nat.sub_diag. exact Hin.
Qed.

(** X17. [destroy] disconnects the observer it has stored, the section
    observer, so that sections no longer report; the one-shot observers of
    [trackServiceInterest] and [trackBusinessGoals], which are not stored,
    stay as they were set up, each still observing its element. *)
Theorem destroy_leaves_the_one_shot_observers (st : App) :
  let sectionObserver := eval setUpObservers st in
  let ready := exec setUpObservers st in
  let destroyed := exec (destroy [sectionObserver]) ready in
  let others := skipn (S (List.length (observers st))) in
  (forall t inwards,
     exec (crossing sectionObserver t inwards) destroyed = destroyed) /\
  others (observers destroyed) = others (observers ready) /\
  (forall ob, In ob (others (observers destroyed)) ->
     oneShot (onEntries ob) = true /\ exists t, targets ob = [t]) /\
  page destroyed = page ready /\ eventHistory destroyed = eventHistory ready.
Proof.
  cbv zeta.
  destruct (setUpObservers_observers st) as (ts & rest & Hobs & Ho & Hrest).
  rewrite Ho.
  set (ready := exec setUpObservers st) in *.
  assert (D : observers (exec (destroy [List.length (observers st)]) ready) =
              observers st ++ mkObserver SectionView [] :: rest).
  { unfold destroy, exec. simpl. unfold disconnect, modify, bind, ret.
    cbn [snd observers setObservers]. rewrite Hobs, atRank_middle. reflexivity. }
  split; [|split; [|split; [|split]]].
  - intros t inwards. unfold exec at 1, crossing.
    rewrite (notify_undelivered _ (mkObserver SectionView []));
      [reflexivity | rewrite D; apply nth_error_middle | reflexivity].
  - now rewrite D, Hobs, !skipn_middle.
  - intros ob Hin. rewrite D, skipn_middle in Hin. now apply Hrest.
  - reflexivity.
  - reflexivity.
Qed.

(** ** The token reaches the submission *)

Lemma below_app (k : nat) (a b : document) :
  Forall (fun x => k < depth x) a -> below k (a ++ b) = a ++ below k b.
Proof.
  induction 1 as [|x a Hx Ha IH]; simpl; [reflexivity|].
  apply Nat.ltb_lt in Hx. now rewrite Hx, IH.
Qed.

Lemma below_deep (k : nat) (r : document) : Forall (fun x => k < depth x) (below k r).
Proof.
  induction r as [|x r IH]; simpl; [constructor|].
  destruct (k <? depth x) eqn:E; constructor; [now apply Nat.ltb_lt | exact IH].
Qed.

Lemma below_of_beyond (k : nat) (r : document) : below k (beyond k r) = [].
Proof.
  induction r as [|x r IH]; simpl; [reflexivity|].
  destruct (k <? depth x) eqn:E; [exact IH | simpl; now rewrite E].
Qed.

Lemma descendantsOf_insertUnder (u : nat) (new : element) (d : document) :
  In u (map uid d) ->
  exists k, descendantsOf u (insertUnder u new d) = descendantsOf u d ++ [setDepth k new].
Proof.
  induction d as [|e r IH]; simpl; [tauto|].
  destruct (hasUid u e) eqn:E.
  - intros _. exists (S (depth e)). simpl. rewrite E.
    rewrite (below_app _ _ _ (below_deep (depth e) r)). simpl.
    assert (L : (depth e <? S (depth e)) = true) by (apply Nat.ltb_lt; lia).
    rewrite L, below_of_beyond. reflexivity.
  - intros [H|H].
    + unfold hasUid in E. apply Nat.eqb_neq in E. congruence.
    + simpl. rewrite E. now apply IH.
Qed.

Lemma addCSRFProtection_page (csrfToken : string) (form : nat) (st : App) :
  page (exec (addCSRFProtection csrfToken form) st) =
  insertUnder form
    (assignValue csrfToken
       (setAttribute "name" "_csrf"
          (setAttribute "type" "hidden" (blank (nextUid st) "input"))))
    (page st).
Proof. reflexivity. Qed.

Lemma lastValue_last (key v : string) (l : list (string * string)) :
  lastValue key (l ++ [(key, v)]) = Some v.
Proof. unfold lastValue. rewrite rev_app_distr. simpl. now rewrite String.eqb_refl. Qed.



(** ** Debounced functions *)

Lemma debounce_run_snoc {A : Type} (wait : Z)
  (trace : list (Debounce.step A)) (e : Debounce.step A) (s : Debounce.state A) :
  Debounce.run wait (trace ++ [e]) s = Debounce.react wait e (Debounce.run wait trace s).
Proof. unfold Debounce.run. now rewrite fold_left_app. Qed.

Lemma debounce_lastCall_snoc {A : Type} (trace : list (Debounce.step A)) (e : Debounce.step A) :
  Debounce.lastCall (trace ++ [e]) =
  match e with Debounce.Call a => Some a | Debounce.Run _ => Debounce.lastCall trace end.
Proof. unfold Debounce.lastCall. now rewrite fold_left_app. Qed.

Lemma clearTimeout_nil {A : Type} (h : option nat) : Debounce.clearTimeout (A := A) h [] = [].
Proof. now destruct h. Qed.

Lemma single_live {A : Type} (wait : Z) (s : Debounce.state A) (last : option A) :
  Debounce.single wait s last ->
  Debounce.clearTimeout (Debounce.timeout s) (Debounce.waiting s) = [].
Proof.
  intros [H|(h & a & Hw & Ht & _)].
  - rewrite H. apply clearTimeout_nil.
  - rewrite Hw, Ht. simpl. now rewrite Nat.eqb_refl.
Qed.

Lemma executedFunction_single {A : Type} (wait : Z) (a : A)
  (s : Debounce.state A) (last : option A) :
  Debounce.single wait s last ->
  Debounce.waiting (Debounce.executedFunction wait a s) =
    [Debounce.mkPending (Debounce.nextHandle s) wait a] /\
  Debounce.timeout (Debounce.executedFunction wait a s) = Some (Debounce.nextHandle s) /\
  Debounce.calls (Debounce.executedFunction wait a s) = Debounce.calls s.
Proof.
  intros H. unfold Debounce.executedFunction. simpl.
  now rewrite (single_live wait s last H).
Qed.

Lemma later_single {A : Type} (wait : Z) (h : nat) (a : A) (s : Debounce.state A) :
  Debounce.waiting s = [Debounce.mkPending h wait a] -> Debounce.timeout s = Some h ->
  Debounce.waiting (Debounce.later h s) = [] /\
  Debounce.calls (Debounce.later h s) = Debounce.calls s ++ [a].
Proof.
  intros Hw Ht. unfold Debounce.later. rewrite Hw.
  cbn [find Debounce.handle]. rewrite Nat.eqb_refl.
  cbn [filter Debounce.handle]. rewrite Nat.eqb_refl. cbn [negb].
  cbn [Debounce.waiting Debounce.calls Debounce.args].
  split; [apply clearTimeout_nil | reflexivity].
Qed.

Lemma react_single {A : Type} (wait : Z) (e : Debounce.step A)
  (s : Debounce.state A) (last : option A) :
  Debounce.single wait s last ->
  Debounce.single wait (Debounce.react wait e s)
    (match e with Debounce.Call a => Some a | Debounce.Run _ => last end).
Proof.
  intros H. destruct e as [a|h'].
  - destruct (executedFunction_single wait a s last H) as (Hw & Ht & _).
    right. exists (Debounce.nextHandle s), a. auto.
  - destruct H as [H|(h & a & Hw & Ht & Hl)].
    + left. simpl. unfold Debounce.later. now rewrite H.
    + simpl. unfold Debounce.later. rewrite Hw. cbn [find Debounce.handle].
      destruct (h =? h') eqn:E.
      * left. cbn [filter Debounce.handle]. rewrite E. cbn [negb Debounce.waiting].
        apply clearTimeout_nil.
      * right. exists h, a. auto.
Qed.

Lemma run_single {A : Type} (wait : Z) (trace : list (Debounce.step A)) (firstHandle : nat) :
  Debounce.single wait (Debounce.run wait trace (Debounce.debounce firstHandle))
    (Debounce.lastCall trace).
Proof.
  induction trace as [|e trace IH] using rev_ind.
  - now left.
  - rewrite debounce_run_snoc, debounce_lastCall_snoc. now apply react_single.
Qed.

Lemma Forall_filter {B : Type} (P : B -> Prop) (p : B -> bool) (l : list B) :
  Forall P l -> Forall P (filter p l).
Proof.
  intros H. apply Forall_forall. intros x Hx. apply filter_In in Hx as [Hx _].
  rewrite Forall_forall in H. now apply H.
Qed.

Lemma Forall_clearTimeout {A : Type} (P : Debounce.pending A -> Prop)
  (h : option nat) (l : list (Debounce.pending A)) :
  Forall P l -> Forall P (Debounce.clearTimeout h l).
Proof. destruct h; simpl; [apply Forall_filter | auto]. Qed.

Lemma run_called {A : Type} (wait : Z) (trace : list (Debounce.step A)) (firstHandle : nat) :
  Debounce.called trace (Debounce.run wait trace (Debounce.debounce firstHandle)).
Proof.
  induction trace as [|e trace [IH1 IH2]] using rev_ind.
  - split; constructor.
  - rewrite debounce_run_snoc.
    set (s := Debounce.run wait trace (Debounce.debounce firstHandle)) in *.
    assert (M1 : Forall (fun a => In (Debounce.Call a) (trace ++ [e])) (Debounce.calls s)).
    { eapply Forall_impl; [|exact IH1]. intros a Ha. apply in_or_app. now left. }
    assert (M2 : Forall (fun p => In (Debounce.Call (Debounce.args p)) (trace ++ [e]))
                   (Debounce.waiting s)).
    { eapply Forall_impl; [|exact IH2]. intros a Ha. apply in_or_app. now left. }
    destruct e as [a|h]; simpl.
    + split; [exact M1|]. unfold Debounce.executedFunction. simpl.
      apply Forall_app. split; [now apply Forall_clearTimeout|].
      constructor; [|constructor]. simpl. apply in_or_app. right. now left.
    + unfold Debounce.later.
      destruct (find _ _) as [p|] eqn:F; [|now split].
      simpl. split.
      * apply Forall_app. split; [exact M1|]. constructor; [|constructor].
        apply find_some in F as [F _]. rewrite Forall_forall in M2. now apply M2.
      * now apply Forall_clearTimeout, Forall_filter.
Qed.

Lemma run_calls_only {A : Type} (wait : Z) (l : list A) (s : Debounce.state A) :
  Debounce.calls (Debounce.run wait (map Debounce.Call l) s) = Debounce.calls s.
Proof.
  revert s. induction l as [|a l IH]; intros s; simpl; [reflexivity|].
  unfold Debounce.run in *. simpl. now rewrite IH.
Qed.

(** X19. A debounced function has at most one timer waiting, which carries
    the arguments of the latest call; what it passes on to the function
    always comes from some call; a call followed by its timer passes on the
    arguments of that call; and a burst of calls followed by the timer
    passes on the arguments of the last call only. *)
Theorem debounce_passes_on_the_last_call (A : Type) (wait : Z) (firstHandle : nat) :
  (forall trace : list (Debounce.step A),
     let s := Debounce.run wait trace (Debounce.debounce firstHandle) in
     (Debounce.waiting s = [] \/
      exists h a,
        Debounce.waiting s = [Debounce.mkPending h wait a] /\
        Debounce.timeout s = Some h /\ Debounce.lastCall trace = Some a) /\
     Forall (fun a => In (Debounce.Call a) trace) (Debounce.calls s)) /\
  (forall trace (a : A),
     let s := Debounce.run wait trace (Debounce.debounce firstHandle) in
     let called := Debounce.executedFunction wait a s in
     let h := Debounce.nextHandle s in
     Debounce.waiting called = [Debounce.mkPending h wait a] /\
     Debounce.calls (Debounce.later h called) = Debounce.calls s ++ [a] /\
     Debounce.waiting (Debounce.later h called) = []) /\
  (forall (burst : list A) (a : A),
     let s := Debounce.run wait (map Debounce.Call (burst ++ [a]))
                (Debounce.debounce firstHandle) in
     exists h,
       Debounce.waiting s = [Debounce.mkPending h wait a] /\
       Debounce.calls s = [] /\
       Debounce.calls (Debounce.later h s) = [a] /\
       Debounce.waiting (Debounce.later h s) = []).
Proof.
  assert (P2 : forall trace (a : A),
            let s := Debounce.run wait trace (Debounce.debounce firstHandle) in
            let called := Debounce.executedFunction wait a s in
            let h := Debounce.nextHandle s in
            Debounce.waiting called = [Debounce.mkPending h wait a] /\
            Debounce.calls (Debounce.later h called) = Debounce.calls s ++ [a] /\
            Debounce.waiting (Debounce.later h called) = []).
  { intros trace a. cbv zeta.
    pose proof (run_single wait trace firstHandle) as S.
    destruct (executedFunction_single wait a _ _ S) as (Hw & Ht & Hc).
    destruct (later_single wait _ a _ Hw Ht) as (Hw' & Hc').
    rewrite Hc in Hc'. auto. }
  split; [|split].
  - intros trace. cbv zeta. split.
    + apply (run_single wait trace firstHandle).
    + apply (run_called wait trace firstHandle).
  - exact P2.
  - intros burst a. cbv zeta.
    rewrite map_app. simpl map. rewrite debounce_run_snoc.
    destruct (P2 (map Debounce.Call burst) a) as (Hw & Hc & Hw'). cbv zeta in *.
    rewrite run_calls_only in Hc. simpl in Hc.
    eexists. split; [exact Hw|]. split; [|split; [exact Hc | exact Hw']].
    simpl. unfold Debounce.executedFunction. simpl.
    apply run_calls_only.
Qed.

(** ** Service cards *)

Lemma getServiceType_page (card : nat) (st st0 : App) :
  page st = page st0 -> eval (getServiceType card) st = eval (getServiceType card) st0.
Proof.
  intros H. unfold getServiceType, eval. rewrite !run_bind.
  unfold deref, gets. cbn [fst snd]. rewrite H.
  repeat match goal with
         | |- context [if ?b then _ else _] => destruct b
         end; reflexivity.
Qed.

Lemma initServiceCards_loop (l : list element) (st0 st : App) :
  page st = page st0 -> now st = now st0 ->
  let st' := exec (forEach l (fun card =>
                     serviceType <- getServiceType (uid card) ;;
                     trackEvent "service_view" [("service", VStr serviceType)])) st in
  eventHistory st' =
    eventHistory st ++
    map (fun card =>
           mkEvent "service_view"
             [("service", VStr (eval (getServiceType (uid card)) st0))] (now st0)) l /\
  page st' = page st /\ timers st' = timers st /\ observers st' = observers st.
Proof.
  cbv zeta. revert st. induction l as [|card l IH]; intros st Hp Hn.
  - unfold exec. simpl. now rewrite app_nil_r.
  - simpl forEach. rewrite exec_bind. cbv beta. rewrite exec_bind. cbv beta.
    rewrite (getServiceType_readOnly (uid card) st : exec _ st = st).
    rewrite (getServiceType_page _ _ _ Hp).
    destruct (trackEvent_history "service_view"
                [("service", VStr (eval (getServiceType (uid card)) st0))] st)
      as (Hh & Hn' & Hp' & Ht & Ho & _).
    set (st1 := exec (trackEvent "service_view"
                        [("service", VStr (eval (getServiceType (uid card)) st0))]) st) in *.
    destruct (IH st1) as (Hh1 & Hp1 & Ht1 & Ho1); [congruence | congruence |].
    rewrite Hh1, Hp1, Ht1, Ho1, Hh, Hp', Ht, Ho, Hn. simpl.
    now rewrite <- app_assoc.
Qed.

(** X20. [initServiceCards] records one [service_view] event for every
    service card of the page, in document order and with the type of the
    card, whether or not the card ever comes into view; it sets no observer
    and leaves the page alone. *)
Theorem initServiceCards_records_every_card (st : App) :
  let st' := exec initServiceCards st in
  let serviceCards := querySelectorAll (ByClass "service-card") Body (page st) in
  added st st' =
    map (fun card =>
           mkEvent "service_view"
             [("service", VStr (eval (getServiceType (uid card)) st))] (now st))
      serviceCards /\
  page st' = page st /\ observers st' = observers st.
Proof.
  cbv zeta. unfold initServiceCards. rewrite exec_bind. cbv beta.
  change (eval (gets page) st) with (page st).
  change (exec (gets page) st) with st.
  destruct (initServiceCards_loop
              (querySelectorAll (ByClass "service-card") Body (page st)) st st
              eq_refl eq_refl) as (Hh & Hp & _ & Ho).
  cbv zeta in Hh, Hp, Ho. split; [|split; assumption].
  now apply added_app.
Qed.

(** ** Where a message appears *)

(** X21. [showMessage] puts the message at the end of the contact section
    when its type is [success] or [error] and the page has an element
    [#contact], and at the end of the page otherwise. *)
Theorem message_goes_to_the_contact_section (message type : string) (duration : Z) (st : App) :
  let cleared := exec removeExistingMessages st in
  let shown := exec (showMessage message type duration) st in
  let messageDiv := messageElement message type (blank (nextUid st) "div") in
  let forForm := String.eqb type "success" || String.eqb type "error" in
  match querySelector (ById "contact") Body (page cleared) with
  | Some contact =>
      if forForm
      then exists k,
             descendantsOf (uid contact) (page shown) =
             descendantsOf (uid contact) (page cleared) ++ [setDepth k messageDiv]
      else page shown = page cleared ++ [setDepth 0 messageDiv]
  | None => page shown = page cleared ++ [setDepth 0 messageDiv]
  end.
Proof.
  cbv zeta. rewrite showMessage_page. cbv zeta.
  destruct (removeExistingMessages_page st) as [_ Hn].
  set (cleared := exec removeExistingMessages st) in *. rewrite Hn.
  assert (C : eval (getMessageContainer type) (setNextUid (S (nextUid st)) cleared) =
              if String.eqb type "success" || String.eqb type "error"
              then match querySelector (ById "contact") Body (page cleared) with
                   | Some contact => El (uid contact)
                   | None => Body
                   end
              else Body).
  { unfold getMessageContainer, eval. rewrite run_bind. cbn [gets fst snd page setNextUid].
    destruct (String.eqb type "success" || String.eqb type "error"); [|reflexivity].
    destruct (querySelector (ById "contact") Body (page cleared)); reflexivity. }
  rewrite C.
  destruct (querySelector (ById "contact") Body (page cleared)) as [contact|] eqn:Q.
  - destruct (String.eqb type "success" || String.eqb type "error"); [|reflexivity].
    apply descendantsOf_insertUnder. apply in_map.
    now apply (querySelector_In _ Body _ _ Q).
  - destruct (String.eqb type "success" || String.eqb type "error"); reflexivity.
Qed.

(** ** Submissions that pass validation, to the end *)

Lemma valuesFrom_refl (d : document) : valuesFrom d d.
Proof. intros f Hf _. exists f. auto. Qed.

Lemma valuesFrom_trans (a b c : document) :
  valuesFrom a b -> valuesFrom b c -> valuesFrom a c.
Proof.
  intros Hab Hbc f Hf Hm.
  destruct (Hbc f Hf Hm) as (f1 & H1 & U1 & V1 & L1).
  destruct (Hab f1 H1) as (f0 & H0 & U0 & V0 & L0).
  - simpl in Hm |- *. now rewrite L1.
  - exists f0. repeat split; congruence.
Qed.

Lemma valuesFrom_sub (d d' : document) :
  (forall x, In x d' -> In x d) -> valuesFrom d d'.
Proof. intros H f Hf _. exists f. auto. Qed.

Lemma removeAll_In (us : list nat) (d : document) (x : element) :
  In x (removeAll us d) -> In x d.
Proof.
  unfold removeAll. revert d. induction us as [|u us IH]; intros d; simpl; [auto|].
  intros H. apply IH in H. now apply removeNode_In in H.
Qed.

Lemma valuesFrom_appendChild (parent : node) (new : element) (d : document) :
  matchesSelector fieldSelector new = false -> valuesFrom d (appendChild parent new d).
Proof.
  intros Hn. destruct (appendChild_shape parent new d) as [->|(l1 & l2 & k & E1 & ->)];
    [apply valuesFrom_refl|].
  intros f Hf Hm. apply in_app_or in Hf as [Hf|[<-|Hf]].
  - exists f. rewrite E1. repeat split. apply in_or_app. now left.
  - change (matchesSelector fieldSelector new = true) in Hm. congruence.
  - exists f. rewrite E1. repeat split. apply in_or_app. now right.
Qed.

Lemma valuesFrom_update (u : nat) (g : element -> element) (d : document) :
  (forall e, uid (g e) = uid e /\ value (g e) = value e /\ localName (g e) = localName e) ->
  valuesFrom d (update u g d).
Proof.
  intros Hg f Hf _. apply update_In in Hf as (e & He & ->).
  exists e. split; [exact He|].
  destruct (hasUid u e); [|auto]. destruct (Hg e) as (U & V & L). auto.
Qed.

Lemma valuesFrom_showMessage (message type : string) (duration : Z) (st : App) :
  valuesFrom (page st) (page (exec (showMessage message type duration) st)).
Proof.
  rewrite showMessage_page. cbv zeta.
  destruct (removeExistingMessages_page st) as [Hp _].
  eapply valuesFrom_trans; [|apply valuesFrom_appendChild; reflexivity].
  rewrite Hp. apply valuesFrom_sub. intro x. apply removeAll_In.
Qed.

Lemma valuesFrom_hideFormLoading (form : nat) (st : App) :
  valuesFrom (page st) (page (exec (hideFormLoading form) st)).
Proof.
  rewrite hideFormLoading_page.
  destruct (querySelector _ (El form) (page st)) as [submitButton|];
    [|apply valuesFrom_refl].
  apply valuesFrom_update. intro x. repeat split.
Qed.




(** ** One-shot observers and notifications with several entries *)

Lemma runCallback_cons (o : nat) (cb : callback) (e : entry) (r : list entry) (st : App) :
  exec (runCallback o cb (e :: r)) st =
  exec (runCallback o cb r) (exec (runCallback o cb [e]) st).
Proof.
  destruct cb; cbn [runCallback forEach]; rewrite !exec_bind; cbv beta; reflexivity.
Qed.

Lemma runCallback_nil (o : nat) (cb : callback) (st : App) :
  exec (runCallback o cb []) st = st.
Proof. destruct cb; reflexivity. Qed.

Lemma oneShotEvent_page (cb : callback) (st st0 : App) :
  page st = page st0 -> now st = now st0 -> oneShotEvent cb st = oneShotEvent cb st0.
Proof.
  intros Hp Hn. destruct cb; simpl; rewrite Hn; [reflexivity | | reflexivity].
  now rewrite (getServiceType_page _ _ _ Hp).
Qed.

(** What a one-shot callback does with one entry that reports its element
    as intersecting, whether or not the element is still observed. *)
Lemma oneShot_entry (o t : nat) (cb : callback) (ts : list nat) (st : App) :
  oneShot cb = true ->
  nth_error (observers st) o = Some (mkObserver cb ts) ->
  let st' := exec (runCallback o cb [mkEntry true t]) st in
  eventHistory st' = eventHistory st ++ [oneShotEvent cb st] /\
  nth_error (observers st') o =
    Some (mkObserver cb (filter (fun x => negb (t =? x)) ts)) /\
  page st' = page st /\ now st' = now st.
Proof.
  intros Hcb Ho st'. unfold st', exec.
  destruct cb as [|card|sectionId]; [discriminate| |]; cbn [runCallback forEach].
  - rewrite run_bind. cbn [isIntersecting target]. rewrite run_bind.
    rewrite getServiceType_readOnly. rewrite !run_bind.
    fold (eval (getServiceType card) st).
    match goal with
    | |- context [trackEvent ?n ?d st] =>
        destruct (trackEvent_history n d st) as (E & N & P & _ & O & _);
        unfold exec in E, N, P, O
    end.
    cbn [unobserve modify ret fst snd eventHistory observers setObservers page now].
    rewrite E, P, N, O, nth_error_atRank, Ho. cbn [option_map targets onEntries].
    repeat split.
  - rewrite run_bind. cbn [isIntersecting target]. rewrite !run_bind.
    match goal with
    | |- context [trackEvent ?n ?d st] =>
        destruct (trackEvent_history n d st) as (E & N & P & _ & O & _);
        unfold exec in E, N, P, O
    end.
    cbn [unobserve modify ret fst snd eventHistory observers setObservers page now].
    rewrite E, P, N, O, nth_error_atRank, Ho. cbn [option_map targets onEntries].
    repeat split.
Qed.

Lemma oneShot_entry_outwards (o t : nat) (cb : callback) (st : App) :
  exec (runCallback o cb [mkEntry false t]) st = st.
Proof. destruct cb; reflexivity. Qed.

(** The callback goes through every entry it is handed: each one that
    reports the element records the event again. *)
Lemma oneShot_entries (o t : nat) (cb : callback) (delivered : list entry)
  (ts : list nat) (st0 st : App) :
  oneShot cb = true ->
  Forall (fun e => target e = t) delivered ->
  page st = page st0 -> now st = now st0 ->
  nth_error (observers st) o = Some (mkObserver cb ts) ->
  let st' := exec (runCallback o cb delivered) st in
  let n := List.length (filter isIntersecting delivered) in
  eventHistory st' = eventHistory st ++ repeat (oneShotEvent cb st0) n /\
  nth_error (observers st') o =
    Some (mkObserver cb (if n =? 0 then ts else filter (fun x => negb (t =? x)) ts)) /\
  page st' = page st /\ now st' = now st.
Proof.
  intros Hcb Hd. cbv zeta. revert ts st.
  induction Hd as [|e r He Hr IH]; intros ts st Hp Hn Ho.
  - rewrite runCallback_nil. simpl. now rewrite app_nil_r.
  - rewrite runCallback_cons. destruct e as [b t']. simpl in He. subst t'.
    destruct b; cbn [filter isIntersecting].
    + destruct (oneShot_entry o t cb ts st Hcb Ho) as (E1 & O1 & P1 & N1).
      cbv zeta in E1, O1, P1, N1.
      set (st1 := exec (runCallback o cb [mkEntry true t]) st) in *.
      destruct (IH _ st1 ltac:(congruence) ltac:(congruence) O1) as (E2 & O2 & P2 & N2).
      rewrite E2, O2, P2, N2, E1, (oneShotEvent_page cb st st0 Hp Hn).
      cbn [List.length repeat Nat.eqb]. rewrite <- app_assoc.
      split; [reflexivity|]. split; [|split; congruence].
      f_equal. f_equal.
      destruct (List.length (filter isIntersecting r) =? 0); [reflexivity|].
      clear. induction ts as [|x ts IH]; simpl; [reflexivity|].
      destruct (t =? x) eqn:E; simpl; rewrite ?E; simpl; [exact IH | now rewrite IH].
    + rewrite oneShot_entry_outwards. now apply IH.
Qed.

Lemma filter_filter {A : Type} (p q : A -> bool) (l : list A) :
  filter p (filter q l) = filter (fun x => p x && q x) l.
Proof.
  induction l as [|x l IH]; simpl; [reflexivity|].
  destruct (q x); simpl; rewrite ?andb_true_r, ?andb_false_r;
    [destruct (p x); now rewrite IH | exact IH].
Qed.

(** A notification handed to a one-shot observer that still observes its
    element. *)
Lemma oneShot_notify (o t : nat) (cb : callback) (entries : list entry) (st : App) :
  oneShot cb = true ->
  nth_error (observers st) o = Some (mkObserver cb [t]) ->
  let st' := exec (notify o entries) st in
  let n := List.length (reported t entries) in
  eventHistory st' = eventHistory st ++ repeat (oneShotEvent cb st) n /\
  nth_error (observers st') o = Some (mkObserver cb (if n =? 0 then [t] else [])).
Proof.
  intros Hcb Ho. cbv zeta.
  assert (Hobs : forall e, observed (target e) (mkObserver cb [t]) = (target e =? t)).
  { intro e. unfold observed. cbn [targets existsb]. apply orb_false_r. }
  assert (Hn : List.length (filter isIntersecting
                              (filter (fun e => observed (target e) (mkObserver cb [t]))
                                 entries)) =
               List.length (reported t entries)).
  { rewrite filter_filter. unfold reported. f_equal. apply filter_ext.
    intro e. now rewrite Hobs. }
  assert (Hd : Forall (fun e => target e = t)
                 (filter (fun e => observed (target e) (mkObserver cb [t])) entries)).
  { apply Forall_forall. intros e He. apply filter_In in He as [_ He].
    rewrite Hobs in He. now apply Nat.eqb_eq. }
  destruct (oneShot_entries o t cb _ [t] st st Hcb Hd eq_refl eq_refl Ho)
    as (E & O & _). cbv zeta in E, O. rewrite Hn in E, O.
  assert (F : filter (fun x => negb (t =? x)) [t] = []).
  { simpl. now rewrite Nat.eqb_refl. }
  rewrite F in O.
  unfold notify, exec at 1 2. rewrite run_bind. cbn [gets fst snd]. rewrite Ho.
  cbn [onEntries].
  destruct (filter (fun e => observed (target e) (mkObserver cb [t])) entries)
    as [|e r] eqn:D.
  - simpl in Hn. rewrite <- Hn. simpl. rewrite app_nil_r. now split.
  - now split.
Qed.

(** C8.  [trackServiceInterest] gives every service card, and
    [trackBusinessGoals] every business section of the page, an observer of
    its own with that one target.  Such an observer records its event once
    for every entry of a notification that reports the element as
    intersecting, and stops observing only when the callback has gone
    through the entries; nothing is delivered afterwards.  So a notification
    that reports the element twice records two events: the first service
    card of the sample page crossing in, out and in again within one
    notification is recorded as two [service_interest] events, and the
    services section doing the same as two [business_goal] events. *)
Theorem one_shot_records_every_entry_of_a_notification :
  (forall st,
     observers (exec trackServiceInterest st) =
     observers st ++
     map (fun card => mkObserver (ServiceInterest (uid card)) [uid card])
       (querySelectorAll (ByClass "service-card") Body (page st))) /\
  (forall st,
     observers (exec trackBusinessGoals st) =
     observers st ++
     flat_map (fun sectionId =>
                 match querySelector (ById sectionId) Body (page st) with
                 | Some section => [mkObserver (BusinessGoal sectionId) [uid section]]
                 | None => []
                 end)
       ["services"; "about"; "contact"]) /\
  (forall o t cb entries st,
     oneShot cb = true ->
     nth_error (observers st) o = Some (mkObserver cb [t]) ->
     let st' := exec (notify o entries) st in
     let n := List.length (reported t entries) in
     eventHistory st' = eventHistory st ++ repeat (oneShotEvent cb st) n /\
     nth_error (observers st') o = Some (mkObserver cb (if n =? 0 then [t] else []))) /\
  (forall o cb entries st,
     nth_error (observers st) o = Some (mkObserver cb []) ->
     exec (notify o entries) st = st) /\
  (let ready := exec (trackServiceInterest ;; trackBusinessGoals) Sample.app0 in
   observers ready =
     [mkObserver (ServiceInterest 6) [6]; mkObserver (ServiceInterest 7) [7];
      mkObserver (BusinessGoal "services") [5]; mkObserver (BusinessGoal "contact") [8]] /\
   added ready
     (exec (notify 0 [mkEntry true 6; mkEntry false 6; mkEntry true 6]) ready) =
     [mkEvent "service_interest"
        [("service", VStr "healthcare"); ("action", VStr "view")] 0%Z;
      mkEvent "service_interest"
        [("service", VStr "healthcare"); ("action", VStr "view")] 0%Z] /\
   added ready
     (exec (notify 2 [mkEntry true 5; mkEntry false 5; mkEntry true 5]) ready) =
     [mkEvent "business_goal" [("goal", VStr "view_services")] 0%Z;
      mkEvent "business_goal" [("goal", VStr "view_services")] 0%Z]).
Proof.
  split; [exact trackServiceInterest_observers|].
  split; [exact trackBusinessGoals_observers|].
  split; [exact oneShot_notify|].
  split.
  - intros o cb entries st Ho. unfold exec.
    rewrite (notify_undelivered o _ entries st Ho); [reflexivity|].
    apply filter_none. intros e _. reflexivity.
  - cbv zeta. split; [vm_compute; reflexivity|].
    split; vm_compute; reflexivity.
Qed.
